(** * node-routeros client core: wire codec, channels, streams, session

  A shallow embedding of the RouterOS API client shipped with this
  repository (node_modules/node-routeros/dist) and the properties its
  design document states about it.

  Conventions of the embedding.
  - A JavaScript string is a [string]: one character per UTF-16 code
    unit, for code units 0..255.
  - A [Buffer] is a [list Z] of bytes, each in [0, 256).
  - JavaScript bitwise operators work on 32-bit integers; they are
    written out over [Z] in module [JS].
  - An exception thrown by the code is the [None] of an [option]; where
    the code runs listeners, a thrown exception is recorded in the state
    it leaves behind. *)

From Stdlib Require Import ZArith Lia.
From Stdlib Require Import Ascii String.
From Stdlib Require Import DecimalString DecimalNat.
From stdpp Require Import base option list strings gmap.

Local Open Scope Z_scope.

(** ** JavaScript primitives *)

(** The code units of a string. *)
Definition code_units (s : string) : list Z :=
  map (fun c => Z.of_N (Ascii.N_of_ascii c)) (String.list_ascii_of_string s).

Module JS.

(** ToInt32 of ECMAScript: reduce modulo 2^32 into [-2^31, 2^31). *)
Definition ToInt32 (x : Z) : Z :=
  let u := x mod 2 ^ 32 in
  if u <? 2 ^ 31 then u else u - 2 ^ 32.

(** [a | b] *)
Definition bor (a b : Z) : Z := ToInt32 (Z.lor (ToInt32 a) (ToInt32 b)).

(** [a & b] *)
Definition band (a b : Z) : Z := ToInt32 (Z.land (ToInt32 a) (ToInt32 b)).

(** [a >> n], the sign-propagating shift; the count is taken modulo 32. *)
Definition sar (a n : Z) : Z := Z.shiftr (ToInt32 a) (n mod 32).

End JS.

(** ** JavaScript strings and objects *)

Module JSString.

(** [s.split(sep)] for a separator of one character. *)
Fixpoint split (sep : ascii) (s : string) : list string :=
  match s with
  | EmptyString => [EmptyString]
  | String c s' =>
      if Ascii.eqb c sep then EmptyString :: split sep s'
      else match split sep s' with
           | [] => [String c EmptyString]
           | piece :: pieces => String c piece :: pieces
           end
  end.

(** [pieces.join(sep)] *)
Fixpoint join (sep : string) (pieces : list string) : string :=
  match pieces with
  | [] => EmptyString
  | [piece] => piece
  | piece :: pieces' => piece +:+ sep +:+ join sep pieces'
  end.

(** Whether a character occurs in a string. *)
Fixpoint contains (c : ascii) (s : string) : bool :=
  match s with
  | EmptyString => false
  | String c' s' => Ascii.eqb c' c || contains c s'
  end.

(** [s.includes(sub)], which is what the test of a regular expression
    without metacharacters does. *)
Fixpoint includes (sub s : string) : bool :=
  String.prefix sub s
  || match s with
     | EmptyString => false
     | String _ s' => includes sub s'
     end.

(** White space as [parseInt] skips it. *)
Definition is_space (c : ascii) : bool :=
  let n := Ascii.nat_of_ascii c in
  ((n =? 32) || ((9 <=? n) && (n <=? 13)) || (n =? 160))%nat.

Fixpoint skip_spaces (s : string) : string :=
  match s with
  | EmptyString => EmptyString
  | String c s' => if is_space c then skip_spaces s' else s
  end.

(** The value of a character as a digit, for radices up to 36. *)
Definition digit_value (c : ascii) : option Z :=
  let n := Z.of_nat (Ascii.nat_of_ascii c) in
  if (48 <=? n) && (n <=? 57) then Some (n - 48)
  else if (97 <=? n) && (n <=? 122) then Some (n - 87)
  else if (65 <=? n) && (n <=? 90) then Some (n - 55)
  else None.

(** The number the longest prefix of digits denotes; [acc] is [None] as
    long as no digit was read. *)
Fixpoint digits (radix : Z) (s : string) (acc : option Z) : option Z :=
  match s with
  | EmptyString => acc
  | String c s' =>
      match digit_value c with
      | Some d =>
          if d <? radix then digits radix s' (Some (default 0 acc * radix + d))
          else acc
      | None => acc
      end
  end.

(** [parseInt(s, null)]: the radix is 10, or 16 after the prefix [0x];
    [None] is NaN.  The result is exact as long as it is below 2^53. *)
Definition parseInt (s : string) : option Z :=
  let s := skip_spaces s in
  let '(sign, s) :=
    match s with
    | String "-" s' => (-1, s')
    | String "+" s' => (1, s')
    | _ => (1, s)
    end in
  let '(radix, s) :=
    match s with
    | String "0" (String "x" s') => (16, s')
    | String "0" (String "X" s') => (16, s')
    | _ => (10, s)
    end in
  (fun n => sign * n) <$> digits radix s None.

(** The UTF-8 encoding of one code unit below 256. *)
Definition utf8_char (c : ascii) : list Z :=
  let n := Z.of_N (Ascii.N_of_ascii c) in
  if n <? 128 then [n] else [192 + n / 64; 128 + n mod 64].

(** The UTF-8 encoding of a string, character by character. *)
Definition utf8_chars (s : string) : list (list Z) :=
  map utf8_char (String.list_ascii_of_string s).

(** The value of a hexadecimal digit. *)
Definition hex_digit (c : ascii) : option Z :=
  match digit_value c with
  | Some d => if d <? 16 then Some d else None
  | None => None
  end.

(** The bytes a string of hexadecimal digits denotes, two digits a byte,
    up to the first pair that is not two digits. *)
Fixpoint hex_decode (s : string) : list Z :=
  match s with
  | String a (String b s') =>
      match hex_digit a, hex_digit b with
      | Some x, Some y => 16 * x + y :: hex_decode s'
      | _, _ => []
      end
  | _ => []
  end.

(** The lower-case hexadecimal digit of a number below 16. *)
Definition hex_char (d : Z) : ascii :=
  Ascii.ascii_of_nat (Z.to_nat (if d <? 10 then 48 + d else 87 + d)).

(** The lower-case hexadecimal text of a sequence of bytes. *)
Fixpoint hex_string (bytes : list Z) : string :=
  match bytes with
  | [] => EmptyString
  | b :: bytes' =>
      String (hex_char (b / 16)) (String (hex_char (b mod 16))
                                    (hex_string bytes'))
  end.

End JSString.

(** ** JavaScript numbers in texts *)

Module JSNumber.

(** The text of a natural number, as a template literal or a string
    concatenation inserts it: its decimal digits. *)
Definition decimal (n : nat) : string :=
  NilZero.string_of_uint (Nat.to_uint n).

End JSNumber.

(** A plain object whose properties are strings.  [obj[key] = value]
    creates or overwrites the property, except for the key [__proto__],
    which is the prototype accessor: assigning a string to it changes
    nothing. *)
Definition obj_set (key value : string) (obj : gmap string string)
  : gmap string string :=
  if decide (key = "__proto__") then obj else <[key := value]> obj.

(** ** Node's Buffer, as far as the client uses it *)

Module Buffer.

(** [Buffer.alloc(n)]: n zero bytes. *)
Definition alloc (n : Z) : list Z := replicate (Z.to_nat n) 0.

(** [buf[i] = v]: the value is stored modulo 256; an index outside the
    buffer stores nothing. *)
Definition set (i : nat) (v : Z) (buf : list Z) : list Z :=
  <[i := v mod 256]> buf.

(** [n] bytes read from [cur] and then from [value] again and again. *)
Fixpoint fill_from (value cur : list Z) (n : nat) : list Z :=
  match n with
  | O => []
  | S n' =>
      match cur with
      | x :: cur' => x :: fill_from value cur' n'
      | [] =>
          match value with
          | [] => []
          | x :: value' => x :: fill_from value value' n'
          end
      end
  end.

(** [buf.fill(value, offset)] for a Buffer [value]: the bytes from
    [offset] to the end are overwritten with [value] repeated.  An offset
    past the end throws, an empty range returns the buffer as it is, and
    an empty [value] for a non-empty range throws. *)
Definition fill (value : list Z) (offset : nat) (buf : list Z)
  : option (list Z) :=
  if decide (length buf < offset)%nat then None
  else if decide (offset = length buf) then Some buf
  else match value with
       | [] => None
       | _ => Some (take offset buf
                    ++ fill_from value value (length buf - offset))
       end.

(** The bytes [bytes] stored from [offset] on. *)
Definition store (bytes : list Z) (offset : nat) (buf : list Z) : list Z :=
  take offset buf ++ bytes ++ drop (offset + length bytes) buf.

(** The characters of a string written one after the other from
    [offset] on, as long as a whole character fits. *)
Fixpoint write_chars (chars : list (list Z)) (offset : nat) (buf : list Z)
  : list Z :=
  match chars with
  | [] => buf
  | bytes :: chars' =>
      if (offset + length bytes <=? length buf)%nat
      then write_chars chars' (offset + length bytes) (store bytes offset buf)
      else buf
  end.

(** [buf.write(string)]: the UTF-8 encoding of the string is written from
    the start; what does not fit is not written, and no character is
    written in part. *)
Definition write (s : string) (buf : list Z) : list Z :=
  write_chars (JSString.utf8_chars s) 0 buf.

(** [buf.write(string, offset, string.length / 2, 'hex')]: the offset and
    the length must be integers within the buffer, or the call throws; at
    most [length] bytes, and no more than fit, are written. *)
Definition write_hex (s : string) (offset : nat) (buf : list Z)
  : option (list Z) :=
  let n := String.length s in
  if negb (Nat.even n) then None
  else if (length buf <? offset)%nat || (length buf <? n / 2)%nat then None
  else
    let bytes :=
      take (Nat.min (n / 2) (length buf - offset)) (JSString.hex_decode s) in
    Some (store bytes offset buf).

End Buffer.

(** ** Transmitter (connector/Transmitter.js) *)

Module Transmitter.

(** The [n] low bytes of [v], most significant first. *)
Fixpoint be_bytes (n : nat) (v : Z) : list Z :=
  match n with
  | O => []
  | S n' => (v / 2 ^ (8 * Z.of_nat n')) mod 256 :: be_bytes n' v
  end.

(** The number a big-endian byte string denotes. *)
Definition be_value (bs : list Z) : Z :=
  fold_left (fun acc b => acc * 256 + b) bs 0.

(** The length prefix as the design document tabulates it, by the range
    of the payload length [L]; [encodeString] below is the code, and is
    compared with this table. *)
Definition length_prefix (L : Z) : list Z :=
  if L <? 0x80 then be_bytes 1 L
  else if L <? 0x4000 then be_bytes 2 (Z.lor L 0x8000)
  else if L <? 0x200000 then be_bytes 3 (Z.lor L 0xC00000)
  else if L <? 0x10000000 then be_bytes 4 (Z.lor L 0xE0000000)
  else 0xF0 :: be_bytes 4 L.

Section WithEncoding.

(** [iconv.encode(str, 'win1252')] of the iconv-lite package: the
    single-byte encoding of a string, as a Buffer. *)
Variable iconv_encode : string -> list Z.

(** [encodeString(str)]; [None] is JavaScript's [null], for which the
    result is the one-character string of code 0, a single zero byte on
    the socket. *)
Definition encodeString (str : option string) : option (list Z) :=
  match str with
  | None => Some [0]
  | Some str =>
      let encoded := iconv_encode str in
      let len := Z.of_nat (length encoded) in
      if len <? 0x80 then
        let data := Buffer.alloc (len + 1) in
        let data := Buffer.set 0 len data in
        Buffer.fill encoded 1 data
      else if len <? 0x4000 then
        let data := Buffer.alloc (len + 2) in
        let len := JS.bor len 0x8000 in
        let data := Buffer.set 0 (JS.band (JS.sar len 8) 0xff) data in
        let data := Buffer.set 1 (JS.band len 0xff) data in
        Buffer.fill encoded 2 data
      else if len <? 0x200000 then
        let data := Buffer.alloc (len + 3) in
        let len := JS.bor len 0xc00000 in
        let data := Buffer.set 0 (JS.band (JS.sar len 16) 0xff) data in
        let data := Buffer.set 1 (JS.band (JS.sar len 8) 0xff) data in
        let data := Buffer.set 2 (JS.band len 0xff) data in
        Buffer.fill encoded 3 data
      else if len <? 0x10000000 then
        let data := Buffer.alloc (len + 4) in
        let len := JS.bor len 0xe0000000 in
        let data := Buffer.set 0 (JS.band (JS.sar len 24) 0xff) data in
        let data := Buffer.set 1 (JS.band (JS.sar len 16) 0xff) data in
        let data := Buffer.set 2 (JS.band (JS.sar len 8) 0xff) data in
        let data := Buffer.set 3 (JS.band len 0xff) data in
        Buffer.fill encoded 4 data
      else
        let data := Buffer.alloc (len + 5) in
        let data := Buffer.set 0 0xf0 data in
        let data := Buffer.set 1 (JS.band (JS.sar len 24) 0xff) data in
        let data := Buffer.set 2 (JS.band (JS.sar len 16) 0xff) data in
        let data := Buffer.set 3 (JS.band (JS.sar len 8) 0xff) data in
        let data := Buffer.set 4 (JS.band len 0xff) data in
        Buffer.fill encoded 5 data
  end.

(** The bytes a word is to be sent as: the sentence terminator [null] is
    one zero byte, a string is its documented length prefix and its
    encoding. *)
Definition encoded (w : option string) : list Z :=
  match w with
  | None => [0]
  | Some str =>
      length_prefix (Z.of_nat (length (iconv_encode str))) ++ iconv_encode str
  end.

(** What the transmitter sees of the socket it shares with the connector:
    the [writable] flag, the bytes handed to [socket.write] so far, in
    order, and whether [socket.destroy()] was called. *)
Record Socket := {
  writable : bool;
  sent : list Z;
  sock_destroyed : bool
}.

Definition socket_write (data : list Z) (s : Socket) : Socket :=
  {| writable := writable s; sent := sent s ++ data;
     sock_destroyed := sock_destroyed s |}.

Definition socket_destroy (s : Socket) : Socket :=
  {| writable := false; sent := sent s; sock_destroyed := true |}.

Definition socket_set_writable (b : bool) (s : Socket) : Socket :=
  {| writable := b; sent := sent s; sock_destroyed := sock_destroyed s |}.

(** The socket of a connector whose [connect()] has returned:
    [socket.connect(port, host)] and [tls.connect(...)] mark the socket
    writable at once, and the socket itself keeps what is written before
    the connection is established. *)
Definition connecting_socket : Socket :=
  {| writable := true; sent := []; sock_destroyed := false |}.

Record transmitter := {
  pool : list (list Z);
  socket : Socket
}.

(** [new Transmitter(socket)] *)
Definition new (socket : Socket) : transmitter :=
  {| pool := []; socket := socket |}.

(** [write(data)] *)
Definition write (data : option string) (tr : transmitter)
  : option transmitter :=
  encodedData ← encodeString data;
  if negb (writable (socket tr)) || (0 <? length (pool tr))%nat then
    Some {| pool := pool tr ++ [encodedData]; socket := socket tr |}
  else
    Some {| pool := pool tr; socket := socket_write encodedData (socket tr) |}.

(** The loop of [runPool]: [pool.shift()] then [socket.write], until the
    pool is empty. *)
Fixpoint runPool_loop (pool : list (list Z)) (s : Socket) : Socket :=
  match pool with
  | [] => s
  | data :: pool' => runPool_loop pool' (socket_write data s)
  end.

(** [runPool()] *)
Definition runPool (tr : transmitter) : transmitter :=
  {| pool := []; socket := runPool_loop (pool tr) (socket tr) |}.

(** Several [write] calls in a row. *)
Fixpoint writes (ws : list (option string)) (tr : transmitter)
  : option transmitter :=
  match ws with
  | [] => Some tr
  | w :: ws' => tr' ← write w tr; writes ws' tr'
  end.

End WithEncoding.

End Transmitter.

(** ** Channel (Channel.js) *)

Module Channel.

(** The events a channel emits. *)
Inductive event := EData | EDone | ETrap | EStream | EClose | EUnknown.

(** The listeners registered on a channel: the closures of
    [Channel.write] ([PushData] is [packet => this.data.push(packet)],
    [ResolveDone k] and [RejectTrap k] settle the k-th promise the channel
    created), [onUnknown] of the constructor, and the closures of the
    owner of the channel, which do not touch the channel. *)
Inductive listener :=
  | PushData
  | ResolveDone (k : nat)
  | RejectTrap (k : nat)
  | OnUnknown
  | External (name : string).

Record registration := {
  r_event : event;
  r_once : bool;
  r_listener : listener
}.

#[global] Instance event_eq_dec : EqDecision event.
Proof. solve_decision. Defined.
#[global] Instance listener_eq_dec : EqDecision listener.
Proof. solve_decision. Defined.
#[global] Instance registration_eq_dec : EqDecision registration.
Proof. solve_decision. Defined.

(** A call of the [resolve] or [reject] function of the k-th promise. *)
Inductive settle :=
  | Resolve (k : nat) (value : list (gmap string string))
  | Reject (k : nat) (message : string).

(** What an emitted event carries. *)
Inductive payload :=
  | PRecord (r : gmap string string)
  | PData (d : list (gmap string string))
  | PReply (reply : option string)
  | PNone.

Inductive completion := Normal | Throw (errno : string).

Record channel := {
  id : string;
  data : list (gmap string string);
  trapped : bool;
  streaming : bool;
  (** the listeners, in registration order *)
  listeners : list registration;
  (** whether the connector's receiver has a reader for the tag [id] *)
  reading : bool;
  (** the sentences handed to [connector.write] *)
  written : list (list string);
  (** the promises created so far *)
  promises : nat;
  (** the calls of resolve and reject, oldest first *)
  calls : list settle;
  (** the calls of the owner's listeners, oldest first *)
  external_calls : list (string * event)
}.

(** [new Channel(connector)], for the id the random generator gave. *)
Definition new (id : string) : channel :=
  {| id := id; data := []; trapped := false; streaming := false;
     listeners := [{| r_event := EUnknown; r_once := true;
                      r_listener := OnUnknown |}];
     reading := false; written := []; promises := 0; calls := [];
     external_calls := [] |}.

Definition set_listeners (ls : list registration) (ch : channel) : channel :=
  {| id := id ch; data := data ch; trapped := trapped ch;
     streaming := streaming ch; listeners := ls; reading := reading ch;
     written := written ch; promises := promises ch; calls := calls ch;
     external_calls := external_calls ch |}.

(** [on(event, listener)] and [once(event, listener)] *)
Definition add_listener (ev : event) (once : bool) (l : listener)
    (ch : channel) : channel :=
  set_listeners
    (listeners ch ++ [{| r_event := ev; r_once := once; r_listener := l |}])
    ch.

(** Removing one registration; registrations of the same listener for the
    same event are interchangeable. *)
Fixpoint remove_first (r : registration) (ls : list registration)
  : list registration :=
  match ls with
  | [] => []
  | r' :: ls' => if decide (r' = r) then ls' else r' :: remove_first r ls'
  end.

(** [new Error(data.message).message] *)
Definition error_message (r : gmap string string) : string :=
  default "" (r !! "message").

(** The body of a listener. *)
Definition run_listener (l : listener) (ev : event) (p : payload)
    (ch : channel) : channel * completion :=
  match l with
  | PushData =>
      match p with
      | PRecord r =>
          ({| id := id ch; data := data ch ++ [r]; trapped := trapped ch;
              streaming := streaming ch; listeners := listeners ch;
              reading := reading ch; written := written ch;
              promises := promises ch; calls := calls ch;
              external_calls := external_calls ch |}, Normal)
      | _ => (ch, Normal)
      end
  | ResolveDone k =>
      let v := match p with PData d => d | _ => [] end in
      ({| id := id ch; data := data ch; trapped := trapped ch;
          streaming := streaming ch; listeners := listeners ch;
          reading := reading ch; written := written ch;
          promises := promises ch; calls := calls ch ++ [Resolve k v];
          external_calls := external_calls ch |}, Normal)
  | RejectTrap k =>
      let m := match p with PRecord r => error_message r | _ => "" end in
      ({| id := id ch; data := data ch; trapped := trapped ch;
          streaming := streaming ch; listeners := listeners ch;
          reading := reading ch; written := written ch;
          promises := promises ch; calls := calls ch ++ [Reject k m];
          external_calls := external_calls ch |}, Normal)
  | OnUnknown => (ch, Throw "UNKNOWNREPLY")
  | External name =>
      ({| id := id ch; data := data ch; trapped := trapped ch;
          streaming := streaming ch; listeners := listeners ch;
          reading := reading ch; written := written ch;
          promises := promises ch; calls := calls ch;
          external_calls := external_calls ch ++ [(name, ev)] |}, Normal)
  end.

(** The listeners of a snapshot are called in order; a once-listener is
    removed before it is called; an exception ends the emit. *)
Fixpoint call_listeners (snapshot : list registration) (p : payload)
    (ch : channel) : channel * completion :=
  match snapshot with
  | [] => (ch, Normal)
  | r :: rest =>
      let ch :=
        if r_once r then set_listeners (remove_first r (listeners ch)) ch
        else ch in
      match run_listener (r_listener r) (r_event r) p ch with
      | (ch', Normal) => call_listeners rest p ch'
      | (ch', Throw e) => (ch', Throw e)
      end
  end.

(** [emit(event, payload)] *)
Definition emit (ev : event) (p : payload) (ch : channel)
  : channel * completion :=
  call_listeners (filter (fun r => r_event r = ev) (listeners ch)) p ch.

(** [readAndWrite(params)]: register the reader, write the sentence. *)
Definition readAndWrite (params : list string) (ch : channel) : channel :=
  {| id := id ch; data := data ch; trapped := trapped ch;
     streaming := streaming ch; listeners := listeners ch;
     reading := true; written := written ch ++ [params];
     promises := promises ch; calls := calls ch;
     external_calls := external_calls ch |}.

(** [write(params, isStream, returnPromise)]; the result is the channel
    and the index of the promise returned, if one is. *)
Definition write (params : list string) (isStream returnPromise : bool)
    (ch : channel) : channel * option nat :=
  let ch :=
    {| id := id ch; data := data ch; trapped := trapped ch;
       streaming := isStream; listeners := listeners ch;
       reading := reading ch; written := written ch;
       promises := promises ch; calls := calls ch;
       external_calls := external_calls ch |} in
  let params := params ++ [".tag=" +:+ id ch] in
  if returnPromise then
    let ch := add_listener EData false PushData ch in
    let k := promises ch in
    let ch :=
      {| id := id ch; data := data ch; trapped := trapped ch;
         streaming := streaming ch; listeners := listeners ch;
         reading := reading ch; written := written ch;
         promises := S k; calls := calls ch;
         external_calls := external_calls ch |} in
    let ch := add_listener EDone true (ResolveDone k) ch in
    let ch := add_listener ETrap true (RejectTrap k) ch in
    (readAndWrite params ch, Some k)
  else (readAndWrite params ch, None).

(** [close(force)] *)
Definition close (force : bool) (ch : channel) : channel * completion :=
  match emit EClose PNone ch with
  | (ch, Normal) =>
      let ch :=
        if negb (streaming ch) || force then set_listeners [] ch else ch in
      ({| id := id ch; data := data ch; trapped := trapped ch;
          streaming := streaming ch; listeners := listeners ch;
          reading := false; written := written ch;
          promises := promises ch; calls := calls ch;
          external_calls := external_calls ch |}, Normal)
  | (ch, Throw e) => (ch, Throw e)
  end.

(** One line of [parsePacket]. *)
Definition parseLine (obj : gmap string string) (line : string)
  : gmap string string :=
  let linePair := JSString.split "=" line in
  let linePair := tail linePair in
  let key := default "undefined" (head linePair) in
  let linePair := tail linePair in
  obj_set key (JSString.join "=" linePair) obj.

(** The property name a line is stored under. *)
Definition line_key (line : string) : string :=
  default "undefined" (head (tail (JSString.split "=" line))).

(** [parsePacket(packet)] *)
Definition parsePacket (packet : list string) : gmap string string :=
  fold_left parseLine packet ∅.

(** [processPacket(packet)] *)
Definition processPacket (packet : list string) (ch : channel)
  : channel * completion :=
  let reply := head packet in
  let packet := tail packet in
  let parsed := parsePacket packet in
  if decide (reply = Some "!trap") then
    let ch :=
      {| id := id ch; data := data ch; trapped := true;
         streaming := streaming ch; listeners := listeners ch;
         reading := reading ch; written := written ch;
         promises := promises ch; calls := calls ch;
         external_calls := external_calls ch |} in
    emit ETrap (PRecord parsed) ch
  else
    let r :=
      if (0 <? length packet)%nat && negb (streaming ch)
      then emit EData (PRecord parsed) ch else (ch, Normal) in
    match r with
    | (ch, Throw e) => (ch, Throw e)
    | (ch, Normal) =>
        if decide (reply = Some "!re") then
          if streaming ch then emit EStream (PRecord parsed) ch
          else (ch, Normal)
        else if decide (reply = Some "!done") then
          let r :=
            if negb (trapped ch) then emit EDone (PData (data ch)) ch
            else (ch, Normal) in
          match r with
          | (ch, Throw e) => (ch, Throw e)
          | (ch, Normal) => close false ch
          end
        else
          match emit EUnknown (PReply reply) ch with
          | (ch, Throw e) => (ch, Throw e)
          | (ch, Normal) => close false ch
          end
    end.

(** Modelled from the spec: the tag registry of the connector's receiver
    (connector/Receiver.js), for the tag of this channel: a decoded
    sentence is handed to the reader registered for its tag, and dropped
    when no reader is registered. *)
Definition deliver (packet : list string) (ch : channel)
  : channel * completion :=
  if reading ch then processPacket packet ch else (ch, Normal).

(** The sentences of a reply stream, delivered one after the other. *)
Fixpoint deliver_all (packets : list (list string)) (ch : channel)
  : channel :=
  match packets with
  | [] => ch
  | packet :: packets' => deliver_all packets' (deliver packet ch).1
  end.

(** The record of the first [!trap] sentence that [processPacket] gets to
    see, if there is one. *)
Fixpoint first_trap_processed (packets : list (list string)) (ch : channel)
  : option (gmap string string) :=
  match packets with
  | [] => None
  | packet :: packets' =>
      if reading ch && bool_decide (head packet = Some "!trap")
      then Some (parsePacket (tail packet))
      else first_trap_processed packets' (deliver packet ch).1
  end.

(** The listeners of the owner, registered before the write. *)
Definition add_externals (exts : list (event * bool * string))
    (ch : channel) : channel :=
  fold_left (fun ch e => add_listener e.1.1 e.1.2 (External e.2) ch) exts ch.

(** What a listener passes to resolve or reject. *)
Definition settle_of (l : listener) (p : payload) : list settle :=
  match l with
  | ResolveDone k => [Resolve k match p with PData d => d | _ => [] end]
  | RejectTrap k =>
      [Reject k match p with PRecord r => error_message r | _ => "" end]
  | _ => []
  end.

(** The listeners of the channel itself are registered for their own
    event. *)
Definition proper (r : registration) : Prop :=
  match r_listener r with
  | PushData => r_event r = EData
  | ResolveDone _ => r_event r = EDone
  | RejectTrap _ => r_event r = ETrap
  | OnUnknown => r_event r = EUnknown
  | External _ => True
  end.

(** Registrations whose listener never settles a promise. *)
Definition unsettling (r : registration) : Prop :=
  forall p, settle_of (r_listener r) p = [].

Definition is_reject (r : registration) : bool :=
  match r_listener r with RejectTrap _ => true | _ => false end.

Definition reject_reg (k : nat) : registration :=
  {| r_event := ETrap; r_once := true; r_listener := RejectTrap k |}.

(** A channel waiting for its reply: not trapped, its promise not
    settled, and the reject listener of its promise registered once. *)
Definition armed (ch : channel) : Prop :=
  trapped ch = false /\ calls ch = []
  /\ filter (fun r => is_reject r = true) (listeners ch) = [reject_reg 0].

(** A channel whose promise was rejected with message [m], once, and not
    resolved, and which has no reject listener left. *)
Definition rejected (m : string) (ch : channel) : Prop :=
  trapped ch = true /\ calls ch = [Reject 0 m]
  /\ filter (fun r => is_reject r = true) (listeners ch) = [].

(** Two states of a channel between which nothing was settled and no
    reject listener was removed. *)
Definition same_settlement (ch ch' : channel) : Prop :=
  trapped ch' = trapped ch /\ reading ch' = reading ch
  /\ streaming ch' = streaming ch
  /\ Forall proper (listeners ch')
  /\ calls ch' = calls ch
  /\ filter (fun r => is_reject r = true) (listeners ch')
     = filter (fun r => is_reject r = true) (listeners ch).

(** The state of a channel written with a deferred result, given the
    record of the first trap processed so far, if there was one. *)
Definition settled_as (t : option (gmap string string)) (ch : channel)
  : Prop :=
  Forall proper (listeners ch)
  /\ match t with
     | None => reading ch = true -> armed ch
     | Some r => rejected (error_message r) ch
     end.

(** The value a line is stored with. *)
Definition line_value (line : string) : string :=
  JSString.join "=" (tail (tail (JSString.split "=" line))).

(** The reader [readAndWrite] registers, called for one sentence after
    the other; an exception ends the calls. *)
Fixpoint processPackets (packets : list (list string)) (ch : channel)
  : channel * completion :=
  match packets with
  | [] => (ch, Normal)
  | packet :: rest =>
      match processPacket packet ch with
      | (ch', Normal) => processPackets rest ch'
      | (ch', Throw e) => (ch', Throw e)
      end
  end.

(** The records [processPacket] hands to the data listener for the
    sentences of a reply, given by their words after the reply word: one
    for every sentence that has such words. *)
Definition records (sentences : list (list string))
  : list (gmap string string) :=
  parsePacket <$> filter (fun words => words <> []) sentences.

Definition set_data (d : list (gmap string string)) (ch : channel)
  : channel :=
  {| id := id ch; data := d; trapped := trapped ch;
     streaming := streaming ch; listeners := listeners ch;
     reading := reading ch; written := written ch;
     promises := promises ch; calls := calls ch;
     external_calls := external_calls ch |}.

(** The listeners that are not closures of [write]. *)
Definition passive (r : registration) : Prop :=
  match r_listener r with
  | External _ | OnUnknown => True
  | _ => False
  end.

End Channel.

(** ** Stream (RStream.js) *)

Module RStream.

(** What a data event or the callback carries: a record of the channel,
    or an array of records; the synthetic empty data is the empty array. *)
Inductive payload :=
  | PRecord (r : gmap string string)
  | PArray (l : list (gmap string string)).

(** What a stream does to the outside. *)
Inductive action :=
  (** [this.emit(name, payload)] *)
  | Emit (name : string) (p : option payload)
  (** [this.callback(err, packet, this)], with the message of [err] *)
  | Callback (err : option string) (p : option payload)
  (** [this.channel.write(params, true, false)] *)
  | ChannelWrite (params : list string)
  (** [this.channel.close(force)] *)
  | ChannelClose (force : bool)
  (** a new channel writes [/cancel] for the tag of the stream's channel *)
  | Cancel
  (** an exception leaves the listener that runs: the error event has no
      listener, and [emit] throws *)
  | Throws.

(** The object [debounce(callback, timeout)] of utils.js returns: its
    delay in milliseconds ([None] is NaN) and whether its timer is
    pending. *)
Record debounce := {
  timeout : option Z;
  pending : bool
}.

Record rstream := {
  (** the command and its parameters *)
  params : list string;
  (** whether a callback function is set *)
  callback : bool;
  shouldDebounceEmptyData : bool;
  streaming : bool;
  pausing : bool;
  paused : bool;
  stopping : bool;
  stopped : bool;
  trapped : bool;
  forcelyStop : bool;
  currentSection : option string;
  (** the fragments of the current section *)
  currentSectionPacket : list (gmap string string);
  (** every debounce object made by [prepareDebounceEmptyData], oldest
      first; [this.debounceSendingEmptyData] is the last one *)
  debounces : list debounce;
  (** whether the section timer is pending *)
  sectionPacketSendingTimeout : bool;
  (** how many times the listeners of [start] are registered on the
      channel: for close, for stream, and the once-listeners for trap and
      done *)
  close_listeners : nat;
  stream_listeners : nat;
  trap_listeners : nat;
  done_listeners : nat;
  (** how many listeners the consumer registered for the error event of
      the stream *)
  error_listeners : nat;
  (** the cancel commands not answered yet, oldest first, each with
      whether it was sent by [pause] *)
  cancels : list bool;
  (** what the stream did to the outside, oldest first *)
  actions : list action
}.

Definition set_callback (v : bool) (s : rstream) : rstream :=
  {| params := params s; callback := v;
     shouldDebounceEmptyData := shouldDebounceEmptyData s;
     streaming := streaming s; pausing := pausing s; paused := paused s;
     stopping := stopping s; stopped := stopped s; trapped := trapped s;
     forcelyStop := forcelyStop s; currentSection := currentSection s;
     currentSectionPacket := currentSectionPacket s; debounces := debounces s;
     sectionPacketSendingTimeout := sectionPacketSendingTimeout s;
     close_listeners := close_listeners s;
     stream_listeners := stream_listeners s;
     trap_listeners := trap_listeners s; done_listeners := done_listeners s;
     error_listeners := error_listeners s; cancels := cancels s;
     actions := actions s |}.

Definition set_shouldDebounceEmptyData (v : bool) (s : rstream) : rstream :=
  {| params := params s; callback := callback s; shouldDebounceEmptyData := v;
     streaming := streaming s; pausing := pausing s; paused := paused s;
     stopping := stopping s; stopped := stopped s; trapped := trapped s;
     forcelyStop := forcelyStop s; currentSection := currentSection s;
     currentSectionPacket := currentSectionPacket s; debounces := debounces s;
     sectionPacketSendingTimeout := sectionPacketSendingTimeout s;
     close_listeners := close_listeners s;
     stream_listeners := stream_listeners s;
     trap_listeners := trap_listeners s; done_listeners := done_listeners s;
     error_listeners := error_listeners s; cancels := cancels s;
     actions := actions s |}.

Definition set_streaming (v : bool) (s : rstream) : rstream :=
  {| params := params s; callback := callback s;
     shouldDebounceEmptyData := shouldDebounceEmptyData s; streaming := v;
     pausing := pausing s; paused := paused s; stopping := stopping s;
     stopped := stopped s; trapped := trapped s; forcelyStop := forcelyStop s;
     currentSection := currentSection s;
     currentSectionPacket := currentSectionPacket s; debounces := debounces s;
     sectionPacketSendingTimeout := sectionPacketSendingTimeout s;
     close_listeners := close_listeners s;
     stream_listeners := stream_listeners s;
     trap_listeners := trap_listeners s; done_listeners := done_listeners s;
     error_listeners := error_listeners s; cancels := cancels s;
     actions := actions s |}.

Definition set_pausing (v : bool) (s : rstream) : rstream :=
  {| params := params s; callback := callback s;
     shouldDebounceEmptyData := shouldDebounceEmptyData s;
     streaming := streaming s; pausing := v; paused := paused s;
     stopping := stopping s; stopped := stopped s; trapped := trapped s;
     forcelyStop := forcelyStop s; currentSection := currentSection s;
     currentSectionPacket := currentSectionPacket s; debounces := debounces s;
     sectionPacketSendingTimeout := sectionPacketSendingTimeout s;
     close_listeners := close_listeners s;
     stream_listeners := stream_listeners s;
     trap_listeners := trap_listeners s; done_listeners := done_listeners s;
     error_listeners := error_listeners s; cancels := cancels s;
     actions := actions s |}.

Definition set_paused (v : bool) (s : rstream) : rstream :=
  {| params := params s; callback := callback s;
     shouldDebounceEmptyData := shouldDebounceEmptyData s;
     streaming := streaming s; pausing := pausing s; paused := v;
     stopping := stopping s; stopped := stopped s; trapped := trapped s;
     forcelyStop := forcelyStop s; currentSection := currentSection s;
     currentSectionPacket := currentSectionPacket s; debounces := debounces s;
     sectionPacketSendingTimeout := sectionPacketSendingTimeout s;
     close_listeners := close_listeners s;
     stream_listeners := stream_listeners s;
     trap_listeners := trap_listeners s; done_listeners := done_listeners s;
     error_listeners := error_listeners s; cancels := cancels s;
     actions := actions s |}.

Definition set_stopping (v : bool) (s : rstream) : rstream :=
  {| params := params s; callback := callback s;
     shouldDebounceEmptyData := shouldDebounceEmptyData s;
     streaming := streaming s; pausing := pausing s; paused := paused s;
     stopping := v; stopped := stopped s; trapped := trapped s;
     forcelyStop := forcelyStop s; currentSection := currentSection s;
     currentSectionPacket := currentSectionPacket s; debounces := debounces s;
     sectionPacketSendingTimeout := sectionPacketSendingTimeout s;
     close_listeners := close_listeners s;
     stream_listeners := stream_listeners s;
     trap_listeners := trap_listeners s; done_listeners := done_listeners s;
     error_listeners := error_listeners s; cancels := cancels s;
     actions := actions s |}.

Definition set_stopped (v : bool) (s : rstream) : rstream :=
  {| params := params s; callback := callback s;
     shouldDebounceEmptyData := shouldDebounceEmptyData s;
     streaming := streaming s; pausing := pausing s; paused := paused s;
     stopping := stopping s; stopped := v; trapped := trapped s;
     forcelyStop := forcelyStop s; currentSection := currentSection s;
     currentSectionPacket := currentSectionPacket s; debounces := debounces s;
     sectionPacketSendingTimeout := sectionPacketSendingTimeout s;
     close_listeners := close_listeners s;
     stream_listeners := stream_listeners s;
     trap_listeners := trap_listeners s; done_listeners := done_listeners s;
     error_listeners := error_listeners s; cancels := cancels s;
     actions := actions s |}.

Definition set_trapped (v : bool) (s : rstream) : rstream :=
  {| params := params s; callback := callback s;
     shouldDebounceEmptyData := shouldDebounceEmptyData s;
     streaming := streaming s; pausing := pausing s; paused := paused s;
     stopping := stopping s; stopped := stopped s; trapped := v;
     forcelyStop := forcelyStop s; currentSection := currentSection s;
     currentSectionPacket := currentSectionPacket s; debounces := debounces s;
     sectionPacketSendingTimeout := sectionPacketSendingTimeout s;
     close_listeners := close_listeners s;
     stream_listeners := stream_listeners s;
     trap_listeners := trap_listeners s; done_listeners := done_listeners s;
     error_listeners := error_listeners s; cancels := cancels s;
     actions := actions s |}.

Definition set_forcelyStop (v : bool) (s : rstream) : rstream :=
  {| params := params s; callback := callback s;
     shouldDebounceEmptyData := shouldDebounceEmptyData s;
     streaming := streaming s; pausing := pausing s; paused := paused s;
     stopping := stopping s; stopped := stopped s; trapped := trapped s;
     forcelyStop := v; currentSection := currentSection s;
     currentSectionPacket := currentSectionPacket s; debounces := debounces s;
     sectionPacketSendingTimeout := sectionPacketSendingTimeout s;
     close_listeners := close_listeners s;
     stream_listeners := stream_listeners s;
     trap_listeners := trap_listeners s; done_listeners := done_listeners s;
     error_listeners := error_listeners s; cancels := cancels s;
     actions := actions s |}.

Definition set_currentSection (v : option string) (s : rstream) : rstream :=
  {| params := params s; callback := callback s;
     shouldDebounceEmptyData := shouldDebounceEmptyData s;
     streaming := streaming s; pausing := pausing s; paused := paused s;
     stopping := stopping s; stopped := stopped s; trapped := trapped s;
     forcelyStop := forcelyStop s; currentSection := v;
     currentSectionPacket := currentSectionPacket s; debounces := debounces s;
     sectionPacketSendingTimeout := sectionPacketSendingTimeout s;
     close_listeners := close_listeners s;
     stream_listeners := stream_listeners s;
     trap_listeners := trap_listeners s; done_listeners := done_listeners s;
     error_listeners := error_listeners s; cancels := cancels s;
     actions := actions s |}.

Definition set_currentSectionPacket (v : list (gmap string string)) (s : rstream)
  : rstream :=
  {| params := params s; callback := callback s;
     shouldDebounceEmptyData := shouldDebounceEmptyData s;
     streaming := streaming s; pausing := pausing s; paused := paused s;
     stopping := stopping s; stopped := stopped s; trapped := trapped s;
     forcelyStop := forcelyStop s; currentSection := currentSection s;
     currentSectionPacket := v; debounces := debounces s;
     sectionPacketSendingTimeout := sectionPacketSendingTimeout s;
     close_listeners := close_listeners s;
     stream_listeners := stream_listeners s;
     trap_listeners := trap_listeners s; done_listeners := done_listeners s;
     error_listeners := error_listeners s; cancels := cancels s;
     actions := actions s |}.

Definition set_debounces (v : list debounce) (s : rstream) : rstream :=
  {| params := params s; callback := callback s;
     shouldDebounceEmptyData := shouldDebounceEmptyData s;
     streaming := streaming s; pausing := pausing s; paused := paused s;
     stopping := stopping s; stopped := stopped s; trapped := trapped s;
     forcelyStop := forcelyStop s; currentSection := currentSection s;
     currentSectionPacket := currentSectionPacket s; debounces := v;
     sectionPacketSendingTimeout := sectionPacketSendingTimeout s;
     close_listeners := close_listeners s;
     stream_listeners := stream_listeners s;
     trap_listeners := trap_listeners s; done_listeners := done_listeners s;
     error_listeners := error_listeners s; cancels := cancels s;
     actions := actions s |}.

Definition set_sectionPacketSendingTimeout (v : bool) (s : rstream)
  : rstream :=
  {| params := params s; callback := callback s;
     shouldDebounceEmptyData := shouldDebounceEmptyData s;
     streaming := streaming s; pausing := pausing s; paused := paused s;
     stopping := stopping s; stopped := stopped s; trapped := trapped s;
     forcelyStop := forcelyStop s; currentSection := currentSection s;
     currentSectionPacket := currentSectionPacket s; debounces := debounces s;
     sectionPacketSendingTimeout := v; close_listeners := close_listeners s;
     stream_listeners := stream_listeners s;
     trap_listeners := trap_listeners s; done_listeners := done_listeners s;
     error_listeners := error_listeners s; cancels := cancels s;
     actions := actions s |}.

Definition set_close_listeners (v : nat) (s : rstream) : rstream :=
  {| params := params s; callback := callback s;
     shouldDebounceEmptyData := shouldDebounceEmptyData s;
     streaming := streaming s; pausing := pausing s; paused := paused s;
     stopping := stopping s; stopped := stopped s; trapped := trapped s;
     forcelyStop := forcelyStop s; currentSection := currentSection s;
     currentSectionPacket := currentSectionPacket s; debounces := debounces s;
     sectionPacketSendingTimeout := sectionPacketSendingTimeout s;
     close_listeners := v; stream_listeners := stream_listeners s;
     trap_listeners := trap_listeners s; done_listeners := done_listeners s;
     error_listeners := error_listeners s; cancels := cancels s;
     actions := actions s |}.

Definition set_stream_listeners (v : nat) (s : rstream) : rstream :=
  {| params := params s; callback := callback s;
     shouldDebounceEmptyData := shouldDebounceEmptyData s;
     streaming := streaming s; pausing := pausing s; paused := paused s;
     stopping := stopping s; stopped := stopped s; trapped := trapped s;
     forcelyStop := forcelyStop s; currentSection := currentSection s;
     currentSectionPacket := currentSectionPacket s; debounces := debounces s;
     sectionPacketSendingTimeout := sectionPacketSendingTimeout s;
     close_listeners := close_listeners s; stream_listeners := v;
     trap_listeners := trap_listeners s; done_listeners := done_listeners s;
     error_listeners := error_listeners s; cancels := cancels s;
     actions := actions s |}.

Definition set_trap_listeners (v : nat) (s : rstream) : rstream :=
  {| params := params s; callback := callback s;
     shouldDebounceEmptyData := shouldDebounceEmptyData s;
     streaming := streaming s; pausing := pausing s; paused := paused s;
     stopping := stopping s; stopped := stopped s; trapped := trapped s;
     forcelyStop := forcelyStop s; currentSection := currentSection s;
     currentSectionPacket := currentSectionPacket s; debounces := debounces s;
     sectionPacketSendingTimeout := sectionPacketSendingTimeout s;
     close_listeners := close_listeners s;
     stream_listeners := stream_listeners s; trap_listeners := v;
     done_listeners := done_listeners s; error_listeners := error_listeners s;
     cancels := cancels s; actions := actions s |}.

Definition set_done_listeners (v : nat) (s : rstream) : rstream :=
  {| params := params s; callback := callback s;
     shouldDebounceEmptyData := shouldDebounceEmptyData s;
     streaming := streaming s; pausing := pausing s; paused := paused s;
     stopping := stopping s; stopped := stopped s; trapped := trapped s;
     forcelyStop := forcelyStop s; currentSection := currentSection s;
     currentSectionPacket := currentSectionPacket s; debounces := debounces s;
     sectionPacketSendingTimeout := sectionPacketSendingTimeout s;
     close_listeners := close_listeners s;
     stream_listeners := stream_listeners s;
     trap_listeners := trap_listeners s; done_listeners := v;
     error_listeners := error_listeners s; cancels := cancels s;
     actions := actions s |}.

Definition set_error_listeners (v : nat) (s : rstream) : rstream :=
  {| params := params s; callback := callback s;
     shouldDebounceEmptyData := shouldDebounceEmptyData s;
     streaming := streaming s; pausing := pausing s; paused := paused s;
     stopping := stopping s; stopped := stopped s; trapped := trapped s;
     forcelyStop := forcelyStop s; currentSection := currentSection s;
     currentSectionPacket := currentSectionPacket s; debounces := debounces s;
     sectionPacketSendingTimeout := sectionPacketSendingTimeout s;
     close_listeners := close_listeners s;
     stream_listeners := stream_listeners s;
     trap_listeners := trap_listeners s; done_listeners := done_listeners s;
     error_listeners := v; cancels := cancels s; actions := actions s |}.

Definition set_cancels (v : list bool) (s : rstream) : rstream :=
  {| params := params s; callback := callback s;
     shouldDebounceEmptyData := shouldDebounceEmptyData s;
     streaming := streaming s; pausing := pausing s; paused := paused s;
     stopping := stopping s; stopped := stopped s; trapped := trapped s;
     forcelyStop := forcelyStop s; currentSection := currentSection s;
     currentSectionPacket := currentSectionPacket s; debounces := debounces s;
     sectionPacketSendingTimeout := sectionPacketSendingTimeout s;
     close_listeners := close_listeners s;
     stream_listeners := stream_listeners s;
     trap_listeners := trap_listeners s; done_listeners := done_listeners s;
     error_listeners := error_listeners s; cancels := v;
     actions := actions s |}.

Definition set_actions (v : list action) (s : rstream) : rstream :=
  {| params := params s; callback := callback s;
     shouldDebounceEmptyData := shouldDebounceEmptyData s;
     streaming := streaming s; pausing := pausing s; paused := paused s;
     stopping := stopping s; stopped := stopped s; trapped := trapped s;
     forcelyStop := forcelyStop s; currentSection := currentSection s;
     currentSectionPacket := currentSectionPacket s; debounces := debounces s;
     sectionPacketSendingTimeout := sectionPacketSendingTimeout s;
     close_listeners := close_listeners s;
     stream_listeners := stream_listeners s;
     trap_listeners := trap_listeners s; done_listeners := done_listeners s;
     error_listeners := error_listeners s; cancels := cancels s;
     actions := v |}.

(** What a method returning a promise returns: a resolved promise, a
    rejected one, or the promise of the cancel command it sent, with the
    continuation of [pause] chained or not. *)
Inductive promise :=
  | Resolved
  | Rejected (errno : string)
  | AwaitCancel (then_pause : bool).

Definition act (a : action) (s : rstream) : rstream :=
  set_actions (actions s ++ [a]) s.

(** [new RStream(channel, params, callback)] *)
Definition new (params : list string) (callback : bool) : rstream :=
  {| params := params; callback := callback;
     shouldDebounceEmptyData := false; streaming := true; pausing := false;
     paused := false; stopping := false; stopped := false; trapped := false;
     forcelyStop := false; currentSection := None;
     currentSectionPacket := []; debounces := [];
     sectionPacketSendingTimeout := false; close_listeners := 0;
     stream_listeners := 0; trap_listeners := 0; done_listeners := 0;
     error_listeners := 0; cancels := []; actions := [] |}.

(** [run()] and [cancel()] of the current debounce object, if there is
    one. *)
Definition set_last_pending (b : bool) (ds : list debounce) : list debounce :=
  match reverse ds with
  | [] => []
  | d :: rest => reverse rest ++ [{| timeout := timeout d; pending := b |}]
  end.

Definition debounce_run (s : rstream) : rstream :=
  set_debounces (set_last_pending true (debounces s)) s.

Definition debounce_cancel (s : rstream) : rstream :=
  set_debounces (set_last_pending false (debounces s)) s.

(** [packet['.section']], when it is truthy. *)
Definition section_of (p : payload) : option string :=
  match p with
  | PRecord r =>
      match r !! ".section" with
      | Some sec => if decide (sec = "") then None else Some sec
      | None => None
      end
  | PArray _ => None
  end.

(** [sendData] of [onStream] *)
Definition sendData (s : rstream) : rstream :=
  let s := act (Callback None (Some (PArray (currentSectionPacket s)))) s in
  set_currentSectionPacket [] s.

(** [onStream(packet)] *)
Definition onStream (packet : payload) (s : rstream) : rstream :=
  let s := act (Emit "data" (Some packet)) s in
  if callback s then
    match section_of packet with
    | Some sec =>
        let s := set_sectionPacketSendingTimeout true s in
        let s :=
          if (0 <? length (currentSectionPacket s))%nat
             && negb (bool_decide (Some sec = currentSection s))
          then sendData (set_sectionPacketSendingTimeout false s)
          else s in
        let s := set_currentSection (Some sec) s in
        set_currentSectionPacket
          (currentSectionPacket s
           ++ match packet with PRecord r => [r] | PArray _ => [] end) s
    | None => act (Callback None (Some packet)) s
    end
  else s.

(** The close listener [start] registers on the channel. *)
Definition on_channel_close (s : rstream) : rstream :=
  let s :=
    if forcelyStop s || (negb (pausing s) && negb (paused s)) then
      let s := if negb (trapped s) then act (Emit "done" None) s else s in
      act (Emit "close" None) s
    else s in
  set_stopped false s.

(** The stream listener [start] registers on the channel. *)
Definition on_channel_stream (packet : gmap string string) (s : rstream)
  : rstream :=
  onStream (PRecord packet) (debounce_run s).

(** [this.channel.close(true)]: the close listeners run, then all the
    listeners of the channel are removed. *)
Definition channel_close_forced (s : rstream) : rstream :=
  let s := act (ChannelClose true) s in
  let s := Nat.iter (close_listeners s) on_channel_close s in
  set_close_listeners 0
    (set_stream_listeners 0 (set_trap_listeners 0 (set_done_listeners 0 s))).

(** [onTrap(data)], and whether it returns or throws: an error event
    without a listener is thrown by [emit], and the trap event is not
    emitted then. *)
Definition onTrap (data : gmap string string) (s : rstream)
  : rstream * Channel.completion :=
  if decide (data !! "message" = Some "interrupted") then
    (set_streaming false s, Channel.Normal)
  else
    let s := set_stopped true s in
    let s := set_trapped true s in
    if callback s then
      let s :=
        act (Callback (Some (default "" (data !! "message"))) None) s in
      (act (Emit "trap" (Some (PRecord data))) s, Channel.Normal)
    else
      let s := act (Emit "error" (Some (PRecord data))) s in
      match error_listeners s with
      | O => (act Throws s, Channel.Throw "ERR_UNHANDLED_ERROR")
      | S _ => (act (Emit "trap" (Some (PRecord data))) s, Channel.Normal)
      end.

(** The trap event of the channel: the listeners [start] registered with
    [once] are called one after the other, each removed before it is
    called; an exception ends the calls, and the listeners not called
    stay registered. *)
Fixpoint on_channel_trap (n : nat) (data : gmap string string)
    (s : rstream) : rstream :=
  match n with
  | O => s
  | S n' =>
      match onTrap data
              (set_trap_listeners (Nat.pred (trap_listeners s)) s) with
      | (s', Channel.Normal) => on_channel_trap n' data s'
      | (s', Channel.Throw _) => s'
      end
  end.

(** [onDone()] *)
Definition onDone (s : rstream) : rstream :=
  if stopped s then channel_close_forced s else s.

(** [stop(pausing)] *)
Definition stop (pausing_arg : bool) (s : rstream) : rstream * promise :=
  if stopped s || stopping s then (s, Resolved)
  else
    let s := if negb pausing_arg then set_forcelyStop true s else s in
    if paused s then
      let s := set_streaming false s in
      let s := set_stopping false s in
      let s := set_stopped true s in
      (channel_close_forced s, Resolved)
    else
      let s := if negb (pausing s) then set_stopping true s else s in
      let s := debounce_cancel s in
      let s := act Cancel s in
      (set_cancels (cancels s ++ [pausing_arg]) s, AwaitCancel pausing_arg).

(** The continuation of [stop] when the cancel command is done, and that
    of [pause] after it. *)
Definition stop_then (s : rstream) : rstream :=
  let s := set_streaming false s in
  let s :=
    if negb (pausing s) then set_stopped true (set_stopping false s)
    else s in
  act (Emit "stopped" None) s.

Definition pause_then (s : rstream) : rstream :=
  set_paused true (set_pausing false s).

(** [close()] *)
Definition close (s : rstream) : rstream * promise := stop false s.

(** [pause()] *)
Definition pause (s : rstream) : rstream * promise :=
  if stopped s || stopping s then (s, Rejected "STREAMCLOSD")
  else if pausing s || paused s then (s, Resolved)
  else if streaming s then stop true (set_pausing true s)
  else (s, Resolved).

(** The delay [prepareDebounceEmptyData] computes from the parameters:
    the number after [=interval=] in seconds, or 2 seconds, and 300 ms. *)
Definition debounce_timeout (params : list string) : option Z :=
  let intervalParam :=
    List.find (fun param => JSString.includes "=interval=" param) params in
  let interval :=
    match intervalParam with
    | Some param =>
        let val := default "undefined" (JSString.split "=" param !! 2%nat) in
        (fun n => n * 1000) <$> JSString.parseInt val
    | None => Some 2000
    end in
  (fun n => n + 300) <$> interval.

(** [prepareDebounceEmptyData()] *)
Definition prepareDebounceEmptyData (s : rstream) : rstream :=
  let s := set_shouldDebounceEmptyData true s in
  set_debounces
    (debounces s
     ++ [{| timeout := debounce_timeout (params s); pending := false |}])
    s.

(** [start()] *)
Definition start (s : rstream) : rstream :=
  if negb (stopped s) && negb (stopping s) then
    let s := set_close_listeners (S (close_listeners s)) s in
    let s := set_stream_listeners (S (stream_listeners s)) s in
    let s := set_trap_listeners (S (trap_listeners s)) s in
    let s := set_done_listeners (S (done_listeners s)) s in
    let s := act (ChannelWrite (params s)) s in
    let s := act (Emit "started" None) s in
    if shouldDebounceEmptyData s then prepareDebounceEmptyData s else s
  else s.

(** [resume()] *)
Definition resume (s : rstream) : rstream * promise :=
  if stopped s || stopping s then (s, Rejected "STREAMCLOSD")
  else if negb (streaming s) then
    (set_streaming true (start (set_pausing false s)), Resolved)
  else (s, Resolved).

(** The callback of the debounce object: the test of the four flags, the
    synthetic empty data, and the timer set again. *)
Definition debounce_callback (s : rstream) : rstream :=
  if negb (stopped s) || negb (stopping s) || negb (paused s)
     || negb (pausing s)
  then debounce_run (onStream (PArray []) s)
  else s.

(** What happens to a stream: the calls of its methods, the consumer
    registering a listener for its error event, the events of its
    channel, the answer to a cancel command, and its timers firing. *)
Inductive event :=
  | CallResume
  | CallPause
  | CallStop
  | CallClose
  | CallOnError
  | ChannelStream (packet : gmap string string)
  | ChannelTrap (data : gmap string string)
  | ChannelDone
  | ChannelClosed
  | CancelSettled (ok : bool)
  | DebounceFires (i : nat)
  | SectionTimerFires.

Definition step (e : event) (s : rstream) : rstream :=
  match e with
  | CallResume => (resume s).1
  | CallPause => (pause s).1
  | CallStop => (stop false s).1
  | CallClose => (close s).1
  | CallOnError => set_error_listeners (S (error_listeners s)) s
  | ChannelStream packet =>
      Nat.iter (stream_listeners s) (on_channel_stream packet) s
  | ChannelTrap data => on_channel_trap (trap_listeners s) data s
  | ChannelDone =>
      Nat.iter (done_listeners s) onDone (set_done_listeners 0 s)
  | ChannelClosed => Nat.iter (close_listeners s) on_channel_close s
  | CancelSettled ok =>
      match cancels s with
      | [] => s
      | then_pause :: rest =>
          let s := set_cancels rest s in
          if ok then
            let s := stop_then s in
            if then_pause then pause_then s else s
          else s
      end
  | DebounceFires i =>
      match debounces s !! i with
      | Some d =>
          if pending d then
            debounce_callback
              (set_debounces
                 (<[i := {| timeout := timeout d; pending := false |}]>
                    (debounces s)) s)
          else s
      | None => s
      end
  | SectionTimerFires =>
      if sectionPacketSendingTimeout s
      then sendData (set_sectionPacketSendingTimeout false s)
      else s
  end.

Definition run (es : list event) (s : rstream) : rstream :=
  fold_left (fun s e => step e s) es s.

(** The stream as [RouterOSAPI.stream] hands it out: constructed, started,
    and with the empty-data debouncing prepared. *)
Definition streamed (params : list string) (callback : bool) : rstream :=
  prepareDebounceEmptyData (start (new params callback)).

(** The stream as [RouterOSAPI.writeStream] hands it out. *)
Definition write_streamed (params : list string) : rstream :=
  start (new params false).



(** The synthetic empty data handed to the consumer. *)
Definition is_synthetic (a : action) : bool :=
  match a with
  | Callback None (Some (PArray [])) => true
  | Emit name (Some (PArray [])) => bool_decide (name = "data")
  | _ => false
  end.

(** Whether a callback is set, and the flags that decide what [pause],
    [resume] and [stop] do. *)
Definition control (s : rstream) : bool * bool * bool * bool :=
  (callback s, pausing s, paused s, stopping s).

(** A stream that is not stopping and pausing at once. *)
Definition exclusive (s : rstream) : Prop :=
  stopping s && pausing s = false.

(** The arrays of fragments the callback was handed, oldest first. *)
Definition delivered (s : rstream) : list (list (gmap string string)) :=
  omap (fun a => match a with
                 | Callback None (Some (PArray l)) => Some l
                 | _ => None
                 end) (actions s).

(** A fragment of the section [sec]. *)
Definition in_section (sec : string) (r : gmap string string) : Prop :=
  r !! ".section" = Some sec.

(** The events of a reply in sections: a fragment arrives, or the timer
    of the section fires. *)
Definition sectioned (e : event) : Prop :=
  match e with
  | ChannelStream packet => is_Some (section_of (PRecord packet))
  | SectionTimerFires => True
  | _ => False
  end.

(** The fragments of a sequence of events, in order. *)
Definition fragments (es : list event) : list (gmap string string) :=
  omap (fun e => match e with
                 | ChannelStream packet => Some packet
                 | _ => None
                 end) es.

(** What the grouping by section keeps: the callback is set, the stream
    listener is registered once, the fragments seen are the ones handed
    over followed by the ones held back, every array handed over is a
    non-empty group of one section, the fragments held back belong to the
    current section, and the timer is only pending while fragments are
    held back. *)
Definition grouping (seen : list (gmap string string)) (s : rstream)
  : Prop :=
  callback s = true /\ stream_listeners s = 1%nat
  /\ concat (delivered s) ++ currentSectionPacket s = seen
  /\ Forall (fun l => l <> []
                      /\ exists sec, sec <> "" /\ Forall (in_section sec) l)
       (delivered s)
  /\ (currentSectionPacket s <> [] ->
      exists sec, currentSection s = Some sec /\ sec <> ""
                  /\ Forall (in_section sec) (currentSectionPacket s))
  /\ (sectionPacketSendingTimeout s = true -> currentSectionPacket s <> []).

(** What one call of the stream listener does to the outside for a
    sentence that is not part of a section. *)
Definition handed_over (packet : gmap string string) (cb : bool)
  : list action :=
  Emit "data" (Some (PRecord packet))
  :: (if cb then [Callback None (Some (PRecord packet))] else []).

End RStream.

(** ** MD5 (RFC 1321), the hash [crypto.createHash('MD5')] computes *)

Module MD5.

Definition K : list Z :=
  [0xd76aa478; 0xe8c7b756; 0x242070db; 0xc1bdceee;
   0xf57c0faf; 0x4787c62a; 0xa8304613; 0xfd469501;
   0x698098d8; 0x8b44f7af; 0xffff5bb1; 0x895cd7be;
   0x6b901122; 0xfd987193; 0xa679438e; 0x49b40821;
   0xf61e2562; 0xc040b340; 0x265e5a51; 0xe9b6c7aa;
   0xd62f105d; 0x02441453; 0xd8a1e681; 0xe7d3fbc8;
   0x21e1cde6; 0xc33707d6; 0xf4d50d87; 0x455a14ed;
   0xa9e3e905; 0xfcefa3f8; 0x676f02d9; 0x8d2a4c8a;
   0xfffa3942; 0x8771f681; 0x6d9d6122; 0xfde5380c;
   0xa4beea44; 0x4bdecfa9; 0xf6bb4b60; 0xbebfbc70;
   0x289b7ec6; 0xeaa127fa; 0xd4ef3085; 0x04881d05;
   0xd9d4d039; 0xe6db99e5; 0x1fa27cf8; 0xc4ac5665;
   0xf4292244; 0x432aff97; 0xab9423a7; 0xfc93a039;
   0x655b59c3; 0x8f0ccc92; 0xffeff47d; 0x85845dd1;
   0x6fa87e4f; 0xfe2ce6e0; 0xa3014314; 0x4e0811a1;
   0xf7537e82; 0xbd3af235; 0x2ad7d2bb; 0xeb86d391].

Definition shifts : list Z :=
  [7; 12; 17; 22; 7; 12; 17; 22; 7; 12; 17; 22; 7; 12; 17; 22;
   5; 9; 14; 20; 5; 9; 14; 20; 5; 9; 14; 20; 5; 9; 14; 20;
   4; 11; 16; 23; 4; 11; 16; 23; 4; 11; 16; 23; 4; 11; 16; 23;
   6; 10; 15; 21; 6; 10; 15; 21; 6; 10; 15; 21; 6; 10; 15; 21].

Definition add32 (a b : Z) : Z := (a + b) mod 2 ^ 32.

Definition not32 (a : Z) : Z := Z.lxor a 0xFFFFFFFF.

Definition rotl32 (x c : Z) : Z :=
  Z.lor (Z.shiftl x c mod 2 ^ 32) (Z.shiftr x (32 - c)).

(** The [n] low bytes of [v], least significant first. *)
Fixpoint le_bytes (n : nat) (v : Z) : list Z :=
  match n with
  | O => []
  | S n' => v mod 256 :: le_bytes n' (v / 256)
  end.

(** The number little-endian bytes denote. *)
Fixpoint le_value (bs : list Z) : Z :=
  match bs with
  | [] => 0
  | b :: bs' => b + 256 * le_value bs'
  end.

(** The message, the byte 0x80, zero bytes up to 56 modulo 64, and the
    length of the message in bits. *)
Definition pad (msg : list Z) : list Z :=
  let len := Z.of_nat (length msg) in
  msg ++ [0x80] ++ replicate (Z.to_nat ((55 - len) mod 64)) 0
      ++ le_bytes 8 (8 * len).

(** A list cut into pieces of [n] elements; [fuel] bounds the number of
    pieces. *)
Fixpoint chunks {A} (fuel n : nat) (l : list A) : list (list A) :=
  match fuel, l with
  | O, _ | _, [] => []
  | S fuel', _ => take n l :: chunks fuel' n (drop n l)
  end.

Definition state : Type := Z * Z * Z * Z.

(** Operation [i] of the 64 of a block, on the words [M] of the block. *)
Definition operation (M : list Z) (st : state) (i : nat) : state :=
  let '(a, b, c, d) := st in
  let '(f, g) :=
    if (i <? 16)%nat then
      (Z.lor (Z.land b c) (Z.land (not32 b) d), i)
    else if (i <? 32)%nat then
      (Z.lor (Z.land d b) (Z.land (not32 d) c), ((5 * i + 1) mod 16)%nat)
    else if (i <? 48)%nat then
      (Z.lxor (Z.lxor b c) d, ((3 * i + 5) mod 16)%nat)
    else
      (Z.lxor c (Z.lor b (not32 d)), ((7 * i) mod 16)%nat) in
  let f := add32 (add32 (add32 f a) (K !!! i)) (M !!! g) in
  (d, add32 b (rotl32 f (shifts !!! i)), b, c).

Definition block (st : state) (bytes : list Z) : state :=
  let M := map le_value (chunks 16 4 bytes) in
  let '(a0, b0, c0, d0) := st in
  let '(a, b, c, d) := fold_left (operation M) (seq 0 64) st in
  (add32 a0 a, add32 b0 b, add32 c0 c, add32 d0 d).

(** The digest: 16 bytes. *)
Definition digest (msg : list Z) : list Z :=
  let padded := pad msg in
  let '(a, b, c, d) :=
    fold_left block (chunks (length padded) 64 padded)
      (0x67452301, 0xefcdab89, 0x98badcfe, 0x10325476) in
  le_bytes 4 a ++ le_bytes 4 b ++ le_bytes 4 c ++ le_bytes 4 d.

End MD5.

(** ** Connector (connector/Connector.js) *)

Module Connector.

(** The [tls] option: undefined, a boolean, [null], or an object of TLS
    options. *)
Inductive tls_option :=
  | TlsUndefined
  | TlsBoolean (b : bool)
  | TlsNull
  | TlsObject.

(** The options the constructor reads; [None] is undefined. *)
Record options := {
  o_host : string;
  o_port : option Z;
  o_timeout : option Z;
  o_tls : tls_option
}.

(** Whether a number option is truthy: defined and not zero. *)
Definition truthy (n : option Z) : bool :=
  match n with
  | Some n => negb (n =? 0)
  | None => false
  end.

(** The events a connector emits. *)
Inductive event := EvError | EvTimeout | EvClose | EvConnected.

#[global] Instance event_eq_dec : EqDecision event.
Proof. solve_decision. Defined.

Section WithListeners.

(** The listeners are closures of the owner of the connector; each is
    registered with [once]. *)
Context {L : Type} `{EqDecision L}.

Record connector := {
  host : string;
  port : option Z;
  timeout : option Z;
  tls : tls_option;
  connected : bool;
  connecting : bool;
  closing : bool;
  (** the transmitter and, in it, the socket; [None] before [connect()] *)
  transmitter : option Transmitter.transmitter;
  (** the listeners, in registration order *)
  listeners : list (event * L)
}.

(** [new Connector(options)] *)
Definition new (options : options) : connector :=
  let port1 := if truthy (o_port options) then o_port options else None in
  let tls1 :=
    match o_tls options with
    | TlsBoolean true => TlsObject
    | other => other
    end in
  let is_object :=
    match tls1 with TlsObject | TlsNull => true | _ => false end in
  {| host := o_host options;
     port := if is_object && negb (truthy (o_port options))
             then Some 8729 else port1;
     timeout := if truthy (o_timeout options) then o_timeout options
                else None;
     tls := if is_object then tls1 else TlsUndefined;
     connected := false; connecting := false; closing := false;
     transmitter := None; listeners := [] |}.

Definition set_listeners (ls : list (event * L)) (c : connector)
  : connector :=
  {| host := host c; port := port c; timeout := timeout c; tls := tls c;
     connected := connected c; connecting := connecting c;
     closing := closing c; transmitter := transmitter c; listeners := ls |}.

(** [once(event, listener)] *)
Definition once (ev : event) (l : L) (c : connector) : connector :=
  set_listeners (listeners c ++ [(ev, l)]) c.

(** Removing the first registration equal to a given one. *)
Fixpoint remove_first (r : event * L) (ls : list (event * L))
  : list (event * L) :=
  match ls with
  | [] => []
  | r' :: ls' => if decide (r' = r) then ls' else r' :: remove_first r ls'
  end.

(** [removeListener(event, listener)]: the registration added last goes. *)
Definition removeListener (ev : event) (l : L) (c : connector) : connector :=
  set_listeners (reverse (remove_first (ev, l) (reverse (listeners c)))) c.

(** [connect()]: the socket is created, with its transmitter, and asked
    to connect. *)
Definition connect (c : connector) : connector :=
  if negb (connected c) && negb (connecting c) then
    {| host := host c; port := port c; timeout := timeout c; tls := tls c;
       connected := connected c; connecting := true; closing := closing c;
       transmitter := Some (Transmitter.new Transmitter.connecting_socket);
       listeners := listeners c |}
  else c.

(** [close()]: [socket.end()], once. *)
Definition close (c : connector) : connector :=
  {| host := host c; port := port c; timeout := timeout c; tls := tls c;
     connected := connected c; connecting := connecting c;
     closing := true; transmitter := transmitter c;
     listeners := listeners c |}.

(** [destroy()]: [socket.destroy()] and [removeAllListeners()]. *)
Definition destroy (c : connector) : connector :=
  {| host := host c; port := port c; timeout := timeout c; tls := tls c;
     connected := connected c; connecting := connecting c;
     closing := closing c;
     transmitter :=
       (fun tr => {| Transmitter.pool := Transmitter.pool tr;
                     Transmitter.socket :=
                       Transmitter.socket_destroy (Transmitter.socket tr) |})
       <$> transmitter c;
     listeners := [] |}.

(** Whether the socket of the connector was destroyed. *)
Definition destroyed (c : connector) : bool :=
  match transmitter c with
  | Some tr => Transmitter.sock_destroyed (Transmitter.socket tr)
  | None => false
  end.

(** [onConnect()], up to its emit: the flags, and the pool is run. *)
Definition onConnect (c : connector) : connector :=
  {| host := host c; port := port c; timeout := timeout c; tls := tls c;
     connected := true; connecting := false; closing := closing c;
     transmitter := Transmitter.runPool <$> transmitter c;
     listeners := listeners c |}.

End WithListeners.

Arguments connector : clear implicits.

Section WithEncoding.

Context {L : Type}.

(** [iconv.encode(str, 'win1252')], as for the transmitter. *)
Variable iconv_encode : string -> list Z.

Definition set_transmitter (tr : Transmitter.transmitter) (c : connector L)
  : connector L :=
  {| host := host c; port := port c; timeout := timeout c; tls := tls c;
     connected := connected c; connecting := connecting c;
     closing := closing c; transmitter := Some tr;
     listeners := listeners c |}.

(** [write(data)]: every word of the sentence is written, then [null];
    before [connect()] there is no transmitter, and the call throws. *)
Definition write (data : list string) (c : connector L)
  : option (connector L) :=
  tr ← transmitter c;
  tr ← Transmitter.writes iconv_encode (Some <$> data) tr;
  tr ← Transmitter.write iconv_encode None tr;
  Some (set_transmitter tr c).

(** Several sentences written one after the other. *)
Fixpoint write_all (sentences : list (list string)) (c : connector L)
  : option (connector L) :=
  match sentences with
  | [] => Some c
  | data :: rest => c' ← write data c; write_all rest c'
  end.

(** [this.transmitter.write(w)], the call [write] makes for every word
    of a sentence and for its end. *)
Definition transmit (w : option string) (c : connector L)
  : option (connector L) :=
  tr ← transmitter c;
  tr ← Transmitter.write iconv_encode w tr;
  Some (set_transmitter tr c).

(** The socket changes its [writable] flag. *)
Definition socket_writable (b : bool) (c : connector L) : connector L :=
  {| host := host c; port := port c; timeout := timeout c; tls := tls c;
     connected := connected c; connecting := connecting c;
     closing := closing c;
     transmitter :=
       (fun tr => {| Transmitter.pool := Transmitter.pool tr;
                     Transmitter.socket :=
                       Transmitter.socket_set_writable b
                         (Transmitter.socket tr) |})
       <$> transmitter c;
     listeners := listeners c |}.

(** What happens to the transmitter of a connector: a word is written,
    the socket changes its [writable] flag, and the connect event of the
    socket, which is writable then and calls [onConnect]. *)
Inductive io :=
  | Transmit (w : option string)
  | SocketWritable (b : bool)
  | SocketConnects.

Definition io_step (e : io) (c : connector L) : option (connector L) :=
  match e with
  | Transmit w => transmit w c
  | SocketWritable b => Some (socket_writable b c)
  | SocketConnects => Some (onConnect (socket_writable true c))
  end.

Fixpoint io_run (es : list io) (c : connector L) : option (connector L) :=
  match es with
  | [] => Some c
  | e :: es' => c' ← io_step e c; io_run es' c'
  end.

(** The words of the [write] calls of a trace, in call order. *)
Definition written_words (es : list io) : list (option string) :=
  omap (fun e => match e with Transmit w => Some w | _ => None end) es.

(** The bytes [encodeString] gives for a word. *)
Definition word_bytes (w : option string) : list Z :=
  default [] (Transmitter.encodeString iconv_encode w).

(** The bytes of a sentence: its words, then the terminator. *)
Definition sentence_bytes (data : list string) : list Z :=
  concat (map (fun w => word_bytes (Some w)) data) ++ word_bytes None.

(** The bytes handed to the socket so far, and the pool. *)
Definition sent (c : connector L) : list Z :=
  match transmitter c with
  | Some tr => Transmitter.sent (Transmitter.socket tr)
  | None => []
  end.

Definition pooled (c : connector L) : list (list Z) :=
  match transmitter c with
  | Some tr => Transmitter.pool tr
  | None => []
  end.

End WithEncoding.

End Connector.

(** ** Session (RouterOSAPI.js) *)

Module RouterOSAPI.

(** The options of the constructor. *)
Record options := {
  o_host : string;
  o_user : string;
  o_password : string;
  o_port : option Z;
  o_timeout : option Z;
  o_tls : Connector.tls_option;
  o_keepalive : bool
}.

(** The closures [connect] and [close] register on the connector:
    [endListener]; the close listener of [connect], which emits close and
    calls [endListener]; the connected listener, which logs in;
    [connectedErrorListener]; and the close listener of [close]. *)
Inductive listener :=
  | EndListener
  | CloseListener
  | LoginOnConnected
  | ConnectedErrorListener
  | CloseDestroy.

#[global] Instance listener_eq_dec : EqDecision listener.
Proof. solve_decision. Defined.

(** What a listener of the consumer does when it is called: the methods
    of the session it calls, in order. *)
Inductive call :=
  | DoConnect
  | DoClose
  | DoWrite.

Record session := {
  host : string;
  user : string;
  password : string;
  port : Z;
  timeout : Z;
  tls : Connector.tls_option;
  keepalive : bool;
  connected : bool;
  connecting : bool;
  closing : bool;
  channelsOpen : Z;
  (** [this.connector], an index into [heap]; [None] is undefined or null *)
  connector : option nat;
  (** every connector constructed so far, oldest first *)
  heap : list (Connector.connector listener);
  (** the calls of [login] not settled yet *)
  logins : nat;
  (** the listeners the consumer registered with [on] for the events of
      the session, in registration order *)
  listeners : list (string * list call);
  (** the events the session emitted, oldest first *)
  emitted : list string;
  (** whether an exception went uncaught: Node ends the process *)
  crashed : bool
}.

(** [new RouterOSAPI(options)], that is [setOptions(options)]. *)
Definition new (options : options) : session :=
  {| host := o_host options; user := o_user options;
     password := o_password options;
     port := if Connector.truthy (o_port options)
             then default 8728 (o_port options) else 8728;
     timeout := if Connector.truthy (o_timeout options)
                then default 10 (o_timeout options) else 10;
     tls := o_tls options; keepalive := o_keepalive options;
     connected := false; connecting := false; closing := false;
     channelsOpen := 0; connector := None; heap := []; logins := 0;
     listeners := []; emitted := []; crashed := false |}.

(** The options [connect] passes to the constructor of the connector. *)
Definition connector_options (s : session) : Connector.options :=
  {| Connector.o_host := host s; Connector.o_port := Some (port s);
     Connector.o_timeout := Some (timeout s); Connector.o_tls := tls s |}.

Definition set_flags (connected' connecting' closing' : bool) (s : session)
  : session :=
  {| host := host s; user := user s; password := password s; port := port s;
     timeout := timeout s; tls := tls s; keepalive := keepalive s;
     connected := connected'; connecting := connecting';
     closing := closing'; channelsOpen := channelsOpen s;
     connector := connector s; heap := heap s; logins := logins s;
     listeners := listeners s; emitted := emitted s;
     crashed := crashed s |}.

Definition set_connector (c : option nat) (s : session) : session :=
  {| host := host s; user := user s; password := password s; port := port s;
     timeout := timeout s; tls := tls s; keepalive := keepalive s;
     connected := connected s; connecting := connecting s;
     closing := closing s; channelsOpen := channelsOpen s;
     connector := c; heap := heap s; logins := logins s;
     listeners := listeners s; emitted := emitted s;
     crashed := crashed s |}.

Definition set_heap (h : list (Connector.connector listener)) (s : session)
  : session :=
  {| host := host s; user := user s; password := password s; port := port s;
     timeout := timeout s; tls := tls s; keepalive := keepalive s;
     connected := connected s; connecting := connecting s;
     closing := closing s; channelsOpen := channelsOpen s;
     connector := connector s; heap := h; logins := logins s;
     listeners := listeners s; emitted := emitted s;
     crashed := crashed s |}.

Definition set_logins (n : nat) (s : session) : session :=
  {| host := host s; user := user s; password := password s; port := port s;
     timeout := timeout s; tls := tls s; keepalive := keepalive s;
     connected := connected s; connecting := connecting s;
     closing := closing s; channelsOpen := channelsOpen s;
     connector := connector s; heap := heap s; logins := n;
     listeners := listeners s; emitted := emitted s;
     crashed := crashed s |}.

Definition set_channelsOpen (n : Z) (s : session) : session :=
  {| host := host s; user := user s; password := password s; port := port s;
     timeout := timeout s; tls := tls s; keepalive := keepalive s;
     connected := connected s; connecting := connecting s;
     closing := closing s; channelsOpen := n;
     connector := connector s; heap := heap s; logins := logins s;
     listeners := listeners s; emitted := emitted s;
     crashed := crashed s |}.

Definition set_listeners (ls : list (string * list call)) (s : session)
  : session :=
  {| host := host s; user := user s; password := password s; port := port s;
     timeout := timeout s; tls := tls s; keepalive := keepalive s;
     connected := connected s; connecting := connecting s;
     closing := closing s; channelsOpen := channelsOpen s;
     connector := connector s; heap := heap s; logins := logins s;
     listeners := ls; emitted := emitted s; crashed := crashed s |}.

Definition set_emitted (names : list string) (s : session) : session :=
  {| host := host s; user := user s; password := password s; port := port s;
     timeout := timeout s; tls := tls s; keepalive := keepalive s;
     connected := connected s; connecting := connecting s;
     closing := closing s; channelsOpen := channelsOpen s;
     connector := connector s; heap := heap s; logins := logins s;
     listeners := listeners s; emitted := names; crashed := crashed s |}.

(** An exception nobody catches. *)
Definition crash (s : session) : session :=
  {| host := host s; user := user s; password := password s; port := port s;
     timeout := timeout s; tls := tls s; keepalive := keepalive s;
     connected := connected s; connecting := connecting s;
     closing := closing s; channelsOpen := channelsOpen s;
     connector := connector s; heap := heap s; logins := logins s;
     listeners := listeners s; emitted := emitted s;
     crashed := true |}.

(** A method of the connector at index [i] of the heap. *)
Definition on_connector (i : nat)
    (f : Connector.connector listener -> Connector.connector listener)
    (s : session) : session :=
  set_heap (alter f i (heap s)) s.

(** [this.connector.destroy()]; on [null] it throws a TypeError, which
    is [None]. *)
Definition destroy_current (s : session) : option session :=
  match connector s with
  | Some i => Some (on_connector i Connector.destroy s)
  | None => None
  end.

(** [connect()] *)
Definition connect (s : session) : session :=
  if connecting s then s
  else if connected s then s
  else
    let s := set_flags false true (closing s) s in
    let i := length (heap s) in
    let c := Connector.new (connector_options s) in
    let c := Connector.once Connector.EvError EndListener c in
    let c := Connector.once Connector.EvTimeout EndListener c in
    let c := Connector.once Connector.EvClose CloseListener c in
    let c := Connector.once Connector.EvConnected LoginOnConnected c in
    let c := Connector.connect c in
    set_connector (Some i) (set_heap (heap s ++ [c]) s).

(** [close()]; registering the listener on a [null] connector throws
    inside the promise, which is rejected. *)
Definition close (s : session) : session :=
  if closing s then s
  else if negb (connected s) then s
  else
    let s := set_flags (connected s) (connecting s) true s in
    match connector s with
    | Some i =>
        on_connector i
          (fun c =>
             let c := Connector.once Connector.EvClose CloseDestroy c in
             if Connector.closing c then c else Connector.close c)
          s
    | None => s
    end.

(** [write(params)], as far as the connection is concerned: one more
    channel is open. *)
Definition write (s : session) : session :=
  set_channelsOpen (channelsOpen s + 1) s.

(** The close listener [write] registers on its channel:
    [decreaseChannelsOpen()].  A channel closes once, and only if it was
    opened. *)
Definition decreaseChannelsOpen (s : session) : session :=
  if 0 <? channelsOpen s then set_channelsOpen (channelsOpen s - 1) s
  else s.

(** A call a listener of the consumer makes. *)
Definition run_call (c : call) (s : session) : session :=
  match c with
  | DoConnect => connect s
  | DoClose => close s
  | DoWrite => write s
  end.

(** [this.emit(name)] on the session: the listeners the consumer
    registered for the event are called at once, in order; an error
    event without a listener is thrown. *)
Definition emit (name : string) (s : session) : session :=
  let s := set_emitted (emitted s ++ [name]) s in
  match filter (fun r => r.1 = name) (listeners s) with
  | [] => if decide (name = "error") then crash s else s
  | called =>
      fold_left (fun s r => fold_left (fun s c => run_call c s) r.2 s)
        called s
  end.

(** [endListener(e)] of [connect]; the streams it stops are not part of
    this state. *)
Definition endListener (s : session) : session :=
  set_flags false false (closing s) s.

(** [login()], up to the answer of the router: the flag, and the first
    [/login] command is written on a new channel. *)
Definition login (s : session) : session :=
  let s := set_flags (connected s) true (closing s) s in
  let s := set_channelsOpen (channelsOpen s + 1) s in
  set_logins (S (logins s)) s.

(** The bodies of the listeners. *)
Definition run_listener (l : listener) (s : session) : session :=
  match l with
  | EndListener => endListener s
  | CloseListener => endListener (emit "close" s)
  | LoginOnConnected => login s
  | ConnectedErrorListener =>
      emit "error" (set_flags false false (closing s) s)
  | CloseDestroy =>
      match destroy_current s with
      | Some s =>
          set_flags false (connecting s) false (set_connector None s)
      | None => crash s
      end
  end.

(** [emit] on the connector at index [i]: the listeners of a snapshot are
    called in order, each removed before it is called; an uncaught
    exception ends everything. *)
Fixpoint call_listeners (i : nat)
    (snapshot : list (Connector.event * listener)) (s : session) : session :=
  match snapshot with
  | [] => s
  | r :: rest =>
      if crashed s then s
      else
        let s :=
          on_connector i
            (fun c => Connector.set_listeners
                        (Connector.remove_first r (Connector.listeners c)) c)
            s in
        call_listeners i rest (run_listener r.2 s)
  end.

Definition connector_listeners (i : nat) (ev : Connector.event) (s : session)
  : list (Connector.event * listener) :=
  match heap s !! i with
  | Some c => filter (fun r => r.1 = ev) (Connector.listeners c)
  | None => []
  end.

Definition connector_emit (i : nat) (ev : Connector.event) (s : session)
  : session :=
  call_listeners i (connector_listeners i ev s) s.

(** The continuations of [login()] in [connect]: on success the flags,
    and [connectedErrorListener] takes the place of [endListener]; on
    failure the connector is destroyed and the flags are cleared. *)
Definition login_settled (ok : bool) (s : session) : session :=
  match logins s with
  | O => s
  | S n =>
      let s := set_logins n s in
      if ok then
        let s := set_flags true false (closing s) s in
        match connector s with
        | Some i =>
            on_connector i
              (fun c =>
                 let c := Connector.removeListener Connector.EvError
                            EndListener c in
                 let c := Connector.removeListener Connector.EvTimeout
                            EndListener c in
                 let c := Connector.once Connector.EvError
                            ConnectedErrorListener c in
                 Connector.once Connector.EvTimeout ConnectedErrorListener c)
              s
        | None => set_flags false false (closing s) s
        end
      else
        let s := default s (destroy_current s) in
        set_flags false false (closing s) s
  end.

(** The buffer [login] hashes on a challenge [ret] of the router: a
    buffer of [password.length + 17] zero bytes, into which the character
    of code 0 and the password are written as UTF-8, and then, from
    [password.length + 1] on, the bytes the hexadecimal text [ret]
    denotes. *)
Definition login_challenge (password ret : string) : option (list Z) :=
  let challenge := Buffer.alloc (Z.of_nat (String.length password) + 17) in
  let challengeOffset := (String.length password + 1)%nat in
  let challenge := Buffer.write (String "000" password) challenge in
  Buffer.write_hex ret challengeOffset challenge.

Section WithHash.

(** [crypto.createHash('MD5').update(buffer).digest()] *)
Variable md5 : list Z -> list Z.

(** The response [login] sends in the second [/login]. *)
Definition login_response (password ret : string) : option string :=
  challenge ← login_challenge password ret;
  Some ("00" +:+ JSString.hex_string (md5 challenge)).

(** The response the protocol asks for, for the bytes of a password. *)
Definition expected_response (password_bytes : list Z) (ret : string)
  : string :=
  "00" +:+ JSString.hex_string
             (md5 ([0] ++ password_bytes ++ JSString.hex_decode ret)).

End WithHash.

(** A text of 32 hexadecimal digits. *)
Definition is_hex32 (s : string) : bool :=
  (String.length s =? 32)%nat
  && forallb (fun c => bool_decide (is_Some (JSString.hex_digit c)))
       (String.list_ascii_of_string s).

(** A string of ASCII characters. *)
Definition is_ascii (s : string) : bool :=
  forallb (fun c => (Ascii.nat_of_ascii c <? 128)%nat)
    (String.list_ascii_of_string s).

(** What happens to a session: the calls of the consumer, among them
    the registration of a listener with what it does, the close of a
    channel that [write] opened, the events of the socket of the
    connector at an index of the heap, and the answer to a login. *)
Inductive event :=
  | CallConnect
  | CallClose
  | CallWrite
  | CallOn (name : string) (body : list call)
  | ChannelCloses
  | SockConnect (i : nat)
  | SockEnd (i : nat)
  | SockTimeout (i : nat)
  | SockError (i : nat)
  | LoginSettled (ok : bool).

Definition finish_destroy (i : nat) (s : session) : session :=
  if crashed s then s else on_connector i Connector.destroy s.

Definition step (e : event) (s : session) : session :=
  if crashed s then s
  else
    match e with
    | CallConnect => connect s
    | CallClose => close s
    | CallWrite => write s
    | CallOn name body => set_listeners (listeners s ++ [(name, body)]) s
    | ChannelCloses => decreaseChannelsOpen s
    | SockConnect i =>
        connector_emit i Connector.EvConnected
          (on_connector i Connector.onConnect s)
    | SockEnd i => finish_destroy i (connector_emit i Connector.EvClose s)
    | SockTimeout i =>
        finish_destroy i (connector_emit i Connector.EvTimeout s)
    | SockError i =>
        match heap s !! i with
        | Some _ =>
            match connector_listeners i Connector.EvError s with
            | [] => crash s
            | snapshot => finish_destroy i (call_listeners i snapshot s)
            end
        | None => s
        end
    | LoginSettled ok => login_settled ok s
    end.

Definition run (es : list event) (s : session) : session :=
  fold_left (fun s e => step e s) es s.

(** A connector that is out of use: its socket is destroyed and it has
    no listeners left. *)
Definition retired (c : Connector.connector listener) : Prop :=
  Connector.destroyed c = true /\ Connector.listeners c = [].

(** The connected event has no listener but the one that logs in. *)
Definition login_on_connected (c : Connector.connector listener) : Prop :=
  Forall (fun r => r.1 = Connector.EvConnected -> r.2 = LoginOnConnected)
    (Connector.listeners c).

(** A connector as [connect] sets it up: with a socket, and with the one
    listener for the connected event. *)
Definition well_formed (c : Connector.connector listener) : Prop :=
  Connector.transmitter c <> None /\ login_on_connected c.

(** What holds of the connectors of a session at any time: every
    connector has its socket, only the current one may be in use, and
    while the session is neither connected nor connecting (and did not
    crash) none is. *)
Definition connectors_ok (s : session) : Prop :=
  Forall well_formed (heap s)
  /\ (forall j c, heap s !! j = Some c -> connector s <> Some j -> retired c)
  /\ (crashed s = false -> connected s = false -> connecting s = false ->
      Forall retired (heap s)).

(** What holds while the listeners of the connector at index [i] run. *)
Definition emitting_ok (i : nat) (s : session) : Prop :=
  Forall well_formed (heap s)
  /\ (forall j c, heap s !! j = Some c -> j <> i -> retired c)
  /\ (connector s <> Some i -> forall c, heap s !! i = Some c -> retired c).

(** Listeners of the consumer that only observe: they call no method of
    the session. *)
Definition quiet (s : session) : Prop :=
  Forall (fun r => r.2 = []) (listeners s).

Definition quiet_event (e : event) : Prop :=
  match e with
  | CallOn _ body => body = []
  | _ => True
  end.

(** The port a session opens its connection to. *)
Definition connection_port (options : options) : option Z :=
  Connector.port
    (Connector.new (L := listener) (connector_options (new options))).

(** The connectors whose socket is not destroyed. *)
Definition live_connectors (s : session)
  : list (Connector.connector listener) :=
  filter (fun c => Connector.destroyed c = false) (heap s).

End RouterOSAPI.

(** ** The parameters of a command (RouterOSAPI.js, Channel.js) *)

Module Params.

(** A parameter of [write]: a string, or an array of strings.  An array
    is a reference into the arrays of the program, which are kept in a
    list: the reference is the index. *)
Inductive param :=
  | Str (s : string)
  | Arr (ref : nat).

#[global] Instance param_eq_dec : EqDecision param.
Proof. solve_decision. Defined.

(** A new array. *)
Definition alloc (a : list string) (h : list (list string))
  : nat * list (list string) :=
  (length h, h ++ [a]).

(** [if (typeof parameter === 'string') parameter = [parameter]] *)
Definition as_array (p : param) (h : list (list string))
  : nat * list (list string) :=
  match p with
  | Str s => alloc [s] h
  | Arr ref => (ref, h)
  end.

(** The loop of [concatParams]; [concat] makes a new array.  [None] is
    a reference to no array. *)
Fixpoint concat_loop (first : nat) (parameters : list param)
    (h : list (list string)) : option (nat * list (list string)) :=
  match parameters with
  | [] => Some (first, h)
  | parameter :: rest =>
      let '(p, h) := as_array parameter h in
      a ← h !! p;
      if (0 <? length a)%nat then
        f ← h !! first;
        let '(first, h) := alloc (f ++ a) h in
        concat_loop first rest h
      else concat_loop first rest h
  end.

(** [concatParams(firstParameter, parameters)] *)
Definition concatParams (firstParameter : param) (parameters : list param)
    (h : list (list string)) : option (nat * list (list string)) :=
  let '(first, h) := as_array firstParameter h in
  concat_loop first parameters h.

(** [params.push('.tag=' + this.id)] of [Channel.write]: the array with
    the tag word, which is the sentence handed to the connector, and the
    arrays afterwards. *)
Definition push_tag (tag : string) (ref : nat) (h : list (list string))
  : option (list string * list (list string)) :=
  a ← h !! ref;
  let a := a ++ [".tag=" +:+ tag] in
  Some (a, <[ref := a]> h).

(** [RouterOSAPI.write(params, ...moreParams)] on a channel of id [tag],
    as far as the arrays are concerned: the sentence handed to the
    connector, and the arrays afterwards. *)
Definition write (params : param) (moreParams : list param) (tag : string)
    (h : list (list string)) : option (list string * list (list string)) :=
  '(ref, h) ← concatParams params moreParams h;
  push_tag tag ref h.

(** The words of a parameter. *)
Definition words (h : list (list string)) (p : param) : list string :=
  match p with
  | Str s => [s]
  | Arr ref => default [] (h !! ref)
  end.

(** A parameter that refers to an array of the program. *)
Definition valid (h : list (list string)) (p : param) : Prop :=
  match p with
  | Str _ => True
  | Arr ref => (ref < length h)%nat
  end.

(** An empty array. *)
Definition is_empty (h : list (list string)) (p : param) : bool :=
  match p with
  | Str _ => false
  | Arr ref => bool_decide (h !! ref = Some [])
  end.

End Params.


(** ** The HTTP handlers (server/controllers, unnamed/part_005) *)

Module Controllers.

Import JSNumber.

(** The calls a handler makes on the RouterOS client ([mikrotik], or the
    [conn] of [pollLogs]). *)
Inductive call :=
  | Connect
  | Write (command : string) (params : list string)
  | Close.

(** What the promise of a call settles with: the records it resolves
    with (for [connect] and [close] the client itself, which no handler
    uses), or the [message] of the value it rejects with, [None] when
    that value has no such property. *)
Inductive answer :=
  | Resolves (data : list (gmap string string))
  | Rejects (message : option string).

(** The bodies the handlers send: an array of records, one record,
    [undefined], [{error}], [{message}], [{message, result}] and
    [{message, ip}]. *)
Inductive json :=
  | Records (l : list (gmap string string))
  | OneRecord (r : gmap string string)
  | Undefined
  | Error (message : option string)
  | Message (message : string)
  | MessageResult (message : string) (result : list (gmap string string))
  | MessageIp (message : string) (ip : string).

Record response := {
  status : Z;
  body : json
}.

(** The answers not awaited yet, and the calls made so far. *)
Definition state : Type := list answer * list call.

(** How an asynchronous function goes on: with a value, with an
    exception, or not at all, when a promise it awaits never settles. *)
Inductive result (A : Type) :=
  | Value (a : A)
  | Throw (message : option string)
  | Pending.

Arguments Value {A} a.
Arguments Throw {A} message.
Arguments Pending {A}.

Definition M (A : Type) : Type := state -> result A * state.

#[global] Instance M_ret : MRet M := fun A a st => (Value a, st).

#[global] Instance M_bind : MBind M := fun A B f m st =>
  match m st with
  | (Value a, st') => f a st'
  | (Throw e, st') => (Throw e, st')
  | (Pending, st') => (Pending, st')
  end.

(** [await mikrotik.connect()], [await mikrotik.write(...)],
    [await mikrotik.close()] *)
Definition await (c : call) : M (list (gmap string string)) := fun st =>
  match st.1 with
  | [] => (Pending, ([], st.2 ++ [c]))
  | Resolves data :: rest => (Value data, (rest, st.2 ++ [c]))
  | Rejects message :: rest => (Throw message, (rest, st.2 ++ [c]))
  end.

(** [try { body } catch (err) { handler(err.message) }] *)
Definition try_catch {A} (body : M A) (handler : option string -> M A)
  : M A :=
  fun st =>
    match body st with
    | (Throw e, st') => handler e st'
    | other => other
    end.

(** [res.status(status).json(body)]; [res.json(body)] is status 200. *)
Definition respond (status : Z) (body : json) : M response :=
  mret {| status := status; body := body |}.

(** The text a template literal inserts for a field of a record of the
    router: a string, or [undefined] when the record has no such
    field. *)
Definition text (v : option string) : string := default "undefined" v.

(** The values [express.json()] puts in the body of a request: what
    [JSON.parse] gives, and [undefined] for a field the body does not
    have.  A number stands as the text [ToString] gives for it ([0] for
    both zeros); an object as its own fields. *)
#[local] Unset Elimination Schemes.
Inductive jsvalue :=
  | JUndefined
  | JNull
  | JBool (b : bool)
  | JNumber (text : string)
  | JString (s : string)
  | JArray (items : list jsvalue)
  | JObject (fields : list (string * jsvalue)).
#[local] Set Elimination Schemes.

(** The message of the TypeError [ToString] throws. *)
Definition type_error : string := "Cannot convert object to primitive value".

(** [ToString(v)], as a template literal and [String.prototype.includes]
    apply it.  An array is joined with commas, [null] and [undefined]
    elements giving the empty text.  An object that has a field
    [toString] of its own hides the method of [Object.prototype] behind
    a value that cannot be called, and [valueOf] gives back the object:
    a TypeError is thrown, which is [None]. *)
Fixpoint to_string (v : jsvalue) : option string :=
  match v with
  | JUndefined => Some "undefined"
  | JNull => Some "null"
  | JBool b => Some (if b then "true" else "false")
  | JNumber text => Some text
  | JString s => Some s
  | JArray items =>
      JSString.join ","
      <$> (fix elements (l : list jsvalue) : option (list string) :=
             match l with
             | [] => Some []
             | x :: l' =>
                 match match x with
                       | JUndefined | JNull => Some ""
                       | _ => to_string x
                       end with
                 | Some s => cons s <$> elements l'
                 | None => None
                 end
             end) items
  | JObject fields =>
      if bool_decide ("toString" ∈ fields.*1) then None
      else Some "[object Object]"
  end.

(** [ToBoolean(v)]; no number of a JSON text is NaN. *)
Definition truthy (v : jsvalue) : bool :=
  match v with
  | JUndefined | JNull => false
  | JBool b => b
  | JNumber text => negb (bool_decide (text = "0"))
  | JString s => negb (bool_decide (s = ""))
  | JArray _ | JObject _ => true
  end.

(** [field === v], for a field of a record of the router: a string, or
    [undefined]. *)
Definition strict_eq (field : option string) (v : jsvalue) : bool :=
  match field, v with
  | None, JUndefined => true
  | Some s, JString s' => bool_decide (s = s')
  | _, _ => false
  end.

(** The default value of a destructured field: it stands in for
    [undefined] only. *)
Definition or_default (d : string) (v : jsvalue) : jsvalue :=
  match v with
  | JUndefined => JString d
  | _ => v
  end.

(** A conversion that may throw the TypeError. *)
Definition or_type_error {A} (o : option A) : M A := fun st =>
  match o with
  | Some a => (Value a, st)
  | None => (Throw (Some type_error), st)
  end.

(** [`${v}`] *)
Definition template (v : jsvalue) : M string := or_type_error (to_string v).

(** [list.find(test)] *)
Definition find_record (test : gmap string string -> bool)
    (l : list (gmap string string)) : option (gmap string string) :=
  List.find test l.

(** [list.find(test)] for a test that may throw: [None] is the
    exception of the first element whose test throws. *)
Fixpoint find_throwing (test : gmap string string -> option bool)
    (l : list (gmap string string)) : option (option (gmap string string)) :=
  match l with
  | [] => Some None
  | x :: l' =>
      match test x with
      | None => None
      | Some true => Some (Some x)
      | Some false => find_throwing test l'
      end
  end.

(** *** server/controllers/pppoeController.js *)

Definition getAllUsers : M response :=
  try_catch
    (_ ← await Connect;
     users ← await (Write "/ppp/secret/print" []);
     _ ← await Close;
     respond 200 (Records users))
    (fun message => respond 500 (Error message)).

Definition getUserByName (name : string) : M response :=
  try_catch
    (_ ← await Connect;
     users ← await (Write "/ppp/secret/print" []);
     _ ← await Close;
     match find_record (fun u => bool_decide (u !! "name" = Some name)) users
     with
     | None => respond 404 (Error (Some "User not found"))
     | Some user => respond 200 (OneRecord user)
     end)
    (fun message => respond 500 (Error message)).

(** The fields [addUser] reads from the body of a request. *)
Record new_user := {
  u_name : jsvalue;
  u_password : jsvalue;
  u_profile : jsvalue;
  u_remote_address : jsvalue;
  u_maxLimit : jsvalue;
  u_expiredAt : jsvalue
}.

(** [q.name === name || q.target?.includes(remoteAddress)] *)
Definition duplicate_queue_test (name remoteAddress : jsvalue)
    (q : gmap string string) : option bool :=
  if strict_eq (q !! "name") name then Some true
  else
    match q !! "target" with
    | Some target =>
        (fun s => JSString.includes s target) <$> to_string remoteAddress
    | None => Some false
    end.

(** [expiredAt ? `expired:${expiredAt}` : ''] *)
Definition expired_comment (expiredAt : jsvalue) : M string :=
  if truthy expiredAt then
    s ← template expiredAt;
    mret ("expired:" +:+ s)
  else mret "".

Definition addUser (b : new_user) : M response :=
  let name := u_name b in
  let password := u_password b in
  let profile := or_default "default" (u_profile b) in
  let remoteAddress := u_remote_address b in
  let maxLimit := or_default "1M/1M" (u_maxLimit b) in
  let expiredAt := u_expiredAt b in
  if negb (truthy remoteAddress) then
    respond 400 (Error (Some "remote-address (IP) wajib diisi"))
  else
    try_catch
      (_ ← await Connect;
       existingUsers ← await (Write "/ppp/secret/print" []);
       let duplicateUser :=
         find_record (fun u => strict_eq (u !! "name") name)
           existingUsers in
       if bool_decide (is_Some duplicateUser) then
         _ ← await Close;
         respond 400 (Error (Some "User PPPoE sudah ada"))
       else
         let ipUsed :=
           find_record
             (fun u => strict_eq (u !! "remote-address") remoteAddress)
             existingUsers in
         if bool_decide (is_Some ipUsed) then
           _ ← await Close;
           respond 400
             (Error (Some "IP address sudah digunakan oleh user lain"))
         else
           existingQueues ← await (Write "/queue/simple/print" []);
           duplicateQueue ←
             or_type_error
               (find_throwing (duplicate_queue_test name remoteAddress)
                  existingQueues);
           if bool_decide (is_Some duplicateQueue) then
             _ ← await Close;
             respond 400
               (Error (Some "Queue dengan nama atau IP tersebut sudah ada"))
           else
             comment ← expired_comment expiredAt;
             w_name ← template name;
             w_password ← template password;
             w_profile ← template profile;
             w_address ← template remoteAddress;
             _ ← await (Write "/ppp/secret/add"
                          ["=name=" +:+ w_name;
                           "=password=" +:+ w_password;
                           "=profile=" +:+ w_profile;
                           "=remote-address=" +:+ w_address;
                           "=comment=" +:+ comment;
                           "=service=pppoe"]);
             q_name ← template name;
             q_target ← template remoteAddress;
             q_limit ← template maxLimit;
             _ ← await (Write "/queue/simple/add"
                          ["=name=" +:+ q_name;
                           "=target=" +:+ q_target;
                           "=max-limit=" +:+ q_limit]);
             _ ← await Close;
             respond 201 (Message "User dan Queue berhasil ditambahkan"))
      (fun message => respond 500 (Error message)).

Definition deleteUser (name : string) : M response :=
  try_catch
    (_ ← await Connect;
     users ← await (Write "/ppp/secret/print" []);
     match find_record (fun u => bool_decide (u !! "name" = Some name)) users
     with
     | None =>
         _ ← await Close;
         respond 404 (Error (Some "User not found"))
     | Some target =>
         _ ← await (Write "/ppp/secret/remove"
                      ["=.id=" +:+ text (target !! ".id")]);
         _ ← await Close;
         respond 200 (Message "User deleted")
     end)
    (fun message => respond 500 (Error message)).

Definition getActiveUsers : M response :=
  try_catch
    (_ ← await Connect;
     active ← await (Write "/ppp/active/print" []);
     _ ← await Close;
     respond 200 (Records active))
    (fun message => respond 500 (Error message)).

(** *** server/controllers/logController.js *)

(** [logs.slice(-n)] *)
Definition slice_last (n : nat) (l : list (gmap string string))
  : list (gmap string string) :=
  drop (length l - n) l.

Definition pollLogs : M response :=
  try_catch
    (_ ← await Connect;
     logs ← await (Write "/log/print" []);
     _ ← await Close;
     let recentLogs := reverse (slice_last 20 logs) in
     respond 200 (Records recentLogs))
    (fun message => respond 500 (Error message)).

(** A handler run against the answers of the client: the calls it made,
    and its response, if it got to one. *)
Definition run (h : M response) (answers : list answer)
  : list call * option response :=
  match h (answers, []) with
  | (Value r, st) => (st.2, Some r)
  | (_, st) => (st.2, None)
  end.

(** *** The queue handlers (server/controllers/logController.js, from
    line 26 on) *)

Definition getAllQueues : M response :=
  try_catch
    (_ ← await Connect;
     queues ← await (Write "/queue/simple/print" []);
     _ ← await Close;
     respond 200 (Records queues))
    (fun message => respond 500 (Error message)).

Definition getQueueByName (name : string) : M response :=
  try_catch
    (_ ← await Connect;
     queues ← await (Write "/queue/simple/print" []);
     _ ← await Close;
     match find_record (fun q => bool_decide (q !! "name" = Some name)) queues
     with
     | None => respond 404 (Error (Some "Queue not found"))
     | Some queue => respond 200 (OneRecord queue)
     end)
    (fun message => respond 500 (Error message)).

(** The fields [addQueue] reads from the body of a request. *)
Record new_queue := {
  q_name : jsvalue;
  q_target : jsvalue;
  q_maxLimit : jsvalue
}.

Definition addQueue (b : new_queue) : M response :=
  let name := q_name b in
  let target := q_target b in
  let maxLimit := or_default "1M/1M" (q_maxLimit b) in
  try_catch
    (_ ← await Connect;
     w_name ← template name;
     w_target ← template target;
     w_limit ← template maxLimit;
     result ← await (Write "/queue/simple/add"
                       ["=name=" +:+ w_name;
                        "=target=" +:+ w_target;
                        "=max-limit=" +:+ w_limit]);
     _ ← await Close;
     respond 201 (MessageResult "Queue added" result))
    (fun message => respond 500 (Error message)).

(** The fields [updateQueueLimit] reads from the body of a request. *)
Record queue_update := {
  c_maxLimit : jsvalue;
  c_target : jsvalue;
  c_interface : jsvalue
}.

(** [if (v) payload.push(`=key=${v}`)] *)
Definition push_field (key : string) (v : jsvalue) (payload : list string)
  : M (list string) :=
  if truthy v then
    s ← template v;
    mret (payload ++ ["=" +:+ key +:+ "=" +:+ s])
  else mret payload.

Definition updateQueueLimit (name : string) (b : queue_update)
  : M response :=
  let maxLimit := c_maxLimit b in
  let target := c_target b in
  let iface := c_interface b in
  try_catch
    (_ ← await Connect;
     queues ← await (Write "/queue/simple/print" []);
     match find_record (fun q => bool_decide (q !! "name" = Some name)) queues
     with
     | None =>
         _ ← await Close;
         respond 404 (Error (Some "Queue not found"))
     | Some queue =>
         let payload := ["=.id=" +:+ text (queue !! ".id")] in
         payload ← push_field "max-limit" maxLimit payload;
         payload ← push_field "target" target payload;
         payload ← push_field "interface" iface payload;
         result ← await (Write "/queue/simple/set" payload);
         _ ← await Close;
         respond 200 (MessageResult "Queue updated" result)
     end)
    (fun message => respond 500 (Error message)).

Definition deleteQueue (name : string) : M response :=
  try_catch
    (_ ← await Connect;
     queues ← await (Write "/queue/simple/print" []);
     match find_record (fun q => bool_decide (q !! "name" = Some name)) queues
     with
     | None =>
         _ ← await Close;
         respond 404 (Error (Some "Queue not found"))
     | Some target =>
         result ← await (Write "/queue/simple/remove"
                           ["=.id=" +:+ text (target !! ".id")]);
         _ ← await Close;
         respond 200 (MessageResult "Queue deleted" result)
     end)
    (fun message => respond 500 (Error message)).

(** *** server/controllers/interfaceController.js *)

Definition getInterfaceTraffic (interfaceName : string) : M response :=
  try_catch
    (_ ← await Connect;
     traffic ← await (Write "/interface/monitor-traffic"
                        ["=interface=" +:+ interfaceName; "=once="]);
     _ ← await Close;
     respond 200 (match traffic !! 0%nat with
                  | Some r => OneRecord r
                  | None => Undefined
                  end))
    (fun message => respond 500 (Error message)).

(** The handlers above. *)
Definition handlers (name : string) (user : new_user) (queue : new_queue)
    (update : queue_update) : list (M response) :=
  [getAllUsers; getUserByName name; addUser user; deleteUser name;
   getActiveUsers; pollLogs; getAllQueues; getQueueByName name;
   addQueue queue; updateQueueLimit name update; deleteQueue name;
   getInterfaceTraffic name].

(** *** unnamed/part_005: [addUser] picks the address *)

Module Part005.

Definition ipBase : string := "192.168.56".
Definition ipStart : nat := 10.
Definition ipEnd : nat := 254.

(** [q.target && q.target.split('/')[0]] *)
Definition target_address (q : gmap string string) : option string :=
  match q !! "target" with
  | None => None
  | Some target =>
      if bool_decide (target = "") then Some ""
      else head (JSString.split "/" target)
  end.

(** The values of the set [usedIPs]. *)
Definition usedIPs (existingUsers existingQueues : list (gmap string string))
  : list (option string) :=
  map (fun u => u !! "remote-address") existingUsers
  ++ map target_address existingQueues.

(** The candidate address of the loop for [i]. *)
Definition candidate (i : nat) : string := ipBase +:+ "." +:+ decimal i.

(** The loop over [i] from [ipStart] to [ipEnd]: the first candidate the
    set does not have; [None] is [null]. *)
Definition availableIP (used : list (option string)) : option string :=
  candidate
  <$> List.find (fun i => negb (bool_decide (Some (candidate i) ∈ used)))
        (seq ipStart (ipEnd + 1 - ipStart)).

Definition addUser (b : new_user) : M response :=
  let name := u_name b in
  let password := u_password b in
  let profile := or_default "default" (u_profile b) in
  let maxLimit := or_default "2M/2M" (u_maxLimit b) in
  let expiredAt := u_expiredAt b in
  try_catch
    (_ ← await Connect;
     existingUsers ← await (Write "/ppp/secret/print" []);
     existingQueues ← await (Write "/queue/simple/print" []);
     let duplicateUser :=
       find_record (fun u => strict_eq (u !! "name") name)
         existingUsers in
     if bool_decide (is_Some duplicateUser) then
       _ ← await Close;
       respond 400 (Error (Some "User PPPoE sudah ada"))
     else
       match availableIP (usedIPs existingUsers existingQueues) with
       | None =>
           _ ← await Close;
           respond 400 (Error (Some "Tidak ada IP tersedia"))
       | Some availableIP =>
           comment ← expired_comment expiredAt;
           let localAddress := ipBase +:+ ".1" in
           w_name ← template name;
           w_password ← template password;
           w_profile ← template profile;
           _ ← await (Write "/ppp/secret/add"
                        ["=name=" +:+ w_name;
                         "=password=" +:+ w_password;
                         "=profile=" +:+ w_profile;
                         "=remote-address=" +:+ availableIP;
                         "=local-address=" +:+ localAddress;
                         "=comment=" +:+ comment;
                         "=service=pppoe"]);
           q_name ← template name;
           q_limit ← template maxLimit;
           _ ← await (Write "/queue/simple/add"
                        ["=name=" +:+ q_name;
                         "=target=" +:+ availableIP;
                         "=max-limit=" +:+ q_limit]);
           _ ← await Close;
           respond 201
             (MessageIp "User dan Queue berhasil ditambahkan" availableIP)
       end)
    (fun message =>
       _ ← await Close;
       respond 500 (Error message)).

End Part005.

End Controllers.
(** * Properties *)

(** ** 32-bit operators *)

Section JSFacts.
Import JS.

Lemma ToInt32_mod x : ToInt32 x mod 2 ^ 32 = x mod 2 ^ 32.
Proof.
  unfold ToInt32.
  pose proof (Z.mod_pos_bound x (2 ^ 32) ltac:(lia)) as Hb.
  destruct (x mod 2 ^ 32 <? 2 ^ 31) eqn:E.
  - apply Z.mod_mod; lia.
  - rewrite <- (Z.mod_add _ 1 (2 ^ 32)) by lia.
    replace (x mod 2 ^ 32 - 2 ^ 32 + 1 * 2 ^ 32) with (x mod 2 ^ 32) by lia.
    apply Z.mod_mod; lia.
Qed.

Lemma ToInt32_small x : 0 <= x < 2 ^ 31 -> ToInt32 x = x.
Proof.
  intros Hx. unfold ToInt32.
  rewrite (Z.mod_small x (2 ^ 32)) by lia.
  destruct (x <? 2 ^ 31) eqn:E; [reflexivity | apply Z.ltb_ge in E; lia].
Qed.

(** The low 32 bits of [a | b] are the bitwise or of the low 32 bits. *)
Lemma bor_mod a b :
  bor a b mod 2 ^ 32 = Z.lor (a mod 2 ^ 32) (b mod 2 ^ 32).
Proof.
  unfold bor. rewrite ToInt32_mod.
  rewrite <- !Z.land_ones by lia.
  rewrite Z.land_lor_distr_l.
  rewrite !Z.land_ones by lia.
  now rewrite !ToInt32_mod.
Qed.

(** Extracting one byte: [(x >> n) & 0xff] reads bits n..n+7 of the
    low 32 bits of x, whatever the sign of the 32-bit value. *)
Lemma band_sar_byte x n :
  0 <= n <= 24 ->
  band (sar x n) 255 = (x mod 2 ^ 32 / 2 ^ n) mod 256.
Proof.
  intros Hn. unfold band, sar.
  rewrite (Z.mod_small n 32) by lia.
  rewrite (ToInt32_small 255) by lia.
  change 255 with (Z.ones 8). rewrite Z.land_ones by lia.
  change (2 ^ 8) with 256.
  assert (H256 : forall y, ToInt32 y mod 256 = y mod 256).
  { intros y. pose proof (ToInt32_mod y) as Hy.
    change (2 ^ 32) with (256 * 2 ^ 24) in Hy.
    rewrite !Z.rem_mul_r in Hy by lia.
    pose proof (Z.mod_pos_bound (ToInt32 y) 256 ltac:(lia)).
    pose proof (Z.mod_pos_bound y 256 ltac:(lia)).
    pose proof (Z.mod_pos_bound (ToInt32 y / 256) (2 ^ 24) ltac:(lia)).
    pose proof (Z.mod_pos_bound (y / 256) (2 ^ 24) ltac:(lia)).
    lia. }
  rewrite H256.
  pose proof (Z.mod_pos_bound (Z.shiftr (ToInt32 x) n) 256 ltac:(lia)).
  rewrite ToInt32_small by lia.
  rewrite Z.shiftr_div_pow2 by lia.
  (* ToInt32 x and x mod 2^32 differ by a multiple of 2^32 *)
  assert (Hk : exists k, ToInt32 x = x mod 2 ^ 32 + k * 2 ^ 32).
  { unfold ToInt32. destruct (x mod 2 ^ 32 <? 2 ^ 31).
    - exists 0. lia.
    - exists (-1). lia. }
  destruct Hk as [k Hk]. rewrite Hk.
  replace (k * 2 ^ 32) with (k * 2 ^ (32 - n) * 2 ^ n).
  2:{ rewrite <- Z.mul_assoc, <- Z.pow_add_r by lia. do 2 f_equal. lia. }
  rewrite Z.div_add by lia.
  replace (2 ^ (32 - n)) with (2 ^ (24 - n) * 256).
  2:{ change 256 with (2 ^ 8). rewrite <- Z.pow_add_r by lia. f_equal. lia. }
  rewrite Z.mul_assoc, Z.mod_add by lia.
  reflexivity.
Qed.

Lemma ToInt32_idem x : ToInt32 (ToInt32 x) = ToInt32 x.
Proof. unfold ToInt32 at 1 3. now rewrite ToInt32_mod. Qed.

Lemma band_byte x : band x 255 = (x mod 2 ^ 32 / 2 ^ 0) mod 256.
Proof.
  rewrite <- (band_sar_byte x 0) by lia.
  unfold band, sar. rewrite Z.mod_0_l by lia.
  now rewrite Z.shiftr_0_r, ToInt32_idem.
Qed.

(** Bits n..n+7 of the low 32 bits are bits n..n+7. *)
Lemma low32_byte x n :
  0 <= n <= 24 -> (x mod 2 ^ 32 / 2 ^ n) mod 256 = (x / 2 ^ n) mod 256.
Proof.
  intros Hn.
  rewrite (Z.div_mod x (2 ^ 32)) at 2 by lia.
  replace (2 ^ 32 * (x / 2 ^ 32) + x mod 2 ^ 32)
    with (x mod 2 ^ 32 + (x / 2 ^ 32) * 2 ^ (24 - n) * 256 * 2 ^ n).
  2:{ replace (x / 2 ^ 32 * 2 ^ (24 - n) * 256 * 2 ^ n)
        with (x / 2 ^ 32 * (2 ^ (24 - n) * 2 ^ 8 * 2 ^ n)) by (change (2 ^ 8) with 256; ring).
      rewrite <- !Z.pow_add_r by lia.
      replace (24 - n + 8 + n) with 32 by lia. ring. }
  rewrite Z.div_add by lia.
  now rewrite Z.mod_add by lia.
Qed.

(** [len | c] for a length below 2^32 and a 32-bit constant. *)
Lemma bor_low32 a c :
  0 <= a < 2 ^ 32 -> 0 <= c < 2 ^ 32 -> bor a c mod 2 ^ 32 = Z.lor a c.
Proof.
  intros Ha Hc. rewrite bor_mod.
  now rewrite !Z.mod_small by lia.
Qed.

End JSFacts.

(** ** Buffers *)

Section BufferFacts.
Import Buffer.

Lemma length_alloc n : length (alloc n) = Z.to_nat n.
Proof. apply length_replicate. Qed.

Lemma length_set i v buf : length (set i v buf) = length buf.
Proof. apply length_insert. Qed.

Lemma fill_from_all value cur : fill_from value cur (length cur) = cur.
Proof. induction cur as [|x cur IH]; simpl; [reflexivity | now rewrite IH]. Qed.

(** When the value is exactly as long as the range, [fill] copies it. *)
Lemma fill_exact value offset buf :
  length buf = (offset + length value)%nat ->
  fill value offset buf = Some (take offset buf ++ value).
Proof.
  intros Hlen. unfold fill.
  destruct (decide (length buf < offset)%nat) as [|_]; [lia|].
  destruct (decide (offset = length buf)) as [Heq|Hne].
  - assert (length value = 0%nat) as Hv by lia.
    apply length_zero_iff_nil in Hv. subst value.
    rewrite app_nil_r, Heq. now rewrite firstn_all.
  - destruct value as [|x value]; [simpl in Hlen; lia|].
    replace (length buf - offset)%nat with (length (x :: value)) by lia.
    now rewrite fill_from_all.
Qed.

End BufferFacts.

(** ** Wire codec: the length prefix *)

Section EncodeFacts.
Import Transmitter.

Variable iconv_encode : string -> list Z.

Lemma be_bytes_length n v : length (be_bytes n v) = n.
Proof. induction n as [|n IH]; simpl; [reflexivity | now rewrite IH]. Qed.

Lemma be_value_app bs b : be_value (bs ++ [b]) = be_value bs * 256 + b.
Proof. unfold be_value. now rewrite fold_left_app. Qed.

Lemma be_value_cons b bs :
  be_value (b :: bs) = b * 256 ^ Z.of_nat (length bs) + be_value bs.
Proof.
  revert b. induction bs as [|c bs IH] using rev_ind; intros b.
  - unfold be_value. simpl. lia.
  - rewrite app_comm_cons, !be_value_app, IH, length_app. simpl length.
    rewrite Nat2Z.inj_add, Z.pow_add_r by lia. change (256 ^ Z.of_nat 1) with 256. ring.
Qed.

(** Big-endian bytes denote the number they were cut from. *)
Lemma be_value_be_bytes n v :
  be_value (be_bytes n v) = v mod 256 ^ Z.of_nat n.
Proof.
  induction n as [|n IH].
  - simpl. now rewrite Z.mod_1_r.
  - cbn [be_bytes]. rewrite be_value_cons, be_bytes_length, IH.
    rewrite Nat2Z.inj_succ, Z.pow_succ_r by lia.
    rewrite (Z.mul_comm 256), Z.rem_mul_r by lia.
    replace (2 ^ (8 * Z.of_nat n)) with (256 ^ Z.of_nat n).
    2:{ change 256 with (2 ^ 8). rewrite <- Z.pow_mul_r by lia. reflexivity. }
    ring.
Qed.

Lemma be_value_be_bytes_small n v :
  0 <= v < 256 ^ Z.of_nat n -> be_value (be_bytes n v) = v.
Proof. intros Hv. rewrite be_value_be_bytes. now apply Z.mod_small. Qed.

(** A buffer whose first bytes are [pre] and whose remainder is as long
    as [payload] becomes [pre ++ payload] when filled from [length pre]. *)
Lemma fill_after_prefix pre rest payload :
  length rest = length payload ->
  Buffer.fill payload (length pre) (pre ++ rest) = Some (pre ++ payload).
Proof.
  intros Hlen. rewrite fill_exact.
  - now rewrite take_app_length.
  - rewrite length_app. lia.
Qed.

Lemma alloc_plus (n : nat) (k : nat) :
  Buffer.alloc (Z.of_nat n + Z.of_nat k) = replicate k 0 ++ replicate n 0.
Proof.
  unfold Buffer.alloc. rewrite <- Nat2Z.inj_add, Nat2Z.id.
  rewrite Nat.add_comm. apply replicate_add.
Qed.

Lemma lor_bound a c n :
  0 <= n -> 0 <= a < 2 ^ n -> 0 <= c < 2 ^ n -> 0 <= Z.lor a c < 2 ^ n.
Proof.
  intros Hn Ha Hc.
  assert (Z.lor a c = Z.lor a c mod 2 ^ n) as ->.
  { rewrite <- Z.land_ones, Z.land_lor_distr_l, !Z.land_ones by lia.
    now rewrite !Z.mod_small by lia. }
  apply Z.mod_pos_bound. lia.
Qed.

Lemma set_mod i v buf : Buffer.set i (v mod 256) buf = Buffer.set i v buf.
Proof. unfold Buffer.set. now rewrite Z.mod_mod by lia. Qed.

(** The buffer [encodeString] builds for a string: the bytes of the
    32-bit expressions of the code are the big-endian bytes of the table,
    and [fill] copies the encoding behind them. *)
Lemma encodeString_some (str : string) :
  encodeString iconv_encode (Some str)
  = Some (length_prefix (Z.of_nat (length (iconv_encode str)))
          ++ iconv_encode str).
Proof.
  unfold encodeString, length_prefix.
  set (payload := iconv_encode str).
  set (n := length payload). set (L := Z.of_nat n).
  assert (HL : 0 <= L) by lia.
  assert (Hrest : length (replicate n 0) = length payload)
    by now rewrite length_replicate.
  destruct (L <? 0x80) eqn:E1; [|destruct (L <? 0x4000) eqn:E2;
    [|destruct (L <? 0x200000) eqn:E3; [|destruct (L <? 0x10000000) eqn:E4]]];
    rewrite ?Z.ltb_lt, ?Z.ltb_ge in *.
  - change (L + 1) with (Z.of_nat n + Z.of_nat 1). rewrite alloc_plus.
    cbn [replicate app be_bytes]. unfold Buffer.set. cbn [list_insert].
    rewrite Z.mul_0_r, Z.div_1_r.
    now apply (fill_after_prefix [_]).
  - change (L + 2) with (Z.of_nat n + Z.of_nat 2). rewrite alloc_plus.
    cbn [replicate app be_bytes].
    rewrite band_sar_byte, band_byte by lia.
    rewrite bor_low32 by lia.
    rewrite !set_mod. unfold Buffer.set. cbn [list_insert].
    now apply (fill_after_prefix [_; _]).
  - change (L + 3) with (Z.of_nat n + Z.of_nat 3). rewrite alloc_plus.
    cbn [replicate app be_bytes].
    rewrite !band_sar_byte, band_byte by lia.
    rewrite bor_low32 by lia.
    rewrite !set_mod. unfold Buffer.set. cbn [list_insert].
    now apply (fill_after_prefix [_; _; _]).
  - change (L + 4) with (Z.of_nat n + Z.of_nat 4). rewrite alloc_plus.
    cbn [replicate app be_bytes].
    rewrite !band_sar_byte, band_byte by lia.
    rewrite bor_low32 by lia.
    rewrite !set_mod. unfold Buffer.set. cbn [list_insert].
    now apply (fill_after_prefix [_; _; _; _]).
  - change (L + 5) with (Z.of_nat n + Z.of_nat 5). rewrite alloc_plus.
    cbn [replicate app be_bytes].
    rewrite !band_sar_byte, band_byte by lia.
    rewrite !low32_byte by lia.
    rewrite !set_mod. unfold Buffer.set. cbn [list_insert].
    now apply (fill_after_prefix [_; _; _; _; _]).
Qed.

(** C1.  For every word, [encodeString] returns the length prefix the
    protocol documents for the byte length L of the win1252 encoding,
    followed by exactly the L bytes of that encoding: [L] itself in one
    byte below 0x80, L|0x8000 in two big-endian bytes below 0x4000,
    L|0xC00000 in three below 0x200000, L|0xE0000000 in four below
    0x10000000, and otherwise the byte 0xF0 and the four big-endian bytes
    of L. *)
Theorem encodeString_length_prefix (str : string) :
  let payload := iconv_encode str in
  let L := Z.of_nat (length payload) in
  exists prefix,
    encodeString iconv_encode (Some str) = Some (prefix ++ payload)
    /\ prefix
       = (if L <? 0x80 then be_bytes 1 L
          else if L <? 0x4000 then be_bytes 2 (Z.lor L 0x8000)
          else if L <? 0x200000 then be_bytes 3 (Z.lor L 0xC00000)
          else if L <? 0x10000000 then be_bytes 4 (Z.lor L 0xE0000000)
          else 0xF0 :: be_bytes 4 L)
    /\ (L < 2 ^ 32 ->
        be_value prefix
        = (if L <? 0x80 then L
           else if L <? 0x4000 then Z.lor L 0x8000
           else if L <? 0x200000 then Z.lor L 0xC00000
           else if L <? 0x10000000 then Z.lor L 0xE0000000
           else 0xF0 * 2 ^ 32 + L)).
Proof.
  cbn zeta. eexists. split; [apply encodeString_some|].
  split; [reflexivity|].
  intros Hlt. unfold length_prefix.
  set (L := Z.of_nat (length (iconv_encode str))) in *.
  assert (0 <= L) by (unfold L; lia).
  repeat match goal with
         | |- context [?a <? ?b] => destruct (Z.ltb_spec a b)
         end.
  - apply be_value_be_bytes_small. change (256 ^ Z.of_nat 1) with 256. lia.
  - apply be_value_be_bytes_small. apply (lor_bound L 0x8000 16); lia.
  - apply be_value_be_bytes_small. apply (lor_bound L 0xC00000 24); lia.
  - apply be_value_be_bytes_small. apply (lor_bound L 0xE0000000 32); lia.
  - rewrite be_value_cons, be_bytes_length, be_value_be_bytes_small
      by (change (256 ^ Z.of_nat 4) with (2 ^ 32); lia).
    reflexivity.
Qed.

(** What the prefix is in each range of the table. *)
Lemma length_prefix_ranges L :
  (0 <= L < 0x80 -> length_prefix L = [L]) /\
  (0x80 <= L < 0x4000 ->
     length (length_prefix L) = 2%nat /\
     be_value (length_prefix L) = Z.lor L 0x8000) /\
  (0x4000 <= L < 0x200000 ->
     length (length_prefix L) = 3%nat /\
     be_value (length_prefix L) = Z.lor L 0xC00000) /\
  (0x200000 <= L < 0x10000000 ->
     length (length_prefix L) = 4%nat /\
     be_value (length_prefix L) = Z.lor L 0xE0000000) /\
  (0x10000000 <= L < 2 ^ 32 ->
     exists bs, length_prefix L = 0xF0 :: bs /\ length bs = 4%nat /\
                be_value bs = L).
Proof.
  unfold length_prefix.
  split; [|split; [|split; [|split]]]; intros HL;
    repeat match goal with
    | |- context [?a <? ?b] =>
        destruct (Z.ltb_spec a b); try lia
    end;
    try (split; [apply be_bytes_length|]).
  - cbn [be_bytes]. rewrite Z.mul_0_r, Z.div_1_r, Z.mod_small by lia. reflexivity.
  - apply be_value_be_bytes_small.
    apply (lor_bound L 0x8000 16); lia.
  - apply be_value_be_bytes_small.
    apply (lor_bound L 0xC00000 24); lia.
  - apply be_value_be_bytes_small.
    apply (lor_bound L 0xE0000000 32); lia.
  - eexists. split; [reflexivity|]. split; [apply be_bytes_length|].
    apply be_value_be_bytes_small. change (256 ^ Z.of_nat 4) with (2 ^ 32). lia.
Qed.

Lemma encodeString_encoded w :
  encodeString iconv_encode w = Some (encoded iconv_encode w).
Proof. destruct w; [apply encodeString_some | reflexivity]. Qed.

End EncodeFacts.

Example encodeString_login :
  Transmitter.encodeString code_units (Some "/login")
  = Some [6; 47; 108; 111; 103; 105; 110].
Proof. reflexivity. Qed.

Example encodeString_empty :
  Transmitter.encodeString code_units (Some "") = Some [0].
Proof. reflexivity. Qed.

Example length_prefix_boundaries :
  map Transmitter.length_prefix
      [0; 0x7F; 0x80; 0x3FFF; 0x4000; 0x1FFFFF; 0x200000; 0xFFFFFFF;
       0x10000000]
  = [[0]; [0x7F]; [0x80; 0x80]; [0xBF; 0xFF]; [0xC0; 0x40; 0x00];
     [0xDF; 0xFF; 0xFF]; [0xE0; 0x20; 0x00; 0x00]; [0xEF; 0xFF; 0xFF; 0xFF];
     [0xF0; 0x10; 0x00; 0x00; 0x00]].
Proof. reflexivity. Qed.

(** ** Transmitter: the pool *)

Section PoolFacts.
Import Transmitter.

Variable iconv_encode : string -> list Z.

Local Notation "'enc'" := (encoded iconv_encode).
Local Notation "'write'" := (Transmitter.write iconv_encode).
Local Notation "'writes'" := (Transmitter.writes iconv_encode).

Lemma write_pooled w tr :
  writable (socket tr) = false \/ pool tr <> [] ->
  write w tr = Some {| pool := pool tr ++ [enc w]; socket := socket tr |}.
Proof.
  intros H. unfold Transmitter.write. rewrite encodeString_encoded. simpl.
  destruct H as [-> | H]; [reflexivity|].
  destruct (pool tr); [congruence|]. simpl. now rewrite orb_true_r.
Qed.

Lemma write_direct w tr :
  writable (socket tr) = true -> pool tr = [] ->
  write w tr
  = Some {| pool := []; socket := socket_write (enc w) (socket tr) |}.
Proof.
  intros Hw Hp. unfold Transmitter.write. rewrite encodeString_encoded. simpl.
  now rewrite Hw, Hp.
Qed.

Lemma runPool_loop_sent p s :
  sent (runPool_loop p s) = sent s ++ concat p
  /\ writable (runPool_loop p s) = writable s
  /\ sock_destroyed (runPool_loop p s) = sock_destroyed s.
Proof.
  revert s. induction p as [|d p IH]; intros s; simpl.
  - now rewrite app_nil_r.
  - destruct (IH (socket_write d s)) as (-> & -> & ->). simpl.
    now rewrite app_assoc.
Qed.

(** While the socket is not writable every word is pooled, at the back. *)
Lemma writes_not_writable ws tr :
  writable (socket tr) = false ->
  writes ws tr
  = Some {| pool := pool tr ++ map enc ws; socket := socket tr |}.
Proof.
  revert tr. induction ws as [|w ws IH]; intros tr Hw; simpl.
  - rewrite app_nil_r. now destruct tr.
  - rewrite write_pooled by now left. simpl.
    rewrite IH by exact Hw. simpl. now rewrite <- app_assoc.
Qed.

(** With an empty pool and a writable socket every word goes straight to
    the socket. *)
Lemma writes_direct ws tr :
  writable (socket tr) = true -> pool tr = [] ->
  writes ws tr
  = Some {| pool := [];
            socket := {| writable := true;
                         sent := sent (socket tr) ++ concat (map enc ws);
                         sock_destroyed := sock_destroyed (socket tr) |} |}.
Proof.
  revert tr. induction ws as [|w ws IH]; intros tr Hw Hp; simpl.
  - rewrite app_nil_r. destruct tr as [p [wr se de]]; simpl in *. now subst.
  - rewrite write_direct by assumption. simpl.
    rewrite IH by (simpl; auto). simpl. now rewrite <- app_assoc.
Qed.

Context {L : Type}.

Local Notation "'io_run'" := (Connector.io_run (L := L) iconv_encode).

Lemma io_run_app es1 es2 (c c' : Connector.connector L) :
  io_run es1 c = Some c' -> io_run (es1 ++ es2) c = io_run es2 c'.
Proof.
  revert c. induction es1 as [|e es1 IH]; intros c H; cbn in *.
  - now inversion H.
  - destruct (Connector.io_step iconv_encode e c); cbn in *;
      [now apply IH | discriminate].
Qed.

(** Words written one after the other through the connector are the
    writes of its transmitter. *)
Lemma transmits_writes ws : forall (c : Connector.connector L) tr,
  Connector.transmitter c = Some tr ->
  io_run (map Connector.Transmit ws) c
  = tr' ← writes ws tr; Some (Connector.set_transmitter tr' c).
Proof.
  induction ws as [|w ws IH]; intros c tr Htr.
  - cbn. destruct c; cbn in *. now subst.
  - cbn [map Connector.io_run Connector.io_step Transmitter.writes].
    unfold Connector.transmit. rewrite Htr. cbn [mbind option_bind].
    destruct (write w tr) as [tr1|]; cbn [mbind option_bind];
      [|reflexivity].
    rewrite (IH _ tr1) by reflexivity.
    destruct (writes ws tr1); reflexivity.
Qed.

(** Whatever the order of writes, connect events and changes of the
    writable flag: the bytes sent so far followed by the pooled ones are
    the encodings of the words written so far, in call order. *)
Lemma io_run_order es : forall (c : Connector.connector L) tr,
  Connector.transmitter c = Some tr ->
  exists c',
    io_run es c = Some c'
    /\ Connector.sent c' ++ concat (Connector.pooled c')
       = Connector.sent c ++ concat (Connector.pooled c)
         ++ concat (map enc (Connector.written_words es)).
Proof.
  induction es as [|e es IH]; intros c tr Htr.
  - exists c. simpl. now rewrite app_nil_r.
  - destruct e as [w | b | ];
      cbn [Connector.io_run Connector.io_step Connector.written_words omap].
    + unfold Connector.transmit. rewrite Htr. cbn [mbind option_bind].
      unfold Transmitter.write. rewrite encodeString_encoded.
      cbn [mbind option_bind].
      destruct tr as [p [wr se de]]; cbn [pool socket writable].
      destruct wr, p as [|d p]; cbn [negb orb length Nat.ltb Nat.leb];
        cbn [mbind option_bind];
        match goal with
        | |- context [Connector.io_run _ es (Connector.set_transmitter ?t c)] =>
            destruct (IH (Connector.set_transmitter t c) t eq_refl)
              as (c' & Hrun & Hout)
        end;
        exists c'; (split; [exact Hrun|]); rewrite Hout;
        unfold Connector.sent, Connector.pooled;
        cbn [Connector.transmitter Connector.set_transmitter];
        rewrite Htr; cbn;
        rewrite ?concat_app, <- ?app_assoc; simpl; rewrite ?app_nil_r;
        reflexivity.
    + cbn [mbind option_bind].
      edestruct (IH (Connector.socket_writable b c)) as (c' & Hrun & Hout).
      { cbn. rewrite Htr. reflexivity. }
      exists c'. split; [exact Hrun|]. rewrite Hout.
      unfold Connector.sent, Connector.pooled. cbn. rewrite Htr. reflexivity.
    + cbn [mbind option_bind].
      edestruct (IH (Connector.onConnect (Connector.socket_writable true c)))
        as (c' & Hrun & Hout).
      { cbn. rewrite Htr. reflexivity. }
      exists c'. split; [exact Hrun|]. rewrite Hout.
      unfold Connector.sent, Connector.pooled. cbn. rewrite Htr. cbn.
      destruct (runPool_loop_sent (pool tr)
                  (socket_set_writable true (socket tr)))
        as (-> & _ & _).
      simpl. now rewrite <- app_assoc.
Qed.

(** C5.  Words written while the socket of a connector is not writable
    are pooled in call order and nothing is sent; a word written while
    the pool is not empty is pooled as well, even when the socket reports
    writable; on the connect event of the socket [Connector.onConnect]
    runs the pool from the front, so that the byte stream on the socket
    is the encodings of the words in the order of the write calls, also
    for the words written after the connect. *)
Theorem pool_preserves_write_order
    (c : Connector.connector L) (tr : transmitter)
    (before : list (option string)) (w' w : option string)
    (after : list (option string)) :
  Connector.transmitter c = Some tr ->
  writable (socket tr) = false -> pool tr = [] ->
  exists c1 c1' c3,
    io_run (map Connector.Transmit before) c = Some c1
    /\ Connector.pooled c1 = map enc before
    /\ Connector.sent c1 = Connector.sent c
    /\ io_run (map Connector.Transmit (before ++ [w'])
               ++ [Connector.SocketWritable true; Connector.Transmit w]) c
       = Some c1'
    /\ Connector.pooled c1' = map enc (before ++ [w'; w])
    /\ Connector.sent c1' = Connector.sent c
    /\ let c2 := Connector.onConnect (Connector.socket_writable true c1) in
       io_run [Connector.SocketConnects] c1 = Some c2
       /\ Connector.pooled c2 = []
       /\ Connector.sent c2 = Connector.sent c ++ concat (map enc before)
       /\ io_run (map Connector.Transmit after) c2 = Some c3
       /\ Connector.pooled c3 = []
       /\ Connector.sent c3
          = Connector.sent c ++ concat (map enc (before ++ after)).
Proof.
  intros Htr Hw Hp.
  assert (Hsent : Connector.sent c = sent (socket tr))
    by (unfold Connector.sent; now rewrite Htr).
  set (c1 := Connector.set_transmitter
               {| pool := pool tr ++ map enc before; socket := socket tr |}
               c).
  assert (H1 : io_run (map Connector.Transmit before) c = Some c1).
  { rewrite (transmits_writes before c tr Htr).
    rewrite writes_not_writable by exact Hw. reflexivity. }
  set (c1' := Connector.set_transmitter
                {| pool := (pool tr ++ map enc (before ++ [w'])) ++ [enc w];
                   socket := socket_set_writable true (socket tr) |} c).
  assert (H1' : io_run (map Connector.Transmit (before ++ [w'])
                        ++ [Connector.SocketWritable true;
                            Connector.Transmit w]) c = Some c1').
  { erewrite io_run_app
      by (rewrite (transmits_writes _ c tr Htr);
          rewrite writes_not_writable by exact Hw; reflexivity).
    cbn [Connector.io_run Connector.io_step mbind option_bind].
    unfold Connector.transmit.
    cbn [Connector.transmitter Connector.socket_writable
         Connector.set_transmitter fmap option_fmap option_map
         mbind option_bind].
    rewrite write_pooled.
    - reflexivity.
    - right. cbn [pool]. rewrite Hp, map_app. cbn.
      now destruct (map enc before). }
  destruct (runPool_loop_sent (pool tr ++ map enc before)
              (socket_set_writable true (socket tr))) as (Hs & Hwr & Hd).
  set (c2 := Connector.onConnect (Connector.socket_writable true c1)).
  assert (Htr2 : Connector.transmitter c2
                 = Some {| pool := [];
                           socket := runPool_loop (pool tr ++ map enc before)
                                       (socket_set_writable true (socket tr))
                        |}) by reflexivity.
  exists c1, c1'.
  eexists.
  split; [exact H1|].
  split; [unfold Connector.pooled; cbn; now rewrite Hp|].
  split; [rewrite Hsent; reflexivity|].
  split; [exact H1'|].
  split.
  { unfold Connector.pooled. cbn. rewrite Hp. cbn.
    rewrite !map_app, <- app_assoc. reflexivity. }
  split; [rewrite Hsent; reflexivity|].
  cbn zeta. fold c2.
  split; [reflexivity|]. split; [reflexivity|].
  split.
  { unfold Connector.sent. rewrite Htr2, Htr. cbn [socket]. rewrite Hs.
    cbn. now rewrite Hp. }
  rewrite (transmits_writes after c2 _ Htr2).
  rewrite writes_direct by first [exact Hwr|reflexivity].
  cbn [mbind option_bind].
  split; [reflexivity|]. split; [reflexivity|].
  unfold Connector.sent. rewrite Htr.
  cbn [Connector.transmitter Connector.set_transmitter socket sent].
  rewrite Hs. cbn. rewrite Hp. cbn.
  now rewrite map_app, concat_app, app_assoc.
Qed.

End PoolFacts.

Lemma pool_preserves_write_order_witness :
  let options := {| Connector.o_host := "192.168.56.1";
                    Connector.o_port := Some 8728;
                    Connector.o_timeout := None;
                    Connector.o_tls := Connector.TlsUndefined |} in
  let c := Connector.socket_writable false
             (Connector.connect (Connector.new (L := unit) options)) in
  let tr := {| Transmitter.pool := [];
               Transmitter.socket :=
                 Transmitter.socket_set_writable false
                   Transmitter.connecting_socket |} in
  let before := [Some "/login"; None] in
  let after := [Some "/quit"; None] in
  let enc := Transmitter.encoded code_units in
  (Connector.transmitter c = Some tr
   /\ Transmitter.writable (Transmitter.socket tr) = false
   /\ Transmitter.pool tr = [])
  /\ exists c1 c1' c3,
      Connector.io_run code_units (map Connector.Transmit before) c = Some c1
      /\ Connector.pooled c1 = map enc before
      /\ Connector.sent c1 = Connector.sent c
      /\ Connector.io_run code_units
           (map Connector.Transmit (before ++ [Some "=name=admin"])
            ++ [Connector.SocketWritable true; Connector.Transmit None]) c
         = Some c1'
      /\ Connector.pooled c1'
         = map enc (before ++ [Some "=name=admin"; None])
      /\ Connector.sent c1' = Connector.sent c
      /\ let c2 := Connector.onConnect
                     (Connector.socket_writable true c1) in
         Connector.io_run code_units [Connector.SocketConnects] c1 = Some c2
         /\ Connector.pooled c2 = []
         /\ Connector.sent c2 = Connector.sent c ++ concat (map enc before)
         /\ Connector.io_run code_units (map Connector.Transmit after) c2
            = Some c3
         /\ Connector.pooled c3 = []
         /\ Connector.sent c3
            = Connector.sent c ++ concat (map enc (before ++ after)).
Proof.
  cbn zeta. split; [repeat split; reflexivity|].
  exact (pool_preserves_write_order code_units
           (Connector.socket_writable false
              (Connector.connect
                 (Connector.new (L := unit)
                    {| Connector.o_host := "192.168.56.1";
                       Connector.o_port := Some 8728;
                       Connector.o_timeout := None;
                       Connector.o_tls := Connector.TlsUndefined |})))
           {| Transmitter.pool := [];
              Transmitter.socket :=
                Transmitter.socket_set_writable false
                  Transmitter.connecting_socket |}
           [Some "/login"; None] (Some "=name=admin") None
           [Some "/quit"; None] eq_refl eq_refl eq_refl).
Defined.

(** ** Strings: split and join *)

Section StringFacts.
Import JSString.

Lemma split_not_nil sep s : split sep s <> [].
Proof.
  destruct s as [|c s]; simpl; [discriminate|].
  destruct (Ascii.eqb c sep); [discriminate|].
  destruct (split sep s); discriminate.
Qed.

Lemma split_no_sep sep s : contains sep s = false -> split sep s = [s].
Proof.
  induction s as [|c s IH]; simpl; [reflexivity|].
  intros H. apply orb_false_iff in H as [Hc Hs].
  rewrite Hc, (IH Hs). reflexivity.
Qed.

Lemma split_at_first sep pre rest :
  contains sep pre = false ->
  split sep (pre +:+ String sep rest) = pre :: split sep rest.
Proof.
  induction pre as [|c pre IH]; simpl.
  - intros _. now rewrite Ascii.eqb_refl.
  - intros H. apply orb_false_iff in H as [Hc Hs].
    rewrite Hc, (IH Hs). reflexivity.
Qed.

Lemma join_cons_cons sep a b l :
  join sep (a :: b :: l) = a +:+ sep +:+ join sep (b :: l).
Proof. reflexivity. Qed.

Lemma join_split sep s : join (String sep EmptyString) (split sep s) = s.
Proof.
  induction s as [|c s IH]; simpl; [reflexivity|].
  destruct (Ascii.eqb_spec c sep) as [->|Hne].
  - pose proof (split_not_nil sep s) as Hnil.
    destruct (split sep s) as [|a l]; [congruence|].
    rewrite join_cons_cons, IH. reflexivity.
  - pose proof (split_not_nil sep s) as Hnil.
    destruct (split sep s) as [|a l]; [congruence|].
    destruct l as [|b l].
    + cbn [join] in *. now rewrite IH.
    + rewrite join_cons_cons in *. rewrite <- IH. reflexivity.
Qed.

End StringFacts.

(** ** Channel: sentences to records *)

Section ParseFacts.
Import Channel.

Lemma parseLine_key_value obj line :
  exists value, parseLine obj line = obj_set (line_key line) value obj.
Proof. eexists. reflexivity. Qed.

(** A well-formed attribute word [=key=value], and more generally a word
    [pre=key=value], stores [value] under [key]. *)
Lemma parseLine_word obj pre key value :
  JSString.contains "=" pre = false ->
  JSString.contains "=" key = false ->
  parseLine obj (pre +:+ "=" +:+ key +:+ "=" +:+ value)
  = obj_set key value obj.
Proof.
  intros Hpre Hkey. unfold parseLine.
  change (pre +:+ "=" +:+ key +:+ "=" +:+ value)
    with (pre +:+ String "=" (key +:+ String "=" value)).
  rewrite (split_at_first "=" pre) by exact Hpre.
  rewrite (split_at_first "=" key) by exact Hkey.
  cbn [tail head default from_option].
  now rewrite (join_split "=").
Qed.

Lemma line_key_word pre key value :
  JSString.contains "=" pre = false ->
  JSString.contains "=" key = false ->
  line_key (pre +:+ "=" +:+ key +:+ "=" +:+ value) = key.
Proof.
  intros Hpre Hkey. unfold line_key.
  change (pre +:+ "=" +:+ key +:+ "=" +:+ value)
    with (pre +:+ String "=" (key +:+ String "=" value)).
  rewrite (split_at_first "=" pre) by exact Hpre.
  rewrite (split_at_first "=" key) by exact Hkey.
  reflexivity.
Qed.

Lemma obj_set_lookup_ne key key' value (obj : gmap string string) :
  key' <> key -> obj_set key' value obj !! key = obj !! key.
Proof.
  intros Hne. unfold obj_set. destruct (decide (key' = "__proto__")); [reflexivity|].
  now apply lookup_insert_ne.
Qed.

Lemma fold_parseLine_other key (lines : list string) (obj : gmap string string) :
  Forall (fun line => line_key line <> key) lines ->
  fold_left parseLine lines obj !! key = obj !! key.
Proof.
  revert obj. induction lines as [|line lines IH]; intros obj Hall; [reflexivity|].
  inversion Hall as [|? ? Hline Hrest]; subst. simpl.
  rewrite IH by exact Hrest.
  destruct (parseLine_key_value obj line) as [v ->].
  now apply obj_set_lookup_ne.
Qed.

Example parsePacket_wire_words :
  parsePacket ["=name=ether1"; "=comment=a=b"; "=.id=*1"]
  = {[ "name" := "ether1"; "comment" := "a=b"; ".id" := "*1" ]}.
Proof. apply map_eq. intros k. vm_compute. reflexivity. Qed.

(** The record the data listener of a one-shot channel receives is built
    from the words after the reply word. *)
Lemma processPacket_data tag params reply word words :
  reply <> "!trap" ->
  data (processPacket (reply :: word :: words)
          (write params false true (new tag)).1).1
  = [parsePacket (word :: words)].
Proof.
  intros Hreply. unfold processPacket.
  cbn [head tail]. rewrite decide_False by congruence.
  cbn [length Nat.ltb Nat.leb andb write fst streaming negb readAndWrite
       add_listener set_listeners listeners new id data trapped reading
       written promises calls external_calls app].
  unfold emit at 1. cbn.
  repeat (case_decide; try congruence; cbn); reflexivity.
Qed.

(** The message a trap rejects with is read from the record built from
    the words after the reply word. *)
Lemma processPacket_trap tag params words :
  calls (processPacket ("!trap" :: words)
           (write params false true (new tag)).1).1
  = [Reject 0 (error_message (parsePacket words))].
Proof. reflexivity. Qed.

(** C4, as the code has it.  The words of a reply sentence after the
    reply word are split at the character [=]; the text before the first
    [=] (empty in a word [=key=value] of the protocol) is dropped, the text
    between the first and the second [=] is the key, and everything after
    the second [=], further [=] included, is the value.  So for a word
    [pre=key=value], with no [=] in [pre] and [key], with a key other than
    [__proto__] and not set again by a later word of the sentence, the
    record maps [key] to [value]; and the record handed to the listeners
    is built from the words after the reply word only. *)
Theorem parsePacket_attribute_words
    (tag : string) (params : list string) (reply : string)
    (before after : list string) (pre key value : string) :
  JSString.contains "=" pre = false ->
  JSString.contains "=" key = false ->
  key <> "__proto__" ->
  Forall (fun line => line_key line <> key) after ->
  let words := before ++ [pre +:+ "=" +:+ key +:+ "=" +:+ value] ++ after in
  let ch := (write params false true (new tag)).1 in
  parsePacket words !! key = Some value
  /\ (if decide (reply = "!trap")
      then calls (processPacket (reply :: words) ch).1
           = [Reject 0 (error_message (parsePacket words))]
      else data (processPacket (reply :: words) ch).1 = [parsePacket words]).
Proof.
  intros Hpre Hkey Hproto Hafter words ch. split.
  - unfold parsePacket, words. rewrite !fold_left_app. cbn [fold_left].
    rewrite fold_parseLine_other by exact Hafter.
    rewrite parseLine_word by assumption.
    unfold obj_set. rewrite decide_False by exact Hproto.
    apply lookup_insert_eq.
  - case_decide as Hr.
    + subst reply. apply processPacket_trap.
    + assert (exists w ws, words = w :: ws) as (w & ws & ->).
      { unfold words. destruct before; simpl; eauto. }
      now apply processPacket_data.
Qed.

Lemma parsePacket_attribute_words_witness :
  let words := ["=name=ether1"; "=comment=a=b"; "=.id=*1"] in
  let ch := (Channel.write ["/interface/print"] false true
               (Channel.new "t")).1 in
  (JSString.contains "=" "" = false
   /\ JSString.contains "=" "comment" = false
   /\ "comment" <> "__proto__"
   /\ Forall (fun line => Channel.line_key line <> "comment") ["=.id=*1"])
  /\ Channel.parsePacket words !! "comment" = Some "a=b"
  /\ Channel.data (Channel.processPacket ("!re" :: words) ch).1
     = [Channel.parsePacket words].
Proof.
  cbn zeta.
  assert (H1 : JSString.contains "=" "" = false) by reflexivity.
  assert (H2 : JSString.contains "=" "comment" = false) by reflexivity.
  assert (H3 : "comment" <> "__proto__") by discriminate.
  assert (H4 : Forall (fun line => Channel.line_key line <> "comment")
                 ["=.id=*1"]) by (repeat constructor; discriminate).
  split; [auto|].
  pose proof (parsePacket_attribute_words "t" ["/interface/print"] "!re"
                ["=name=ether1"] ["=.id=*1"] "" "comment" "a=b"
                H1 H2 H3 H4) as [Ha Hb].
  split; [exact Ha|].
  rewrite decide_False in Hb by discriminate. exact Hb.
Defined.

(** C4 as stated fails: the text before the first [=] is not the key.
    For the word [name=admin] the record has no field [name]; it maps
    [admin] to the empty string.  For the protocol's word [=name=admin]
    the text before the first [=] is empty, and the record has no field
    with the empty name. *)
Lemma parsePacket_first_eq_counterexample :
  parsePacket ["name=admin"] !! "name" = None
  /\ parsePacket ["name=admin"] !! "admin" = Some ""
  /\ parsePacket ["=name=admin"] !! "" = None
  /\ ~ (forall key value : string,
          JSString.contains "=" key = false ->
          parsePacket [key +:+ "=" +:+ value] !! key = Some value).
Proof.
  split; [vm_compute; reflexivity|].
  split; [vm_compute; reflexivity|].
  split; [vm_compute; reflexivity|].
  intros H. specialize (H "name" "admin" eq_refl).
  vm_compute in H. discriminate.
Qed.

End ParseFacts.

(** ** Channel: the deferred result *)

Section ChannelFacts.
Import Channel.

Lemma remove_first_Forall (P : registration -> Prop) r ls :
  Forall P ls -> Forall P (remove_first r ls).
Proof.
  induction 1 as [|x ls Hx Hls IH]; simpl; [constructor|].
  case_decide; [assumption | now constructor].
Qed.

Lemma filter_remove_first (P : registration -> bool) r ls :
  filter (fun x => P x = true) (remove_first r ls)
  = if P r then remove_first r (filter (fun x => P x = true) ls)
    else filter (fun x => P x = true) ls.
Proof.
  induction ls as [|x ls IH]; simpl.
  - now destruct (P r).
  - destruct (decide (x = r)) as [->|Hne].
    + destruct (P r) eqn:E.
      * rewrite filter_cons_True by exact E. simpl.
        now rewrite decide_True by reflexivity.
      * rewrite filter_cons_False by congruence. reflexivity.
    + destruct (P x) eqn:Ex.
      * rewrite !filter_cons_True by exact Ex. rewrite IH.
        destruct (P r); [|reflexivity]. simpl.
        now rewrite decide_False by exact Hne.
      * rewrite !filter_cons_False by congruence. exact IH.
Qed.

Lemma filter_swap (P Q : registration -> Prop)
    `{!forall r, Decision (P r)} `{!forall r, Decision (Q r)}
    (ls : list registration) :
  filter P (filter Q ls) = filter Q (filter P ls).
Proof.
  induction ls as [|x ls IH]; [reflexivity|].
  destruct (decide (P x)) as [HP|HP], (decide (Q x)) as [HQ|HQ];
    rewrite ?(filter_cons_True Q), ?(filter_cons_False Q),
            ?(filter_cons_True P), ?(filter_cons_False P),
            ?(filter_cons_True Q), ?(filter_cons_False Q) by assumption;
    now rewrite ?IH.
Qed.

(** A listener changes neither the flags nor the listeners of the
    channel; it may settle the promise, and only [onUnknown] throws. *)
Lemma run_listener_spec l ev p ch :
  let res := run_listener l ev p ch in
  trapped res.1 = trapped ch /\ reading res.1 = reading ch
  /\ streaming res.1 = streaming ch
  /\ listeners res.1 = listeners ch
  /\ calls res.1 = calls ch ++ settle_of l p
  /\ (l <> OnUnknown -> res.2 = Normal).
Proof.
  destruct l; cbn; try destruct p; cbn; rewrite ?app_nil_r;
    repeat split; congruence.
Qed.

(** What an emit does to a channel: the flags stay, listeners are only
    removed, and the promise is settled by the settling listeners of the
    snapshot only. *)
Lemma call_listeners_spec snapshot p ch :
  let res := call_listeners snapshot p ch in
  trapped res.1 = trapped ch /\ reading res.1 = reading ch
  /\ streaming res.1 = streaming ch
  /\ (forall P, Forall P (listeners ch) -> Forall P (listeners res.1))
  /\ (Forall unsettling snapshot -> calls res.1 = calls ch)
  /\ (Forall (fun r => is_reject r = false) snapshot ->
      filter (fun r => is_reject r = true) (listeners res.1)
      = filter (fun r => is_reject r = true) (listeners ch))
  /\ (Forall (fun r => r_listener r <> OnUnknown) snapshot -> res.2 = Normal).
Proof.
  revert ch. induction snapshot as [|r rest IH]; intros ch; cbn zeta.
  - cbn. repeat split; auto.
  - cbn [call_listeners].
    set (ch1 := if r_once r then set_listeners (remove_first r (listeners ch)) ch
                else ch).
    assert (H1 : trapped ch1 = trapped ch /\ reading ch1 = reading ch
                 /\ streaming ch1 = streaming ch /\ calls ch1 = calls ch
                 /\ (forall P, Forall P (listeners ch) -> Forall P (listeners ch1))
                 /\ (is_reject r = false ->
                     filter (fun r => is_reject r = true) (listeners ch1)
                     = filter (fun r => is_reject r = true) (listeners ch))).
    { unfold ch1. destruct (r_once r); cbn; repeat split; auto.
      - intros P HP. now apply remove_first_Forall.
      - intros Hr. now rewrite filter_remove_first, Hr. }
    destruct H1 as (Ht1 & Hr1 & Hs1 & Hc1 & Hl1 & Hf1).
    pose proof (run_listener_spec (r_listener r) (r_event r) p ch1) as H2.
    cbn zeta in H2.
    destruct (run_listener (r_listener r) (r_event r) p ch1) as [ch2 c2].
    cbn [fst snd] in H2. destruct H2 as (Ht2 & Hr2 & Hs2 & Hl2 & Hc2 & Hn2).
    destruct c2 as [|e].
    + specialize (IH ch2). cbn zeta in IH.
      destruct IH as (Ht & Hr & Hs & Hl & Hc & Hf & Hn).
      repeat split; try congruence.
      * intros P HP. apply Hl. rewrite Hl2. now apply Hl1.
      * intros Hall. inversion Hall as [|? ? Hu Hrest]; subst.
        rewrite Hc by exact Hrest. rewrite Hc2, Hu, app_nil_r. exact Hc1.
      * intros Hall. inversion Hall as [|? ? Hu Hrest]; subst.
        rewrite Hf by exact Hrest. rewrite Hl2. now apply Hf1.
      * intros Hall. inversion Hall; subst. now apply Hn.
    + cbn [fst snd]. repeat split; try congruence.
      * intros P HP. rewrite Hl2. now apply Hl1.
      * intros Hall. inversion Hall as [|? ? Hu Hrest]; subst.
        rewrite Hc2, Hu, app_nil_r. exact Hc1.
      * intros Hall. inversion Hall as [|? ? Hu Hrest]; subst.
        rewrite Hl2. now apply Hf1.
      * intros Hall. inversion Hall as [|? ? Hu Hrest]; subst.
        specialize (Hn2 Hu). discriminate.
Qed.

(** Which listeners a snapshot of properly registered listeners holds. *)
Lemma snapshot_proper ls ev :
  Forall proper ls ->
  let snapshot := filter (fun r => r_event r = ev) ls in
  (ev <> EDone ->
   Forall (fun r => is_reject r = true \/ unsettling r) snapshot)
  /\ (ev <> ETrap -> Forall (fun r => is_reject r = false) snapshot)
  /\ (ev <> EUnknown -> Forall (fun r => r_listener r <> OnUnknown) snapshot).
Proof.
  intros Hall. cbn zeta.
  repeat split; intros Hev; apply Forall_forall; intros r Hr;
    apply list_elem_of_filter in Hr as [Hre Hin];
    (eapply Forall_forall in Hall; [|exact Hin]);
    unfold proper, is_reject, unsettling in *;
    destruct (r_listener r); cbn; auto; congruence.
Qed.

Lemma unsettling_or_reject snapshot :
  Forall (fun r => is_reject r = true \/ unsettling r) snapshot ->
  Forall (fun r => is_reject r = false) snapshot ->
  Forall unsettling snapshot.
Proof.
  intros H1 H2. apply Forall_forall. intros r Hr.
  eapply Forall_forall in H1; [|exact Hr].
  eapply Forall_forall in H2; [|exact Hr].
  destruct H1 as [H1|H1]; [congruence | exact H1].
Qed.

Lemma no_reject_filter (ls : list registration) (P : registration -> Prop)
    `{!forall r, Decision (P r)} :
  filter (fun r => is_reject r = true) ls = [] ->
  Forall (fun r => is_reject r = false) (filter P ls).
Proof.
  intros Hnil. apply Forall_forall. intros r Hr.
  apply list_elem_of_filter in Hr as [_ Hin].
  destruct (is_reject r) eqn:E; [|reflexivity].
  exfalso. eapply filter_nil_not_elem_of; [exact Hnil| |exact Hin]. exact E.
Qed.

(** An emit that settles nothing and removes no reject listener. *)
Lemma emit_quiet ev p ch :
  Forall proper (listeners ch) ->
  ev <> EDone ->
  (ev = ETrap -> filter (fun r => is_reject r = true) (listeners ch) = []) ->
  let res := emit ev p ch in
  trapped res.1 = trapped ch /\ reading res.1 = reading ch
  /\ streaming res.1 = streaming ch
  /\ Forall proper (listeners res.1)
  /\ calls res.1 = calls ch
  /\ filter (fun r => is_reject r = true) (listeners res.1)
     = filter (fun r => is_reject r = true) (listeners ch)
  /\ (ev <> EUnknown -> res.2 = Normal).
Proof.
  intros Hprop Hdone Htrap. cbn zeta. unfold emit.
  pose proof (call_listeners_spec
                (filter (fun r => r_event r = ev) (listeners ch)) p ch) as H.
  cbn zeta in H. destruct H as (Ht & Hr & Hs & Hl & Hc & Hf & Hn).
  destruct (snapshot_proper (listeners ch) ev Hprop) as (S1 & S2 & S3).
  assert (Hnorej : Forall (fun r => is_reject r = false)
                     (filter (fun r => r_event r = ev) (listeners ch))).
  { destruct (decide (ev = ETrap)) as [He|He].
    - apply no_reject_filter; auto.
    - now apply S2. }
  repeat split; auto.
  apply Hc. apply unsettling_or_reject; auto.
Qed.

(** [close]: the reader is unregistered; nothing is settled. *)
Lemma close_spec force ch :
  Forall proper (listeners ch) ->
  let res := close force ch in
  res.2 = Normal /\ reading res.1 = false
  /\ trapped res.1 = trapped ch
  /\ Forall proper (listeners res.1)
  /\ calls res.1 = calls ch
  /\ (filter (fun r => is_reject r = true) (listeners ch) = [] ->
      filter (fun r => is_reject r = true) (listeners res.1) = []).
Proof.
  intros Hprop. cbn zeta. unfold close.
  pose proof (emit_quiet EClose PNone ch Hprop ltac:(discriminate)
                ltac:(discriminate)) as H.
  cbn zeta in H. destruct H as (Ht & Hr & Hs & Hl & Hc & Hf & Hn).
  specialize (Hn ltac:(discriminate)).
  destruct (emit EClose PNone ch) as [ch1 c1]. cbn [fst snd] in *. subst c1.
  destruct (negb (streaming ch1) || force); cbn; repeat split; auto;
    congruence.
Qed.

(** The settling calls and the removals of an emit in which no listener
    throws. *)
Lemma call_listeners_settles snapshot p ch :
  Forall (fun r => r_listener r <> OnUnknown) snapshot ->
  let res := call_listeners snapshot p ch in
  calls res.1
  = calls ch ++ flat_map (fun r => settle_of (r_listener r) p) snapshot
  /\ filter (fun r => is_reject r = true) (listeners res.1)
     = fold_left (fun F r => if r_once r && is_reject r
                             then remove_first r F else F)
         snapshot (filter (fun r => is_reject r = true) (listeners ch)).
Proof.
  revert ch. induction snapshot as [|r rest IH]; intros ch Hall; cbn zeta.
  - cbn. now rewrite app_nil_r.
  - inversion Hall as [|? ? Hr Hrest]; subst.
    cbn [call_listeners flat_map fold_left].
    set (ch1 := if r_once r then set_listeners (remove_first r (listeners ch)) ch
                else ch).
    assert (H1 : calls ch1 = calls ch
                 /\ filter (fun r => is_reject r = true) (listeners ch1)
                    = if r_once r && is_reject r
                      then remove_first r
                             (filter (fun r => is_reject r = true) (listeners ch))
                      else filter (fun r => is_reject r = true) (listeners ch)).
    { unfold ch1. destruct (r_once r); cbn; split; auto.
      now rewrite filter_remove_first. }
    destruct H1 as (Hc1 & Hf1).
    pose proof (run_listener_spec (r_listener r) (r_event r) p ch1) as H2.
    cbn zeta in H2.
    destruct (run_listener (r_listener r) (r_event r) p ch1) as [ch2 c2].
    cbn [fst snd] in H2. destruct H2 as (_ & _ & _ & Hl2 & Hc2 & Hn2).
    rewrite (Hn2 Hr).
    destruct (IH ch2 Hrest) as (Hc & Hf). cbn zeta in Hc, Hf.
    rewrite Hc, Hf, Hc2, Hl2, Hc1, Hf1. now rewrite <- app_assoc.
Qed.

(** Only the reject listeners of a trap snapshot count. *)
Lemma trap_snapshot_rejects snapshot p F :
  Forall (fun r => is_reject r = true \/ unsettling r) snapshot ->
  flat_map (fun r => settle_of (r_listener r) p) snapshot
  = flat_map (fun r => settle_of (r_listener r) p)
      (filter (fun r => is_reject r = true) snapshot)
  /\ fold_left (fun F r => if r_once r && is_reject r
                           then remove_first r F else F) snapshot F
     = fold_left (fun F r => if r_once r && is_reject r
                             then remove_first r F else F)
         (filter (fun r => is_reject r = true) snapshot) F.
Proof.
  revert F. induction snapshot as [|r rest IH]; intros F Hall; [now cbn|].
  inversion Hall as [|? ? Hr Hrest]; subst.
  destruct (is_reject r) eqn:E.
  - rewrite filter_cons_True by exact E. cbn [flat_map fold_left].
    destruct (IH (if r_once r && is_reject r then remove_first r F else F) Hrest)
      as (-> & ->). now rewrite E.
  - rewrite filter_cons_False by congruence. cbn [flat_map fold_left].
    destruct Hr as [Hr|Hr]; [congruence|].
    rewrite Hr, E, andb_false_r. cbn [app].
    now apply IH.
Qed.

(** The trap of an armed channel rejects its promise, once, with the
    message of the trap, and leaves no reject listener. *)
Lemma emit_trap_armed rec ch :
  Forall proper (listeners ch) ->
  filter (fun r => is_reject r = true) (listeners ch) = [reject_reg 0] ->
  let res := emit ETrap (PRecord rec) ch in
  trapped res.1 = trapped ch /\ reading res.1 = reading ch
  /\ Forall proper (listeners res.1)
  /\ calls res.1 = calls ch ++ [Reject 0 (error_message rec)]
  /\ filter (fun r => is_reject r = true) (listeners res.1) = [].
Proof.
  intros Hprop Hrej. cbn zeta. unfold emit.
  set (snapshot := filter (fun r => r_event r = ETrap) (listeners ch)).
  pose proof (call_listeners_spec snapshot (PRecord rec) ch) as H.
  cbn zeta in H. destruct H as (Ht & Hr & _ & Hl & _).
  destruct (snapshot_proper (listeners ch) ETrap Hprop) as (S1 & _ & S3).
  fold snapshot in S1, S3.
  specialize (S1 ltac:(discriminate)). specialize (S3 ltac:(discriminate)).
  destruct (call_listeners_settles snapshot (PRecord rec) ch S3) as (Hc & Hf).
  cbn zeta in Hc, Hf.
  destruct (trap_snapshot_rejects snapshot (PRecord rec)
              (filter (fun r => is_reject r = true) (listeners ch)) S1)
    as (Hc' & Hf').
  assert (Hsnap : filter (fun r => is_reject r = true) snapshot = [reject_reg 0]).
  { unfold snapshot. rewrite filter_swap, Hrej. reflexivity. }
  rewrite Hsnap in Hc', Hf'. rewrite Hc' in Hc. rewrite Hf', Hrej in Hf.
  repeat split; auto.
Qed.

Lemma same_settlement_refl ch :
  Forall proper (listeners ch) -> same_settlement ch ch.
Proof. intros H. repeat split; auto. Qed.

Lemma same_settlement_settled t ch ch' :
  same_settlement ch ch' -> settled_as t ch -> settled_as t ch'.
Proof.
  intros (Ht & Hr & Hs & Hp & Hc & Hf) [Hprop H]. split; [exact Hp|].
  destruct t as [r|].
  - destruct H as (H1 & H2 & H3). repeat split; congruence.
  - intros Hread. rewrite Hr in Hread.
    destruct (H Hread) as (H1 & H2 & H3). repeat split; congruence.
Qed.

Lemma emit_quiet_same ev p ch :
  Forall proper (listeners ch) ->
  ev <> EDone -> ev <> ETrap ->
  same_settlement ch (emit ev p ch).1.
Proof.
  intros Hprop Hd Ht.
  pose proof (emit_quiet ev p ch Hprop Hd ltac:(congruence)) as H.
  cbn zeta in H. destruct H as (H1 & H2 & H3 & H4 & H5 & H6 & _).
  repeat split; auto.
Qed.

(** A closed channel whose promise is not rejected, or one that stays
    rejected. *)
Lemma close_settled t force ch :
  Forall proper (listeners ch) ->
  (forall r, t = Some r -> rejected (error_message r) ch) ->
  settled_as t (close force ch).1.
Proof.
  intros Hprop Hrej.
  pose proof (close_spec force ch Hprop) as H. cbn zeta in H.
  destruct H as (_ & Hread & Ht & Hp & Hc & Hf).
  split; [exact Hp|]. destruct t as [r|].
  - destruct (Hrej r eq_refl) as (H1 & H2 & H3).
    repeat split; try congruence. now apply Hf.
  - intros Hr. congruence.
Qed.

(** One delivered sentence. *)
Lemma deliver_settled t packet ch :
  settled_as t ch ->
  settled_as
    match t with
    | Some r => Some r
    | None =>
        if reading ch && bool_decide (head packet = Some "!trap")
        then Some (parsePacket (tail packet)) else None
    end
    (deliver packet ch).1.
Proof.
  intros Hset. pose proof Hset as [Hprop Hstate].
  unfold deliver. destruct (reading ch) eqn:Hread; cbn [andb].
  2:{ cbn [fst]. now destruct t. }
  unfold processPacket.
  destruct (decide (head packet = Some "!trap")) as [Htrap|Hnotrap].
  - (* a trap *)
    rewrite bool_decide_eq_true_2 by exact Htrap.
    set (ch1 := {| id := id ch; data := data ch; trapped := true;
                   streaming := streaming ch; listeners := listeners ch;
                   reading := reading ch; written := written ch;
                   promises := promises ch; calls := calls ch;
                   external_calls := external_calls ch |}).
    destruct t as [r|].
    + destruct Hstate as (H1 & H2 & H3).
      pose proof (emit_quiet ETrap (PRecord (parsePacket (tail packet))) ch1
                    Hprop ltac:(discriminate) (fun _ => H3)) as H.
      cbn zeta in H. destruct H as (Ht & _ & _ & Hp & Hc & Hf & _).
      split; [exact Hp|]. repeat split.
      * rewrite Ht. reflexivity.
      * rewrite Hc. exact H2.
      * rewrite Hf. exact H3.
    + destruct (Hstate eq_refl) as (H1 & H2 & H3).
      pose proof (emit_trap_armed (parsePacket (tail packet)) ch1 Hprop H3)
        as H.
      cbn zeta in H. destruct H as (Ht & _ & Hp & Hc & Hf).
      split; [exact Hp|]. repeat split.
      * rewrite Ht. reflexivity.
      * rewrite Hc. cbn [calls ch1]. now rewrite H2.
      * exact Hf.
  - (* another reply *)
    rewrite bool_decide_eq_false_2 by exact Hnotrap.
    assert (Ht' : match t with
                  | Some r => Some r
                  | None => None
                  end = t) by now destruct t.
    rewrite Ht'. clear Ht'.
    set (r1 := if (0 <? length (tail packet))%nat && negb (streaming ch)
               then emit EData (PRecord (parsePacket (tail packet))) ch
               else (ch, Normal)).
    assert (Hsame1 : same_settlement ch r1.1).
    { unfold r1. destruct ((0 <? length (tail packet))%nat && negb (streaming ch)).
      - apply emit_quiet_same; auto; discriminate.
      - now apply same_settlement_refl. }
    pose proof (same_settlement_settled t _ _ Hsame1 Hset) as Hset1.
    destruct r1 as [ch1 [|e]]; cbn [fst] in *; [|exact Hset1].
    destruct Hset1 as [Hprop1 Hstate1].
    destruct (decide (head packet = Some "!re")).
    { destruct (streaming ch1); [|now split].
      apply (same_settlement_settled t ch1); [|now split].
      apply emit_quiet_same; auto; discriminate. }
    destruct (decide (head packet = Some "!done")).
    { destruct (trapped ch1) eqn:Htr; cbn [negb].
      - apply close_settled; [exact Hprop1|].
        intros r ->. exact Hstate1.
      - pose proof (call_listeners_spec
                      (filter (fun r => r_event r = EDone) (listeners ch1))
                      (PData (data ch1)) ch1) as H.
        cbn zeta in H. destruct H as (Ht & _ & _ & Hl & _ & _ & Hn).
        destruct (snapshot_proper (listeners ch1) EDone Hprop1) as (_ & _ & S3).
        specialize (Hn (S3 ltac:(discriminate))).
        unfold emit.
        destruct (call_listeners _ (PData (data ch1)) ch1) as [ch2 c2].
        cbn [fst snd] in *. subst c2.
        apply close_settled; [now apply Hl|].
        intros r ->. destruct Hstate1 as (H1 & _). congruence. }
    pose proof (emit_quiet_same EUnknown (PReply (head packet)) ch1 Hprop1
                  ltac:(discriminate) ltac:(discriminate)) as Hsame2.
    pose proof (same_settlement_settled t _ _ Hsame2 (conj Hprop1 Hstate1))
      as Hset2.
    destruct (emit EUnknown (PReply (head packet)) ch1) as [ch2 [|e]];
      cbn [fst] in *; [|exact Hset2].
    destruct Hset2 as [Hprop2 Hstate2].
    apply close_settled; [exact Hprop2|].
    intros r ->. exact Hstate2.
Qed.

Lemma deliver_all_settled packets : forall t ch,
  settled_as t ch ->
  settled_as
    match t with
    | Some r => Some r
    | None => first_trap_processed packets ch
    end
    (deliver_all packets ch).
Proof.
  induction packets as [|packet packets IH]; intros t ch Hset.
  - cbn. now destruct t.
  - cbn [deliver_all first_trap_processed].
    pose proof (IH _ _ (deliver_settled t packet ch Hset)) as H.
    destruct t as [r|]; [exact H|].
    destruct (reading ch && bool_decide (head packet = Some "!trap"));
      exact H.
Qed.

Lemma add_externals_spec exts : forall ch,
  let ch' := add_externals exts ch in
  listeners ch'
  = listeners ch
    ++ map (fun e => {| r_event := e.1.1; r_once := e.1.2;
                        r_listener := External e.2 |}) exts
  /\ trapped ch' = trapped ch /\ calls ch' = calls ch
  /\ promises ch' = promises ch.
Proof.
  induction exts as [|e exts IH]; intros ch; cbn zeta.
  - cbn. now rewrite app_nil_r.
  - cbn [add_externals fold_left].
    destruct (IH (add_listener e.1.1 e.1.2 (External e.2) ch))
      as (Hl & Ht & Hc & Hp).
    unfold add_externals in *. rewrite Hl, Ht, Hc, Hp. cbn.
    now rewrite <- app_assoc.
Qed.

(** A fresh channel written with a deferred result is armed. *)
Lemma write_armed tag params isStream exts :
  settled_as None
    (write params isStream true (add_externals exts (new tag))).1.
Proof.
  destruct (add_externals_spec exts (new tag)) as (Hl & Ht & Hc & Hp).
  cbn zeta in *. unfold write. cbn [fst]. unfold settled_as, armed.
  cbn [listeners readAndWrite add_listener set_listeners trapped calls
       promises reading].
  rewrite Hl, Ht, Hc, Hp. cbn [new listeners trapped calls promises].
  assert (Hext : forall es : list (event * bool * string),
             Forall proper
               (map (fun e => {| r_event := e.1.1; r_once := e.1.2;
                                 r_listener := External e.2 |}) es)
             /\ filter (fun r => is_reject r = true)
                  (map (fun e => {| r_event := e.1.1; r_once := e.1.2;
                                    r_listener := External e.2 |}) es) = []).
  { induction es as [|e es [IH1 IH2]]; cbn [map];
      [split; [constructor | reflexivity]|].
    split; [constructor; [exact I | exact IH1]|].
    rewrite filter_cons_False by (cbn; discriminate). exact IH2. }
  destruct (Hext exts) as [He1 He2].
  split.
  - repeat (apply Forall_app; split); repeat constructor; auto.
  - intros _. repeat split.
    rewrite !filter_app, He2. reflexivity.
Qed.

(** C2.  On a channel written with a deferred result, whatever the reply
    sentences delivered and whatever the listeners of the owner: once a
    trap sentence is processed, the calls of resolve and reject of the
    promise are one reject, with the message of that trap, and no
    resolve, also after every later sentence, a done included. *)
Theorem trap_rejects_once
    (tag : string) (params : list string) (isStream : bool)
    (exts : list (event * bool * string))
    (packets : list (list string)) (r : gmap string string) :
  let ch0 := (write params isStream true (add_externals exts (new tag))).1 in
  first_trap_processed packets ch0 = Some r ->
  calls (deliver_all packets ch0) = [Reject 0 (error_message r)]
  /\ trapped (deliver_all packets ch0) = true.
Proof.
  intros ch0 Hfirst.
  pose proof (deliver_all_settled packets None ch0
                (write_armed tag params isStream exts)) as H.
  cbn match in H. fold ch0 in H. rewrite Hfirst in H.
  destruct H as (_ & Ht & Hc & _). now split.
Qed.

Lemma trap_rejects_once_witness :
  let ch0 := (Channel.write ["/ip/address/print"] false true
                (Channel.add_externals [(Channel.EClose, true, "session")]
                   (Channel.new "k3x9"))).1 in
  let packets := [["!re"; "=address=10.0.0.1/24"];
                  ["!trap"; "=message=no such command"];
                  ["!done"]] in
  Channel.first_trap_processed packets ch0
  = Some {[ "message" := "no such command" ]}
  /\ Channel.calls (Channel.deliver_all packets ch0)
     = [Channel.Reject 0 "no such command"]
  /\ Channel.trapped (Channel.deliver_all packets ch0) = true.
Proof.
  cbn zeta.
  assert (H : Channel.first_trap_processed
                [["!re"; "=address=10.0.0.1/24"];
                 ["!trap"; "=message=no such command"];
                 ["!done"]]
                (Channel.write ["/ip/address/print"] false true
                   (Channel.add_externals [(Channel.EClose, true, "session")]
                      (Channel.new "k3x9"))).1
              = Some {[ "message" := "no such command" ]}).
  { vm_compute. reflexivity. }
  split; [exact H|].
  exact (trap_rejects_once "k3x9" ["/ip/address/print"] false
           [(Channel.EClose, true, "session")] _ _ H).
Defined.

(** The deferred result of a command answered by three data sentences and
    a done holds the three records in arrival order. *)
Example three_records_then_done :
  calls (deliver_all
           [["!re"; "=name=a"]; ["!re"; "=name=b"]; ["!re"; "=name=c"];
            ["!done"]]
           (write ["/ip/hotspot/user/print"] false true (new "t")).1)
  = [Resolve 0 [{[ "name" := "a" ]}; {[ "name" := "b" ]};
                {[ "name" := "c" ]}]].
Proof. vm_compute. reflexivity. Qed.

End ChannelFacts.

(** ** Stream: traps, pause and stop *)

Section StreamFacts.
Import RStream.






(** The stream [RouterOSAPI.stream] hands out, field by field. *)
Lemma streamed_eq params cb :
  streamed params cb
  = {| params := params; callback := cb;
       shouldDebounceEmptyData := true; streaming := true; pausing := false;
       paused := false; stopping := false; stopped := false;
       trapped := false; forcelyStop := false; currentSection := None;
       currentSectionPacket := [];
       debounces := [{| timeout := debounce_timeout params;
                        pending := false |}];
       sectionPacketSendingTimeout := false; close_listeners := 1;
       stream_listeners := 1; trap_listeners := 1; done_listeners := 1;
       error_listeners := 0; cancels := [];
       actions := [ChannelWrite params; Emit "started" None] |}.
Proof. reflexivity. Qed.




(** While the stopped or the stopping flag is set, [stop], with either
    argument, and its alias [close] return a resolved promise and leave
    the stream as it is: no flag changes and no cancel command is sent. *)
Lemma stop_when_stopped_or_stopping (s : rstream) (pausing_arg : bool) :
  stopped s = true \/ stopping s = true ->
  stop pausing_arg s = (s, Resolved)
  /\ close s = (s, Resolved)
  /\ step CallStop s = s /\ step CallClose s = s.
Proof.
  intros H. unfold step, close, stop.
  assert (stopped s || stopping s = true) as ->
    by (destruct H as [-> | ->]; [reflexivity | apply orb_true_r]).
  repeat split; reflexivity.
Qed.

(** C10 on the code.  A stream is stopped: [stop] sends the cancel
    command, the trap of the interrupted command and the answer to the
    cancel command arrive, and the stream is marked stopped.  Then the
    end of the interrupted command arrives: [onDone] closes the channel,
    and the close listener of [start] clears the stopped flag.  A second
    [stop] on this stream does not return at once: it sends a second
    cancel command and marks the stream stopping.  On a stream that was
    paused, the first [stop] itself closes the channel, so the stopped
    flag is cleared before [stop] returns, and a second [stop] changes
    the state again. *)
Theorem stop_again_after_close (params : list string) (cb : bool) :
  let interrupted : gmap string string := {[ "message" := "interrupted" ]} in
  let s0 := streamed params cb in
  let s1 := run [CallStop; ChannelTrap interrupted; CancelSettled true] s0 in
  let s2 := step ChannelDone s1 in
  let p0 := run [CallPause; ChannelTrap interrupted; CancelSettled true] s0 in
  let p1 := step CallStop p0 in
  (stopped s1 = true /\ stop false s1 = (s1, Resolved))
  /\ (stopped s2 = false /\ stopping s2 = false
      /\ (stop false s2).2 = AwaitCancel false
      /\ stopping (stop false s2).1 = true
      /\ actions (stop false s2).1 = actions s2 ++ [Cancel]
      /\ List.filter (fun a => match a with Cancel => true | _ => false end)
           (actions (stop false s2).1)
         = [Cancel; Cancel])
  /\ (paused p0 = true /\ stopped p1 = false
      /\ (stop false p1).2 = Resolved
      /\ stopped (stop false p1).1 = true
      /\ (stop false p1).1 <> p1).
Proof.
  cbn zeta. rewrite streamed_eq.
  generalize (debounce_timeout params). intros t.
  destruct cb; vm_compute; repeat split; try reflexivity; discriminate.
Qed.

End StreamFacts.

(** ** Stream: the empty-data debouncing *)

Section DebounceFacts.
Import RStream.

(** The delay is the interval of the command in milliseconds and 300. *)
Example debounce_timeout_interval :
  debounce_timeout ["/interface/monitor-traffic"; "=interface=ether1";
                    "=interval=5"] = Some 5300
  /\ debounce_timeout ["/ip/address/listen"] = Some 2300.
Proof. split; reflexivity. Qed.

(** The test in the callback of the debounce object lets the synthetic
    data through unless all four flags are set at once. *)
Lemma debounce_callback_guard s :
  stopped s && stopping s && paused s && pausing s = false ->
  debounce_callback s = debounce_run (onStream (PArray []) s).
Proof.
  intros H. unfold debounce_callback.
  destruct (stopped s), (stopping s), (paused s), (pausing s);
    try discriminate; reflexivity.
Qed.

(** C9 on the code.  A stream of [RouterOSAPI.stream] with the parameter
    [=interval=1] has a delay of 1300 ms, and its timer is not pending
    before the first data arrives.  [pause] and [stop] cancel the timer,
    but a data sentence that arrives before the router has answered the
    cancel command sets it again.  So on a stream that is paused (the
    trap and the end of the cancelled command and the answer to the
    cancel command have arrived), on a stream stopped by [stop], and on
    a stream stopped by a trap with an error message, the timer is
    pending; when it fires, the synthetic empty data is emitted and
    handed to the callback, and the timer is pending again. *)
Theorem synthetic_data_when_stopped_or_paused :
  let s0 := streamed ["/interface/monitor-traffic"; "=interface=ether1";
                      "=interval=1"] true in
  let packet : gmap string string := {[ "rx-bits-per-second" := "0" ]} in
  let failure : gmap string string := {[ "message" := "no such item" ]} in
  let interrupted : gmap string string := {[ "message" := "interrupted" ]} in
  let synthetic := [Emit "data" (Some (PArray []));
                    Callback None (Some (PArray []))] in
  let armed := [{| timeout := Some 1300; pending := true |}] in
  let s1 := run [ChannelStream packet; CallPause; ChannelStream packet;
                 ChannelTrap interrupted; CancelSettled true;
                 ChannelClosed] s0 in
  let s2 := run [ChannelStream packet; CallStop; ChannelStream packet;
                 ChannelTrap interrupted; ChannelClosed;
                 CancelSettled true] s0 in
  let s3 := run [ChannelStream packet; ChannelTrap failure] s0 in
  debounces s0 = [{| timeout := Some 1300; pending := false |}]
  /\ step (DebounceFires 0) s0 = s0
  /\ (paused s1 = true /\ streaming s1 = false /\ debounces s1 = armed
      /\ actions (step (DebounceFires 0) s1) = actions s1 ++ synthetic
      /\ debounces (step (DebounceFires 0) s1) = armed)
  /\ (stopped s2 = true /\ streaming s2 = false /\ debounces s2 = armed
      /\ actions (step (DebounceFires 0) s2) = actions s2 ++ synthetic
      /\ debounces (step (DebounceFires 0) s2) = armed)
  /\ (stopped s3 = true /\ debounces s3 = armed
      /\ actions (step (DebounceFires 0) s3) = actions s3 ++ synthetic
      /\ debounces (step (DebounceFires 0) s3) = armed).
Proof. vm_compute. repeat split; reflexivity. Qed.

End DebounceFacts.

(** ** Session: the port of the connection *)

Section PortFacts.
Import RouterOSAPI.

(** A connector constructed without a port has the TLS port 8729 when TLS
    is on, and no port at all when it is off. *)
Lemma connector_default_port host timeout :
  Connector.port
    (Connector.new (L := listener)
       {| Connector.o_host := host; Connector.o_port := None;
          Connector.o_timeout := timeout;
          Connector.o_tls := Connector.TlsBoolean true |}) = Some 8729
  /\ Connector.port
       (Connector.new (L := listener)
          {| Connector.o_host := host; Connector.o_port := None;
             Connector.o_timeout := timeout;
             Connector.o_tls := Connector.TlsUndefined |}) = None.
Proof. split; reflexivity. Qed.

(** A session always hands its own port to the connector, so that the
    connection of a session constructed without a port goes to 8728
    whatever the TLS option. *)
Lemma session_port_without_option options :
  o_port options = None -> connection_port options = Some 8728.
Proof.
  intros H. unfold connection_port, new, connector_options. cbn.
  rewrite H. cbn. destruct (o_tls options) as [|[]| |]; reflexivity.
Qed.

(** C8 on the code.  A session constructed without a port and with TLS
    enabled opens its connection to port 8728, the port of a session
    without TLS, and not to 8729. *)
Theorem tls_session_default_port :
  let plain := {| o_host := "192.168.56.1"; o_user := "admin";
                  o_password := "admin"; o_port := None; o_timeout := None;
                  o_tls := Connector.TlsUndefined; o_keepalive := false |} in
  let secure := {| o_host := "192.168.56.1"; o_user := "admin";
                   o_password := "admin"; o_port := None; o_timeout := None;
                   o_tls := Connector.TlsBoolean true;
                   o_keepalive := false |} in
  connection_port plain = Some 8728
  /\ connection_port secure = Some 8728
  /\ Connector.tls
       (Connector.new (L := listener) (connector_options (new secure)))
     = Connector.TlsObject
  /\ (let s := run [CallConnect] (new secure) in
      (fun c => Connector.port c) <$> heap s = [Some 8728]).
Proof. repeat split; reflexivity. Qed.

End PortFacts.

(** ** Session: one connection at a time *)

Section SessionFacts.
Import RouterOSAPI.

Lemma remove_first_Forall_conn (P : Connector.event * listener -> Prop) r ls :
  Forall P ls -> Forall P (Connector.remove_first r ls).
Proof.
  induction 1 as [|x ls Hx Hls IH]; simpl; [constructor|].
  case_decide; [assumption | now constructor].
Qed.

Lemma destroy_retired c : well_formed c -> retired (Connector.destroy c).
Proof.
  intros [Htr _]. unfold retired, Connector.destroy, Connector.destroyed.
  cbn. destruct (Connector.transmitter c); [now split | congruence].
Qed.

Lemma destroy_well_formed c :
  well_formed c -> well_formed (Connector.destroy c).
Proof.
  intros [Htr _]. split.
  - cbn. destruct (Connector.transmitter c); [discriminate | congruence].
  - unfold login_on_connected. cbn. constructor.
Qed.

Lemma destroy_keeps_retired c : retired c -> retired (Connector.destroy c).
Proof.
  intros [Hd Hl]. unfold retired, Connector.destroyed in *. cbn.
  destruct (Connector.transmitter c); [now split | discriminate].
Qed.

Lemma remove_well_formed r c :
  well_formed c ->
  well_formed
    (Connector.set_listeners
       (Connector.remove_first r (Connector.listeners c)) c).
Proof.
  intros [Htr Hl]. split; [exact Htr|].
  unfold login_on_connected in *. cbn. now apply remove_first_Forall_conn.
Qed.

Lemma remove_keeps_retired r c :
  retired c ->
  retired
    (Connector.set_listeners
       (Connector.remove_first r (Connector.listeners c)) c).
Proof.
  intros [Hd Hl]. split; [exact Hd|]. cbn. now rewrite Hl.
Qed.

Lemma onConnect_well_formed c :
  well_formed c -> well_formed (Connector.onConnect c).
Proof.
  intros [Htr Hl]. split; [|exact Hl].
  cbn. destruct (Connector.transmitter c); [discriminate | congruence].
Qed.

Lemma onConnect_keeps_retired c : retired c -> retired (Connector.onConnect c).
Proof.
  intros [Hd Hl]. split; [|exact Hl].
  unfold Connector.destroyed in *. cbn.
  destruct (Connector.transmitter c) as [tr|]; [|discriminate]. cbn.
  destruct (runPool_loop_sent (Transmitter.pool tr) (Transmitter.socket tr))
    as (_ & _ & ->).
  exact Hd.
Qed.

(** A method of one connector that keeps connectors well formed and
    retired ones retired keeps the state of the session in order. *)
Lemma connectors_ok_on_connector i f s :
  (forall c, well_formed c -> well_formed (f c)) ->
  (forall c, retired c -> retired (f c)) ->
  connectors_ok s -> connectors_ok (on_connector i f s).
Proof.
  intros Hwf Hret (H1 & H2 & H3). unfold connectors_ok, on_connector. cbn.
  split; [|split].
  - apply Forall_alter; [exact H1 | intros c _; apply Hwf].
  - intros j c Hj Hcur. rewrite list_lookup_alter in Hj.
    case_decide; [|eauto]. subst j.
    destruct (heap s !! i) as [c0|] eqn:E; [|discriminate].
    inversion Hj; subst. apply Hret. eauto.
  - intros Hc Hcd Hcg. apply Forall_alter; [now apply H3 | intros c _; apply Hret].
Qed.

Lemma emitting_ok_on_connector i k f s :
  (forall c, well_formed c -> well_formed (f c)) ->
  (forall c, retired c -> retired (f c)) ->
  emitting_ok i s -> emitting_ok i (on_connector k f s).
Proof.
  intros Hwf Hret (H1 & H2 & H3). unfold emitting_ok, on_connector. cbn.
  split; [|split].
  - apply Forall_alter; [exact H1 | intros c _; apply Hwf].
  - intros j c Hj Hne. rewrite list_lookup_alter in Hj.
    case_decide; [|eauto]. subst j.
    destruct (heap s !! k) as [c0|] eqn:E; [|discriminate].
    inversion Hj; subst. apply Hret. eauto.
  - intros Hcur c Hi. rewrite list_lookup_alter in Hi.
    case_decide; [|eauto]. subst k.
    destruct (heap s !! i) as [c0|] eqn:E; [|discriminate].
    inversion Hi; subst. apply Hret. eauto.
Qed.

(** Listeners that call no method of the session are called to no
    effect. *)
Lemma quiet_calls (called : list (string * list call)) s :
  Forall (fun r => r.2 = []) called ->
  fold_left (fun s r => fold_left (fun s c => run_call c s) r.2 s) called s
  = s.
Proof.
  induction 1 as [|r called Hr _ IH]; [reflexivity|].
  cbn [fold_left]. rewrite Hr. exact IH.
Qed.

(** With such listeners an event of the session is recorded, and an
    error event without a listener is thrown. *)
Lemma emit_observed name s :
  quiet s ->
  emit name s = set_emitted (emitted s ++ [name]) s
  \/ emit name s = crash (set_emitted (emitted s ++ [name]) s).
Proof.
  intros Hq. unfold emit. cbn zeta.
  change (listeners (set_emitted (emitted s ++ [name]) s))
    with (listeners s).
  destruct (filter (fun r => r.1 = name) (listeners s)) as [|r called] eqn:E.
  - case_decide; auto.
  - left. apply quiet_calls. rewrite <- E.
    apply Forall_forall. intros x Hx.
    apply list_elem_of_filter in Hx as [_ Hx].
    unfold quiet in Hq. eapply Forall_forall in Hq; eauto.
Qed.

Lemma run_listener_listeners l s :
  quiet s -> listeners (run_listener l s) = listeners s.
Proof.
  intros Hq. destruct l; cbn [run_listener]; try reflexivity.
  - unfold endListener.
    destruct (emit_observed "close" s Hq) as [-> | ->]; reflexivity.
  - assert (Hq' : quiet (set_flags false false (closing s) s)) by exact Hq.
    destruct (emit_observed "error" _ Hq') as [-> | ->]; reflexivity.
  - unfold destroy_current. destruct (connector s); reflexivity.
Qed.

Lemma call_listeners_listeners i snapshot : forall s,
  quiet s -> listeners (call_listeners i snapshot s) = listeners s.
Proof.
  induction snapshot as [|r rest IH]; intros s Hq; [reflexivity|].
  cbn [call_listeners]. destruct (crashed s); [reflexivity|].
  set (s1 := on_connector i _ s).
  assert (Hq1 : quiet s1) by exact Hq.
  rewrite IH by (unfold quiet; now rewrite run_listener_listeners).
  now rewrite run_listener_listeners.
Qed.

(** The only thing a listener does to a connector is destroy the current
    one. *)
Lemma run_listener_emitting i l s :
  quiet s -> emitting_ok i s -> emitting_ok i (run_listener l s).
Proof.
  intros Hq H. destruct l; cbn [run_listener]; try exact H.
  - (* the close listener of connect *)
    unfold endListener.
    destruct (emit_observed "close" s Hq) as [-> | ->]; exact H.
  - (* ConnectedErrorListener *)
    assert (Hq' : quiet (set_flags false false (closing s) s)) by exact Hq.
    destruct (emit_observed "error" _ Hq') as [-> | ->]; exact H.
  - (* CloseDestroy *)
    unfold destroy_current. destruct (connector s) as [k|] eqn:Hk; [|exact H].
    pose proof (emitting_ok_on_connector i k Connector.destroy s
                  destroy_well_formed destroy_keeps_retired H)
      as (H1 & H2 & H3).
    split; [exact H1|]. split; [exact H2|].
    cbn. intros _ c Hc.
    destruct (decide (k = i)) as [->|Hne].
    + unfold on_connector in Hc. cbn in Hc.
      rewrite list_lookup_alter_eq in Hc.
      destruct (heap s !! i) as [c0|] eqn:E; [|discriminate].
      inversion Hc; subst. apply destroy_retired.
      destruct H as (Hwf & _). eapply Forall_lookup_1 in Hwf; eauto.
    + apply H3; [|exact Hc]. cbn. rewrite Hk. congruence.
Qed.

Lemma call_listeners_emitting i snapshot : forall s,
  quiet s -> emitting_ok i s -> emitting_ok i (call_listeners i snapshot s).
Proof.
  induction snapshot as [|r rest IH]; intros s Hq H; [exact H|].
  cbn [call_listeners]. destruct (crashed s); [exact H|].
  set (s1 := on_connector i _ s).
  assert (Hq1 : quiet s1) by exact Hq.
  apply IH; [unfold quiet; now rewrite run_listener_listeners|].
  apply run_listener_emitting; [exact Hq1|].
  apply emitting_ok_on_connector;
    auto using remove_well_formed, remove_keeps_retired.
Qed.

Lemma emitting_of_current i s :
  connectors_ok s -> connector s = Some i -> emitting_ok i s.
Proof.
  intros (H1 & H2 & H3) Hcur. split; [exact H1|]. split.
  - intros j c Hj Hne. apply (H2 j c Hj). congruence.
  - intros Hne. congruence.
Qed.

Lemma no_listeners_elsewhere i ev s :
  connectors_ok s -> connector s <> Some i -> connector_listeners i ev s = [].
Proof.
  intros (_ & H2 & _) Hne. unfold connector_listeners.
  destruct (heap s !! i) as [c|] eqn:E; [|reflexivity].
  destruct (H2 i c E Hne) as [_ ->]. reflexivity.
Qed.

(** After the listeners, [destroy]: nothing is left in use. *)
Lemma finish_destroy_ok i s :
  emitting_ok i s -> connectors_ok (finish_destroy i s).
Proof.
  intros (H1 & H2 & H3). unfold finish_destroy.
  destruct (crashed s) eqn:Hcr.
  - split; [exact H1|]. split; [|congruence].
    intros j c Hj Hne. destruct (decide (j = i)) as [->|Hji]; eauto.
  - assert (Hall : Forall retired (heap (on_connector i Connector.destroy s))).
    { unfold on_connector. cbn. apply Forall_lookup_2. intros j c Hj.
      rewrite list_lookup_alter in Hj. case_decide; [|eauto]. subst j.
      destruct (heap s !! i) as [c0|] eqn:E; [|discriminate].
      inversion Hj; subst. apply destroy_retired.
      eapply Forall_lookup_1 in H1; eauto. }
    split; [|split].
    + unfold on_connector. cbn.
      apply Forall_alter; [exact H1 | intros c _; apply destroy_well_formed].
    + intros j c Hj _. eapply Forall_lookup_1 in Hall; eauto.
    + intros _ _ _. exact Hall.
Qed.

Lemma emit_then_destroy_ok i ev s :
  quiet s -> connectors_ok s ->
  connectors_ok
    (finish_destroy i (call_listeners i (connector_listeners i ev s) s)).
Proof.
  intros Hq H. destruct (decide (connector s = Some i)) as [Hcur|Hne].
  - apply finish_destroy_ok, call_listeners_emitting; [exact Hq|].
    now apply emitting_of_current.
  - rewrite no_listeners_elsewhere by assumption. cbn [call_listeners].
    unfold finish_destroy. destruct (crashed s); [exact H|].
    apply connectors_ok_on_connector;
      auto using destroy_well_formed, destroy_keeps_retired.
Qed.

(** The listeners of the connected event only log in. *)
Lemma call_login_ok i snapshot : forall s,
  Forall (fun r => r.2 = LoginOnConnected) snapshot ->
  connectors_ok s -> connectors_ok (call_listeners i snapshot s).
Proof.
  induction snapshot as [|r rest IH]; intros s Hall H; [exact H|].
  inversion Hall as [|? ? Hr Hrest]; subst.
  cbn [call_listeners]. destruct (crashed s); [exact H|].
  apply IH; [exact Hrest|]. rewrite Hr. cbn [run_listener].
  pose proof (connectors_ok_on_connector i
                (fun c => Connector.set_listeners
                            (Connector.remove_first r (Connector.listeners c)) c)
                s (remove_well_formed r) (remove_keeps_retired r) H)
    as (H1 & H2 & H3).
  split; [exact H1|]. split; [exact H2|]. cbn. discriminate.
Qed.

Lemma connected_listeners_login i s :
  connectors_ok s ->
  Forall (fun r => r.2 = LoginOnConnected)
    (connector_listeners i Connector.EvConnected s).
Proof.
  intros (H1 & _). unfold connector_listeners.
  destruct (heap s !! i) as [c|] eqn:E; [|constructor].
  eapply Forall_lookup_1 in H1; eauto. destruct H1 as [_ Hl].
  apply Forall_forall. intros r Hr.
  apply list_elem_of_filter in Hr as [Hev Hin].
  unfold login_on_connected in Hl.
  eapply Forall_forall in Hl; eauto.
Qed.

(** The current connector may be changed at will while the session is
    connected or connecting. *)
Lemma connectors_ok_busy i f s :
  (forall c, well_formed c -> well_formed (f c)) ->
  connector s = Some i ->
  connected s = true \/ connecting s = true ->
  connectors_ok s -> connectors_ok (on_connector i f s).
Proof.
  intros Hwf Hcur Hbusy (H1 & H2 & H3). unfold connectors_ok, on_connector.
  cbn. split; [|split].
  - apply Forall_alter; [exact H1 | intros c _; apply Hwf].
  - intros j c Hj Hne. rewrite list_lookup_alter_ne in Hj by congruence. eauto.
  - intros _ Hc Hg. destruct Hbusy; congruence.
Qed.

Lemma once_well_formed ev l c :
  ev <> Connector.EvConnected \/ l = LoginOnConnected ->
  well_formed c -> well_formed (Connector.once ev l c).
Proof.
  intros Hev [Htr Hl]. split; [exact Htr|].
  unfold login_on_connected in *. cbn. apply Forall_app. split; [exact Hl|].
  constructor; [|constructor]. cbn. intros ->. destruct Hev; congruence.
Qed.

Lemma removeListener_well_formed ev l c :
  well_formed c -> well_formed (Connector.removeListener ev l c).
Proof.
  intros [Htr Hl]. split; [exact Htr|].
  unfold login_on_connected in *. cbn.
  apply Forall_reverse, remove_first_Forall_conn, Forall_reverse. exact Hl.
Qed.

Lemma close_well_formed c : well_formed c -> well_formed (Connector.close c).
Proof. intros [Htr Hl]. now split. Qed.

Lemma connectors_ok_init options : connectors_ok (new options).
Proof.
  split; [constructor|]. split; [|intros; constructor].
  intros j c Hj. cbn in Hj. now rewrite lookup_nil in Hj.
Qed.

Lemma connectors_ok_flags cd cg cl s :
  (cd = false -> cg = false -> connected s = false /\ connecting s = false) ->
  connectors_ok s -> connectors_ok (set_flags cd cg cl s).
Proof.
  intros Hf (H1 & H2 & H3). split; [exact H1|]. split; [exact H2|].
  cbn. intros Hcr Hcd Hcg. destruct (Hf Hcd Hcg). now apply H3.
Qed.

(** One event keeps the listeners of the consumer quiet. *)
Lemma step_quiet e s : quiet s -> quiet_event e -> quiet (step e s).
Proof.
  intros Hq He. unfold step. destruct (crashed s); [exact Hq|].
  assert (Hfin : forall i s0, quiet s0 -> quiet (finish_destroy i s0)).
  { intros i s0 H0. unfold finish_destroy. now destruct (crashed s0). }
  assert (Hcall : forall i snapshot s0,
             quiet s0 -> quiet (call_listeners i snapshot s0)).
  { intros i snapshot s0 H0. unfold quiet.
    now rewrite call_listeners_listeners. }
  destruct e as [ | | | name body | | i | i | i | i | ok].
  - unfold connect. destruct (connecting s), (connected s); exact Hq.
  - unfold close. destruct (closing s), (connected s); try exact Hq.
    cbn. destruct (connector s); exact Hq.
  - exact Hq.
  - cbn in He. subst body. unfold quiet. cbn.
    apply Forall_app. split; [exact Hq|]. now repeat constructor.
  - unfold decreaseChannelsOpen. destruct (0 <? channelsOpen s); exact Hq.
  - unfold connector_emit. apply Hcall. exact Hq.
  - unfold connector_emit. now apply Hfin, Hcall.
  - unfold connector_emit. now apply Hfin, Hcall.
  - destruct (heap s !! i); [|exact Hq].
    destruct (connector_listeners i Connector.EvError s); [exact Hq|].
    now apply Hfin, Hcall.
  - unfold login_settled. destruct (logins s); [exact Hq|].
    destruct ok.
    + cbn. destruct (connector s); exact Hq.
    + unfold destroy_current. cbn. destruct (connector s); exact Hq.
Qed.

(** One event keeps the connectors in order. *)
Lemma step_ok e s :
  quiet s -> connectors_ok s -> connectors_ok (step e s).
Proof.
  intros Hq H. unfold step. destruct (crashed s) eqn:Hcr; [exact H|].
  destruct e as [ | | | name body | | i | i | i | i | ok].
  - (* connect *)
    unfold connect.
    destruct (connecting s) eqn:Hcg; [exact H|].
    destruct (connected s) eqn:Hcd; [exact H|].
    destruct H as (H1 & H2 & H3).
    specialize (H3 Hcr Hcd Hcg).
    split; [|split]; cbn.
    + apply Forall_app. split; [exact H1|]. constructor; [|constructor].
      split; [discriminate|].
      unfold login_on_connected. cbn.
      repeat constructor; cbn; congruence.
    + intros j c Hj Hne.
      apply lookup_app_Some in Hj as [Hj|[Hlen Hj]].
      * eapply Forall_lookup_1 in H3; eauto.
      * destruct (j - length (heap s))%nat as [|n] eqn:E; [|discriminate].
        exfalso. apply Hne. f_equal. lia.
    + discriminate.
  - (* close *)
    unfold close.
    destruct (closing s) eqn:Hcl; [exact H|].
    destruct (connected s) eqn:Hcd; cbn [negb]; [|exact H].
    assert (H' : connectors_ok (set_flags true (connecting s) true s))
      by (apply connectors_ok_flags; [discriminate | exact H]).
    destruct (connector s) as [i|] eqn:Hcur; cbn [connector set_flags];
      rewrite ?Hcur; [|exact H'].
    apply connectors_ok_busy; auto.
    intros c Hc.
    assert (well_formed (Connector.once Connector.EvClose CloseDestroy c))
      by (apply once_well_formed; [left; discriminate | exact Hc]).
    destruct (Connector.closing _); [assumption|].
    now apply close_well_formed.
  - (* write *) exact H.
  - (* a listener is registered *) exact H.
  - (* a channel closes *)
    unfold decreaseChannelsOpen. destruct (0 <? channelsOpen s); exact H.
  - (* the socket connects *)
    unfold connector_emit.
    pose proof (connectors_ok_on_connector i Connector.onConnect s
                  onConnect_well_formed onConnect_keeps_retired H) as H'.
    apply call_login_ok; [|exact H'].
    now apply connected_listeners_login.
  - (* the socket ends *) now apply emit_then_destroy_ok.
  - (* the socket times out *) now apply emit_then_destroy_ok.
  - (* the socket fails *)
    destruct (heap s !! i) as [c|] eqn:E; [|exact H].
    destruct (connector_listeners i Connector.EvError s) as [|r rest] eqn:El.
    + destruct H as (H1 & H2 & H3). split; [exact H1|]. split; [exact H2|].
      cbn. discriminate.
    + rewrite <- El. now apply emit_then_destroy_ok.
  - (* a login is settled *)
    unfold login_settled. destruct (logins s) as [|n]; [exact H|].
    assert (H' : connectors_ok (set_logins n s)) by exact H.
    destruct ok.
    + destruct (connector s) as [i|] eqn:Hcur; cbn [connector set_flags set_logins];
        rewrite ?Hcur.
      * apply connectors_ok_busy; auto.
        -- intros c Hc.
           apply once_well_formed; [left; discriminate|].
           apply once_well_formed; [left; discriminate|].
           now apply removeListener_well_formed, removeListener_well_formed.
        -- apply connectors_ok_flags; [discriminate | exact H'].
      * destruct H as (H1 & H2 & H3). split; [exact H1|]. split; [exact H2|].
        cbn. intros _ _ _. apply Forall_lookup_2. intros j c Hj.
        apply (H2 j c Hj). rewrite Hcur. discriminate.
    + unfold destroy_current. cbn [connector set_logins].
      destruct (connector s) as [i|] eqn:Hcur; cbn [default from_option].
      * pose proof (connectors_ok_on_connector i Connector.destroy
                      (set_logins n s) destroy_well_formed
                      destroy_keeps_retired H') as (H1 & H2 & H3).
        split; [exact H1|]. split; [exact H2|].
        cbn. intros _ _ _. apply Forall_lookup_2. intros j c Hj.
        destruct (decide (j = i)) as [->|Hne].
        -- rewrite list_lookup_alter_eq in Hj.
           destruct (heap s !! i) as [c0|] eqn:E; [|discriminate].
           inversion Hj; subst. apply destroy_retired.
           destruct H as (Hwf & _). eapply Forall_lookup_1 in Hwf; eauto.
        -- apply (H2 j c); [exact Hj|]. cbn. rewrite Hcur. congruence.
      * destruct H as (H1 & H2 & H3). split; [exact H1|]. split; [exact H2|].
        cbn. intros _ _ _. apply Forall_lookup_2. intros j c Hj.
        apply (H2 j c Hj). rewrite Hcur. discriminate.
Qed.

Lemma run_ok es : forall s,
  Forall quiet_event es -> quiet s -> connectors_ok s ->
  connectors_ok (run es s) /\ quiet (run es s).
Proof.
  induction es as [|e es IH]; intros s Hes Hq H; [now split|].
  inversion Hes as [|? ? He Hes']; subst.
  cbn. apply IH; [exact Hes'|now apply step_quiet|now apply step_ok].
Qed.

(** When all the connectors but one are destroyed, at most one is in
    use. *)
Lemma at_most_one_live (l : list (Connector.connector listener)) :
  forall cur : option nat,
  (forall j c, l !! j = Some c -> cur <> Some j ->
               Connector.destroyed c = true) ->
  (length (filter (fun c => Connector.destroyed c = false) l) <= 1)%nat.
Proof.
  induction l as [|c l IH]; intros cur H; [cbn; lia|].
  destruct (decide (cur = Some 0%nat)) as [->|Hne].
  - assert (Hall : Forall (fun c => Connector.destroyed c = true) l).
    { apply Forall_lookup_2. intros j c0 Hj. apply (H (S j) c0 Hj). congruence. }
    assert (Hnil : filter (fun c => Connector.destroyed c = false) l = []).
    { clear -Hall. induction Hall as [|c0 l Hc0 _ IHl]; [reflexivity|].
      rewrite filter_cons_False by congruence. exact IHl. }
    rewrite filter_cons. rewrite Hnil. case_decide; cbn; lia.
  - rewrite filter_cons_False
      by (rewrite (H 0%nat c eq_refl Hne); discriminate).
    apply (IH (match cur with Some (S k) => Some k | _ => None end)).
    intros j c0 Hj Hc. apply (H (S j) c0 Hj).
    destruct cur as [[|k]|]; congruence.
Qed.

Lemma emit_heap name s : quiet s -> heap (emit name s) = heap s.
Proof.
  intros Hq. destruct (emit_observed name s Hq) as [-> | ->]; reflexivity.
Qed.

Lemma run_listener_heap_length l s :
  quiet s -> length (heap (run_listener l s)) = length (heap s).
Proof.
  intros Hq. destruct l; cbn [run_listener]; try reflexivity.
  - change (length (heap (emit "close" s)) = length (heap s)).
    now rewrite emit_heap.
  - now rewrite emit_heap.
  - unfold destroy_current.
    destruct (connector s); cbn; now rewrite ?length_alter.
Qed.

(** With quiet listeners, only [connect] constructs a connector. *)
Lemma step_heap_length e s :
  quiet s ->
  e <> CallConnect -> length (heap (step e s)) = length (heap s).
Proof.
  intros Hq.
  assert (Hcall : forall i snapshot s0,
             quiet s0 ->
             length (heap (call_listeners i snapshot s0)) = length (heap s0)).
  { intros i snapshot. induction snapshot as [|r rest IH]; intros s0 H0;
      [reflexivity|].
    cbn [call_listeners]. destruct (crashed s0); [reflexivity|].
    set (s1 := on_connector i _ s0).
    assert (H1 : quiet s1) by exact H0.
    rewrite IH by (unfold quiet; now rewrite run_listener_listeners).
    rewrite run_listener_heap_length by exact H1.
    unfold s1. cbn. now rewrite length_alter. }
  assert (Hfin : forall i s0,
             length (heap (finish_destroy i s0)) = length (heap s0)).
  { intros i s0. unfold finish_destroy. destruct (crashed s0); [reflexivity|].
    cbn. now rewrite length_alter. }
  intros He. unfold step. destruct (crashed s); [reflexivity|].
  destruct e as [ | | | name body | | i | i | i | i | ok];
    try congruence; try reflexivity.
  - unfold close. destruct (closing s), (connected s); try reflexivity.
    cbn. destruct (connector s); cbn; now rewrite ?length_alter.
  - unfold decreaseChannelsOpen.
    destruct (0 <? channelsOpen s); reflexivity.
  - unfold connector_emit. rewrite Hcall by exact Hq.
    cbn. now rewrite length_alter.
  - unfold connector_emit. now rewrite Hfin, Hcall.
  - unfold connector_emit. now rewrite Hfin, Hcall.
  - destruct (heap s !! i); [|reflexivity].
    destruct (connector_listeners i Connector.EvError s); [reflexivity|].
    now rewrite Hfin, Hcall.
  - unfold login_settled. destruct (logins s); [reflexivity|].
    destruct ok; cbn.
    + destruct (connector s); cbn; now rewrite ?length_alter.
    + unfold destroy_current. cbn. destruct (connector s); cbn;
        now rewrite ?length_alter.
Qed.

(** While the listeners the consumer registers on the session call none
    of its methods: in every state a session reaches, by any sequence of
    connect, close and write calls, registrations of listeners, closes
    of channels, socket events of any of its connectors and settled
    logins, at most one connector has a socket that is not destroyed;
    and an event that constructs a connector is a [connect] on a session
    that is neither connected nor connecting, all of whose connectors
    are destroyed. *)
Lemma one_live_connector_quiet (options : options) (es : list event) :
  Forall quiet_event es ->
  let s := run es (new options) in
  (length (live_connectors s) <= 1)%nat
  /\ forall e,
       length (heap (step e s)) <> length (heap s) ->
       e = CallConnect /\ connected s = false /\ connecting s = false
       /\ Forall (fun c => Connector.destroyed c = true) (heap s).
Proof.
  intros Hes. cbn zeta.
  assert (Hq0 : quiet (new options)) by constructor.
  destruct (run_ok es _ Hes Hq0 (connectors_ok_init options))
    as ((H1 & H2 & H3) & Hq).
  set (s := run es (new options)) in *.
  split.
  - unfold live_connectors. apply (at_most_one_live _ (connector s)).
    intros j c Hj Hne. now destruct (H2 j c Hj Hne).
  - intros e Hlen.
    assert (He : e = CallConnect).
    { destruct e; try reflexivity;
        exfalso; apply Hlen; now apply step_heap_length. }
    subst e.
    split; [reflexivity|].
    unfold step, connect in Hlen.
    destruct (crashed s) eqn:Hcr; [congruence|].
    destruct (connecting s) eqn:Hcg; [congruence|].
    destruct (connected s) eqn:Hcd; [congruence|].
    split; [reflexivity|]. split; [reflexivity|].
    eapply Forall_impl; [apply (H3 eq_refl eq_refl eq_refl)|].
    intros c [Hd _]. exact Hd.
Qed.

(** A session with an error listener that loses its connection to a
    timeout and connects again: the first connector is destroyed before
    the second one is constructed. *)
Example reconnect_after_timeout :
  let options := {| o_host := "192.168.56.1"; o_user := "admin";
                    o_password := "admin"; o_port := Some 8728;
                    o_timeout := None; o_tls := Connector.TlsUndefined;
                    o_keepalive := false |} in
  let s := run [CallOn "error" []; CallConnect; SockConnect 0;
                LoginSettled true; SockTimeout 0] (new options) in
  (connected s, connecting s, crashed s) = (false, false, false)
  /\ Connector.destroyed <$> heap s = [true]
  /\ Connector.destroyed <$> heap (step CallConnect s) = [true; false]
  /\ connector (step CallConnect s) = Some 1%nat.
Proof. vm_compute. repeat split; reflexivity. Qed.

(** Without an error listener on the session the error event of
    [connectedErrorListener] is thrown: the exception is not caught, and
    the run ends before the connector is destroyed. *)
Example uncaught_error_ends_the_run :
  let options := {| o_host := "192.168.56.1"; o_user := "admin";
                    o_password := "admin"; o_port := Some 8728;
                    o_timeout := None; o_tls := Connector.TlsUndefined;
                    o_keepalive := false |} in
  let s := run [CallConnect; SockConnect 0; LoginSettled true; SockTimeout 0]
             (new options) in
  crashed s = true
  /\ Connector.destroyed <$> heap s = [false]
  /\ step CallConnect s = s.
Proof. vm_compute. repeat split; reflexivity. Qed.

(** C7 on the code.  A session whose consumer listens for its error
    event and connects again in the listener, as one does to reconnect.
    The session is connected and the socket of its connector times out:
    [connectedErrorListener] clears the connected and connecting flags
    and emits the error event, the listener of the consumer calls
    [connect], which finds the session neither connected nor connecting
    and constructs a second connector; only then does [onTimeout] of the
    first connector go on to [destroy] it.  When [connect] constructs
    the second connector the first one is not destroyed, and two
    connectors are in use; the first one is destroyed afterwards. *)
Theorem second_connector_before_destroy (options : options) :
  let s := run [CallOn "error" [DoConnect]; CallConnect; SockConnect 0;
                LoginSettled true] (new options) in
  let s1 := connector_emit 0 Connector.EvTimeout s in
  (connected s = true /\ connector s = Some 0%nat
   /\ Connector.destroyed <$> heap s = [false])
  /\ (emitted s1 = ["error"] /\ crashed s1 = false
      /\ connecting s1 = true /\ connector s1 = Some 1%nat
      /\ Connector.destroyed <$> heap s1 = [false; false]
      /\ length (live_connectors s1) = 2%nat)
  /\ step (SockTimeout 0) s = finish_destroy 0 s1
  /\ Connector.destroyed <$> heap (step (SockTimeout 0) s) = [true; false].
Proof.
  destruct options as [h u p po t tl k].
  cbn zeta. vm_compute. repeat split; reflexivity.
Qed.

End SessionFacts.

(** ** Session: the response to the login challenge *)

Section LoginFacts.
Import RouterOSAPI.

Example md5_known_answers :
  JSString.hex_string (MD5.digest []) = "d41d8cd98f00b204e9800998ecf8427e"
  /\ JSString.hex_string (MD5.digest (code_units "abc"))
     = "900150983cd24fb0d6963f7d28e17f72".
Proof. split; vm_compute; reflexivity. Qed.

Lemma write_chars_singletons (bytes : list Z) : forall offset buf,
  (offset + length bytes <= length buf)%nat ->
  Buffer.write_chars (map (fun b => [b]) bytes) offset buf
  = take offset buf ++ bytes ++ drop (offset + length bytes) buf.
Proof.
  induction bytes as [|b bytes IH]; intros offset buf Hlen.
  - cbn. rewrite Nat.add_0_r. now rewrite take_drop.
  - cbn [map Buffer.write_chars length] in *.
    assert (Hfit : (offset + 1 <=? length buf)%nat = true)
      by (apply Nat.leb_le; lia).
    rewrite Hfit.
    assert (Hst : length (Buffer.store [b] offset buf) = length buf).
    { unfold Buffer.store. rewrite !length_app, length_take, length_drop.
      cbn. lia. }
    rewrite IH by (rewrite Hst; lia).
    unfold Buffer.store. cbn [length].
    assert (Hpre : length (take offset buf ++ [b]) = (offset + 1)%nat).
    { rewrite length_app, length_take. cbn. lia. }
    rewrite (app_assoc (take offset buf) [b]).
    rewrite take_app_length' by now rewrite Hpre.
    rewrite (drop_app_add' _ _ (offset + 1)) by now rewrite Hpre.
    rewrite drop_drop. rewrite <- !app_assoc. cbn [app].
    replace (offset + 1 + length bytes)%nat
      with (offset + S (length bytes))%nat by lia.
    reflexivity.
Qed.

Lemma utf8_chars_ascii s :
  is_ascii s = true ->
  JSString.utf8_chars s = map (fun b => [b]) (code_units s).
Proof.
  unfold is_ascii, JSString.utf8_chars, code_units.
  induction (String.list_ascii_of_string s) as [|c cs IH]; [reflexivity|].
  cbn [forallb map]. intros H. apply andb_true_iff in H as [Hc Hcs].
  rewrite (IH Hcs). f_equal.
  unfold JSString.utf8_char. apply Nat.ltb_lt in Hc.
  unfold Ascii.nat_of_ascii in Hc.
  assert (Hz : (Z.of_N (Ascii.N_of_ascii c) <? 128) = true)
    by (apply Z.ltb_lt; lia).
  now rewrite Hz.
Qed.

Lemma code_units_length s : length (code_units s) = String.length s.
Proof.
  unfold code_units. rewrite length_map.
  induction s as [|c s IH]; cbn; [reflexivity | now rewrite IH].
Qed.

Lemma hex_decode_length n : forall s,
  String.length s = (2 * n)%nat ->
  forallb (fun c => bool_decide (is_Some (JSString.hex_digit c)))
    (String.list_ascii_of_string s) = true ->
  length (JSString.hex_decode s) = n.
Proof.
  induction n as [|n IH]; intros s Hlen Hall.
  - destruct s; [reflexivity | discriminate].
  - destruct s as [|a [|b s]]; try (cbn in Hlen; lia).
    cbn [String.list_ascii_of_string forallb] in Hall.
    apply andb_true_iff in Hall as [Ha Hall].
    apply andb_true_iff in Hall as [Hb Hall].
    apply bool_decide_eq_true in Ha as [x Hx].
    apply bool_decide_eq_true in Hb as [y Hy].
    cbn [JSString.hex_decode]. rewrite Hx, Hy. cbn [length]. f_equal.
    apply IH; [cbn in Hlen; lia | exact Hall].
Qed.

(** For a password of ASCII characters and a challenge of 32 hexadecimal
    digits the response is the one the protocol asks for: the text [00]
    and the lower-case hexadecimal MD5 digest of a zero byte, the bytes of
    the password, and the 16 bytes of the challenge. *)
Lemma login_response_ascii (md5 : list Z -> list Z) password ret :
  is_ascii password = true -> is_hex32 ret = true ->
  login_response md5 password ret
  = Some (expected_response md5 (code_units password) ret).
Proof.
  intros Hascii Hhex. unfold login_response, expected_response.
  assert (Hch : login_challenge password ret
                = Some ([0] ++ code_units password ++ JSString.hex_decode ret)).
  2:{ rewrite Hch. reflexivity. }
  unfold is_hex32 in Hhex. apply andb_true_iff in Hhex as [Hlen Hall].
  apply Nat.eqb_eq in Hlen.
  pose proof (hex_decode_length 16 ret Hlen Hall) as Hdec.
  unfold login_challenge, Buffer.write.
  rewrite (utf8_chars_ascii (String "000" password)) by exact Hascii.
  set (n := String.length password).
  assert (Halloc : length (Buffer.alloc (Z.of_nat n + 17)) = (n + 17)%nat).
  { rewrite length_alloc. lia. }
  rewrite write_chars_singletons
    by (rewrite Halloc, code_units_length; cbn; fold n; lia).
  rewrite code_units_length. cbn [String.length]. fold n.
  rewrite take_0, app_nil_l.
  change (code_units (String "000" password))
    with (0 :: code_units password). cbn [app].
  unfold Buffer.write_hex. rewrite Hlen. cbn [Nat.even negb].
  set (buf := 0 :: code_units password
              ++ drop (0 + S n) (Buffer.alloc (Z.of_nat n + 17))).
  assert (Hbuf : length buf = (n + 17)%nat).
  { unfold buf. cbn [length]. rewrite length_app, length_drop, Halloc,
      code_units_length. fold n. lia. }
  rewrite Hbuf.
  assert (Hrange : ((n + 17 <? n + 1)%nat || (n + 17 <? 32 / 2)%nat) = false).
  { apply orb_false_iff. split; apply Nat.ltb_ge.
    - lia.
    - change (32 / 2)%nat with 16%nat. lia. }
  rewrite Hrange.
  f_equal. unfold Buffer.store.
  change (32 / 2)%nat with 16%nat.
  replace (Nat.min 16 (n + 17 - (n + 1))) with 16%nat by lia.
  rewrite (take_ge (JSString.hex_decode ret)) by lia.
  rewrite drop_ge by lia. rewrite app_nil_r.
  unfold buf.
  change (0 :: code_units password
          ++ drop (0 + S n) (Buffer.alloc (Z.of_nat n + 17)))
    with ((0 :: code_units password)
          ++ drop (0 + S n) (Buffer.alloc (Z.of_nat n + 17))).
  rewrite take_app_length'
    by (cbn [length]; rewrite code_units_length; fold n; lia).
  reflexivity.
Qed.

Example login_known_answer :
  RouterOSAPI.login_response MD5.digest "admin"
    "0123456789abcdefABCDEF0123456789"
  = Some "008fab0f459d1ecbc6698c733b726fe4b7".
Proof.
  rewrite (login_response_ascii MD5.digest "admin"
             "0123456789abcdefABCDEF0123456789" eq_refl eq_refl).
  vm_compute. reflexivity.
Qed.

(** C3 on the code.  For the password of the one character U+00E9 the
    buffer that is hashed holds the zero byte, the first byte only of the
    UTF-8 encoding of the password, and the 16 bytes of the challenge:
    the buffer has room for one byte a character.  The response differs
    from the one the protocol asks for, whether the bytes of the password
    are taken in UTF-8 or in win1252. *)
Theorem login_response_non_ascii_password :
  let password := String "233" "" in
  let ret := "0123456789abcdefABCDEF0123456789" in
  login_challenge password ret = Some ([0; 195] ++ JSString.hex_decode ret)
  /\ login_response MD5.digest password ret
     = Some "00cb9a27753407bd1f9a313490ab3b61da"
  /\ expected_response MD5.digest [195; 169] ret
     = "007123df36d365510134b66d6f680b0e8d"
  /\ expected_response MD5.digest [233] ret
     = "000dbcc13b7916f3c12b9f2a85acc22db2".
Proof. repeat split; vm_compute; reflexivity. Qed.

End LoginFacts.

(** ** Wire codec: the words of a byte stream *)

Section WordFacts.
Import Transmitter.

Variable iconv_encode : string -> list Z.

(** A number below 2^k and a multiple of 2^k have no bit in common. *)
Lemma lor_disjoint a c k :
  0 <= k -> 0 <= a < 2 ^ k -> Z.lor a (c * 2 ^ k) = a + c * 2 ^ k.
Proof.
  intros Hk Ha.
  assert (Hland : Z.land a (c * 2 ^ k) = 0).
  { apply Z.bits_inj'. intros i Hi. rewrite Z.land_spec, Z.bits_0.
    destruct (Z.lt_ge_cases i k) as [Hlt|Hge].
    - rewrite Z.mul_pow2_bits_low by lia. apply andb_false_r.
    - rewrite <- (Z.mod_small a (2 ^ k)) by lia.
      rewrite Z.mod_pow2_bits_high by lia. reflexivity. }
  rewrite <- Z.lxor_lor by exact Hland.
  symmetry. apply Z.add_nocarry_lxor. exact Hland.
Qed.

(** The bytes of the prefix, range by range: the first byte tells the
    ranges apart. *)
Lemma length_prefix_bytes L :
  0 <= L < 2 ^ 32 ->
  length_prefix L
  = if L <? 0x80 then [L]
    else if L <? 0x4000 then [0x80 + L / 256; L mod 256]
    else if L <? 0x200000
      then [0xC0 + L / 65536; L / 256 mod 256; L mod 256]
    else if L <? 0x10000000
      then [0xE0 + L / 16777216; L / 65536 mod 256; L / 256 mod 256;
            L mod 256]
    else [0xF0; L / 16777216; L / 65536 mod 256; L / 256 mod 256;
          L mod 256].
Proof.
  intros HL. unfold length_prefix.
  repeat match goal with
         | |- context [?a <? ?b] => destruct (Z.ltb_spec a b)
         end; cbn [be_bytes].
  - f_equal. change (2 ^ (8 * Z.of_nat 0)) with 1. rewrite Z.div_1_r.
    apply Z.mod_small. lia.
  - change 0x8000 with (1 * 2 ^ 15). rewrite lor_disjoint by lia.
    change (2 ^ (8 * Z.of_nat 1)) with 256.
    change (2 ^ (8 * Z.of_nat 0)) with 1.
    rewrite Z.div_1_r. f_equal; [|f_equal]; Z.div_mod_to_equations; lia.
  - change 0xC00000 with (3 * 2 ^ 22). rewrite lor_disjoint by lia.
    change (2 ^ (8 * Z.of_nat 2)) with 65536.
    change (2 ^ (8 * Z.of_nat 1)) with 256.
    change (2 ^ (8 * Z.of_nat 0)) with 1.
    rewrite Z.div_1_r. f_equal; [|f_equal; [|f_equal]];
      Z.div_mod_to_equations; lia.
  - change 0xE0000000 with (7 * 2 ^ 29). rewrite lor_disjoint by lia.
    change (2 ^ (8 * Z.of_nat 3)) with 16777216.
    change (2 ^ (8 * Z.of_nat 2)) with 65536.
    change (2 ^ (8 * Z.of_nat 1)) with 256.
    change (2 ^ (8 * Z.of_nat 0)) with 1.
    rewrite Z.div_1_r. f_equal; [|f_equal; [|f_equal; [|f_equal]]];
      Z.div_mod_to_equations; lia.
  - change (2 ^ (8 * Z.of_nat 3)) with 16777216.
    change (2 ^ (8 * Z.of_nat 2)) with 65536.
    change (2 ^ (8 * Z.of_nat 1)) with 256.
    change (2 ^ (8 * Z.of_nat 0)) with 1.
    rewrite Z.div_1_r. do 2 f_equal. Z.div_mod_to_equations; lia.
Qed.

(** A prefix at the head of a byte stream determines the length it
    stands for. *)
Lemma length_prefix_inj L L' x y :
  0 <= L < 2 ^ 32 -> 0 <= L' < 2 ^ 32 ->
  length_prefix L ++ x = length_prefix L' ++ y -> L = L'.
Proof.
  intros HL HL'. rewrite !length_prefix_bytes by assumption.
  repeat match goal with
         | |- context [?a <? ?b] => destruct (Z.ltb_spec a b)
         end; cbn [app]; intros Heq; injection Heq; clear Heq; intros;
    Z.div_mod_to_equations; lia.
Qed.

Lemma encodeString_payload (w : option string) (e : list Z) :
  encodeString iconv_encode w = Some e ->
  exists payload,
    e = length_prefix (Z.of_nat (length payload)) ++ payload.
Proof.
  rewrite encodeString_encoded. intros [= <-].
  destruct w as [str|]; [eexists; reflexivity|exists []; reflexivity].
Qed.

(** X1.  The encoding of words is a prefix code: when a byte stream
    starts with the encoding of a word, for encodings shorter than 2^32
    bytes, it starts with no other encoding of a word, and what follows
    is determined.  So a stream of encoded words can be cut back into
    the encodings of its words in one way only. *)
Theorem encodeString_prefix_free (a b : option string)
    (ea eb r1 r2 : list Z) :
  encodeString iconv_encode a = Some ea ->
  encodeString iconv_encode b = Some eb ->
  Z.of_nat (length ea) < 2 ^ 32 -> Z.of_nat (length eb) < 2 ^ 32 ->
  ea ++ r1 = eb ++ r2 ->
  ea = eb /\ r1 = r2.
Proof.
  intros Ha Hb Hla Hlb Heq.
  destruct (encodeString_payload _ _ Ha) as (pa & ->).
  destruct (encodeString_payload _ _ Hb) as (pb & ->).
  rewrite length_app in Hla, Hlb.
  assert (HL : Z.of_nat (length pa) = Z.of_nat (length pb)).
  { rewrite <- !app_assoc in Heq.
    eapply length_prefix_inj; [| |exact Heq]; lia. }
  rewrite HL in Heq |- *. rewrite <- !app_assoc in Heq.
  apply app_inv_head in Heq.
  apply app_inj_1 in Heq as [-> ->]; [split; reflexivity | lia].
Qed.

(** X2.  A word is sent as the single zero byte that ends a sentence
    exactly when its encoding has no byte: the empty word cannot be told
    from the end of the sentence. *)
Theorem encodeString_empty_word (str : string) :
  encodeString iconv_encode (Some str) = encodeString iconv_encode None
  <-> iconv_encode str = [].
Proof.
  rewrite !encodeString_encoded. cbn [encoded]. split.
  - intros [= H]. destruct (iconv_encode str) as [|x l]; [reflexivity|].
    apply (f_equal (@length Z)) in H. rewrite length_app in H.
    cbn [length] in H.
    assert (0 < length (length_prefix (Z.of_nat (S (length l)))))%nat;
      [|lia].
    unfold length_prefix.
    repeat match goal with
           | |- context [?a <? ?b] => destruct (a <? b)
           end; rewrite ?be_bytes_length; simpl; lia.
  - intros ->. reflexivity.
Qed.

End WordFacts.

Lemma encodeString_prefix_free_witness :
  let word := [6; 47; 108; 111; 103; 105; 110] in
  let rest := [11; 61; 110; 97; 109; 101; 61; 97; 100; 109; 105; 110; 0] in
  (Transmitter.encodeString code_units (Some "/login") = Some word
   /\ Z.of_nat (length word) < 2 ^ 32
   /\ word ++ rest = word ++ rest)
  /\ word = word /\ rest = rest.
Proof.
  cbn zeta.
  assert (H1 : Transmitter.encodeString code_units (Some "/login")
               = Some [6; 47; 108; 111; 103; 105; 110]) by reflexivity.
  assert (H2 : Z.of_nat (length [6; 47; 108; 111; 103; 105; 110]) < 2 ^ 32)
    by (simpl; lia).
  split; [auto|].
  exact (encodeString_prefix_free code_units (Some "/login") (Some "/login")
           _ _ _ _ H1 H1 H2 H2 eq_refl).
Defined.

(** ** Connector: sentences on the socket *)

Section SentenceFacts.
Import Connector.

Context {L : Type}.
Variable iconv_encode : string -> list Z.

Local Notation "'enc'" := (Transmitter.encoded iconv_encode).

Lemma word_bytes_encoded w : word_bytes iconv_encode w = enc w.
Proof. unfold word_bytes. now rewrite encodeString_encoded. Qed.

Lemma writes_app ws1 ws2 tr :
  Transmitter.writes iconv_encode (ws1 ++ ws2) tr
  = tr' ← Transmitter.writes iconv_encode ws1 tr;
    Transmitter.writes iconv_encode ws2 tr'.
Proof.
  revert tr. induction ws1 as [|w ws1 IH]; intros tr; cbn; [reflexivity|].
  destruct (Transmitter.write iconv_encode w tr); cbn;
    [apply IH|reflexivity].
Qed.

(** A sentence is written as its words and the terminator. *)
Lemma write_writes data (c : connector L) :
  write iconv_encode data c
  = tr ← transmitter c;
    tr ← Transmitter.writes iconv_encode ((Some <$> data) ++ [None]) tr;
    Some (set_transmitter tr c).
Proof.
  unfold write. destruct (transmitter c) as [tr|]; [|reflexivity].
  cbn [mbind option_bind]. rewrite writes_app.
  destruct (Transmitter.writes iconv_encode (Some <$> data) tr) as [tr1|];
    [|reflexivity].
  cbn [mbind option_bind Transmitter.writes].
  destruct (Transmitter.write iconv_encode None tr1); reflexivity.
Qed.

Lemma sentence_bytes_enc data :
  sentence_bytes iconv_encode data
  = concat (map enc ((Some <$> data) ++ [None])).
Proof.
  unfold sentence_bytes. rewrite map_app, concat_app.
  cbn [map concat]. rewrite word_bytes_encoded, app_nil_r. f_equal. f_equal.
  rewrite <- list_fmap_compose. apply map_ext. intros w.
  apply word_bytes_encoded.
Qed.

(** While the socket is not writable, sentences are pooled. *)
Lemma write_all_pooled sentences : forall (c : connector L) tr,
  transmitter c = Some tr ->
  Transmitter.writable (Transmitter.socket tr) = false ->
  exists c',
    write_all iconv_encode sentences c = Some c'
    /\ sent c' = sent c
    /\ concat (pooled c')
       = concat (pooled c)
         ++ concat (map (sentence_bytes iconv_encode) sentences)
    /\ exists tr', transmitter c' = Some tr'
        /\ Transmitter.writable (Transmitter.socket tr') = false.
Proof.
  induction sentences as [|data rest IH]; intros c tr Htr Hw.
  - exists c. cbn [write_all map concat]. rewrite app_nil_r.
    repeat split; eauto.
  - cbn [write_all]. rewrite write_writes, Htr. cbn [mbind option_bind].
    rewrite writes_not_writable by exact Hw. cbn [mbind option_bind].
    edestruct (IH (set_transmitter
                     {| Transmitter.pool := Transmitter.pool tr
                          ++ map enc ((Some <$> data) ++ [None]);
                        Transmitter.socket := Transmitter.socket tr |} c))
      as (c' & Hrun & Hs & Hp & Ht); [reflexivity|exact Hw|].
    exists c'. split; [exact Hrun|].
    split; [rewrite Hs; unfold sent; cbn; now rewrite Htr|].
    split; [|exact Ht].
    rewrite Hp. unfold pooled.
    cbn [transmitter set_transmitter Transmitter.pool]. rewrite Htr.
    rewrite concat_app. cbn [map concat].
    now rewrite sentence_bytes_enc, <- app_assoc.
Qed.

(** On a writable socket with an empty pool, sentences go straight to
    the socket. *)
Lemma write_all_direct sentences : forall (c : connector L) tr,
  transmitter c = Some tr ->
  Transmitter.writable (Transmitter.socket tr) = true ->
  Transmitter.pool tr = [] ->
  exists c',
    write_all iconv_encode sentences c = Some c'
    /\ sent c'
       = sent c ++ concat (map (sentence_bytes iconv_encode) sentences)
    /\ pooled c' = [].
Proof.
  induction sentences as [|data rest IH]; intros c tr Htr Hw Hp.
  - exists c. cbn [write_all map concat]. rewrite app_nil_r.
    unfold pooled. rewrite Htr. repeat split; eauto.
  - cbn [write_all]. rewrite write_writes, Htr. cbn [mbind option_bind].
    rewrite writes_direct by assumption. cbn [mbind option_bind].
    match goal with |- context [set_transmitter ?t c] =>
      destruct (IH (set_transmitter t c) t) as (c' & Hrun & Hs & Hp');
        [reflexivity|reflexivity|reflexivity|]
    end.
    exists c'. split; [exact Hrun|]. split; [|exact Hp'].
    rewrite Hs. unfold sent. cbn [transmitter set_transmitter].
    rewrite Htr. cbn [Transmitter.socket Transmitter.sent map concat].
    rewrite sentence_bytes_enc. now rewrite <- app_assoc.
Qed.

(** X3.  A connector that was not asked to connect throws on every
    write.  Once [connect()] has returned, the socket takes every
    sentence at once: the pool stays empty, [onConnect] finds nothing to
    flush, and the bytes handed to the socket are the sentences in the
    order of the calls, each as the encodings of its words followed by
    the zero byte, whether they are written before or after the socket
    connects. *)
Theorem write_sentences_in_order
    (options : options) (before after : list (list string)) :
  let c0 := connect (new (L := L) options) in
  (forall data, write iconv_encode data (new (L := L) options) = None)
  /\ exists c1 c2,
      write_all iconv_encode before c0 = Some c1
      /\ sent c1 = concat (map (sentence_bytes iconv_encode) before)
      /\ pooled c1 = []
      /\ sent (onConnect c1) = sent c1
      /\ write_all iconv_encode after (onConnect c1) = Some c2
      /\ sent c2
         = concat (map (sentence_bytes iconv_encode) (before ++ after))
      /\ pooled c2 = [].
Proof.
  cbn zeta. split; [reflexivity|].
  set (c0 := connect (new options)).
  assert (Htr0 : transmitter c0
                 = Some (Transmitter.new Transmitter.connecting_socket))
    by reflexivity.
  assert (Hdirect : forall sentences (c : connector L),
            (exists tr, transmitter c = Some tr
                        /\ Transmitter.writable (Transmitter.socket tr) = true
                        /\ Transmitter.pool tr = []) ->
            exists c',
              write_all iconv_encode sentences c = Some c'
              /\ sent c'
                 = sent c
                   ++ concat (map (sentence_bytes iconv_encode) sentences)
              /\ exists tr', transmitter c' = Some tr'
                  /\ Transmitter.writable (Transmitter.socket tr') = true
                  /\ Transmitter.pool tr' = []).
  { induction sentences as [|data rest IH]; intros c (tr & Htr & Hw & Hp).
    - exists c. cbn [write_all map concat]. rewrite app_nil_r. eauto 10.
    - cbn [write_all]. rewrite write_writes, Htr. cbn [mbind option_bind].
      rewrite writes_direct by assumption. cbn [mbind option_bind].
      match goal with |- context [set_transmitter ?t c] =>
        destruct (IH (set_transmitter t c)) as (c' & Hrun & Hs & Ht');
          [exists t; repeat split|]
      end.
      exists c'. split; [exact Hrun|]. split; [|exact Ht'].
      rewrite Hs. unfold sent. cbn [transmitter set_transmitter].
      rewrite Htr. cbn [Transmitter.socket Transmitter.sent map concat].
      rewrite sentence_bytes_enc. now rewrite <- app_assoc. }
  destruct (Hdirect before c0) as (c1 & Hrun1 & Hs1 & tr1 & Htr1 & Hw1 & Hp1).
  { eexists. split; [exact Htr0|]. split; reflexivity. }
  assert (Hon : transmitter (onConnect c1) = Some tr1).
  { unfold onConnect. cbn [transmitter]. rewrite Htr1.
    cbn [fmap option_fmap option_map]. unfold Transmitter.runPool.
    rewrite Hp1. cbn. destruct tr1; cbn in *. now subst. }
  destruct (Hdirect after (onConnect c1)) as (c2 & Hrun2 & Hs2 & tr2 & Htr2 & _ & Hp2).
  { exists tr1. auto. }
  assert (Hsent : sent (onConnect c1) = sent c1).
  { unfold sent. now rewrite Hon, Htr1. }
  exists c1, c2. split; [exact Hrun1|].
  split; [rewrite Hs1; reflexivity|].
  split; [unfold pooled; now rewrite Htr1|].
  split; [exact Hsent|]. split; [exact Hrun2|].
  split; [|unfold pooled; now rewrite Htr2].
  rewrite Hs2, Hsent, Hs1. cbn. now rewrite map_app, concat_app.
Qed.

End SentenceFacts.

Example login_sentence_bytes :
  Connector.sentence_bytes code_units ["/login"; "=name=admin"]
  = [6; 47; 108; 111; 103; 105; 110;
     11; 61; 110; 97; 109; 101; 61; 97; 100; 109; 105; 110; 0].
Proof. reflexivity. Qed.

(** ** Channel: the replies to a command *)

Section ReplyFacts.
Import Channel.

Lemma processPacket_re_one_shot tag params d words :
  processPacket ("!re" :: words)
    (set_data d (write params false true (new tag)).1)
  = (set_data (d ++ records [words])
       (write params false true (new tag)).1, Normal).
Proof.
  unfold processPacket. cbn [head tail].
  rewrite decide_False by discriminate.
  destruct words as [|w ws].
  - cbn. rewrite app_nil_r. reflexivity.
  - unfold records. rewrite filter_cons_True by discriminate.
    rewrite filter_nil. cbn [fmap list_fmap].
    generalize (parsePacket (w :: ws)). intros r.
    cbn. reflexivity.
Qed.

Lemma processPackets_re_one_shot tag params sentences : forall d,
  processPackets (cons "!re" <$> sentences)
    (set_data d (write params false true (new tag)).1)
  = (set_data (d ++ records sentences)
       (write params false true (new tag)).1, Normal).
Proof.
  induction sentences as [|words rest IH]; intros d.
  - cbn [fmap list_fmap processPackets]. unfold records.
    rewrite filter_nil. cbn. now rewrite app_nil_r.
  - cbn [fmap list_fmap processPackets].
    rewrite processPacket_re_one_shot.
    change (list_fmap _ _ (cons "!re") rest) with (cons "!re" <$> rest).
    rewrite IH. f_equal. f_equal. rewrite <- app_assoc. f_equal.
    unfold records. destruct words; [reflexivity|].
    rewrite (filter_cons_True _ (_ :: _)) by discriminate. reflexivity.
Qed.

Lemma processPacket_done_one_shot tag params d words :
  let r := processPacket ("!done" :: words)
             (set_data d (write params false true (new tag)).1) in
  r.2 = Normal
  /\ calls r.1 = [Resolve 0 (d ++ records [words])]
  /\ listeners r.1 = [] /\ reading r.1 = false
  /\ written r.1 = [params ++ [".tag=" +:+ tag]].
Proof.
  unfold processPacket. cbn [head tail].
  rewrite decide_False by discriminate.
  destruct words as [|w ws].
  - cbn. rewrite app_nil_r. repeat split; reflexivity.
  - unfold records. rewrite filter_cons_True by discriminate.
    rewrite filter_nil. cbn [fmap list_fmap].
    generalize (parsePacket (w :: ws)). intros r.
    cbn. repeat split; reflexivity.
Qed.

Lemma processPackets_app ps1 ps2 ch :
  processPackets (ps1 ++ ps2) ch
  = match processPackets ps1 ch with
    | (ch', Normal) => processPackets ps2 ch'
    | (ch', Throw e) => (ch', Throw e)
    end.
Proof.
  revert ch. induction ps1 as [|p ps1 IH]; intros ch; [reflexivity|].
  cbn [app processPackets].
  destruct (processPacket p ch) as [ch' [|e]]; [apply IH | reflexivity].
Qed.

(** X4.  A command written with a deferred result, answered by any
    number of [!re] sentences and a [!done] sentence: the result is
    resolved, once, with the records of the sentences that have words
    after the reply word, those of the [!done] sentence included, in the
    order of arrival; then the channel has no listener and no reader
    left.  The sentence handed to the connector is the parameters
    followed by the tag word. *)
Theorem write_resolves_with_records
    (tag : string) (params : list string)
    (replies : list (list string)) (last : list string) :
  let ch := (write params false true (new tag)).1 in
  let r := processPackets ((cons "!re" <$> replies) ++ [("!done" :: last)])
             ch in
  r.2 = Normal
  /\ calls r.1 = [Resolve 0 (records (replies ++ [last]))]
  /\ listeners r.1 = [] /\ reading r.1 = false
  /\ written r.1 = [params ++ [".tag=" +:+ tag]].
Proof.
  cbn zeta.
  change (write params false true (new tag)).1
    with (set_data [] (write params false true (new tag)).1).
  rewrite processPackets_app, processPackets_re_one_shot.
  cbn [processPackets app].
  pose proof (processPacket_done_one_shot tag params (records replies) last)
    as H. cbn zeta in H.
  destruct (processPacket _ _) as [ch' [|e]]; cbn [fst snd] in *;
    destruct H as (H1 & H2 & H3); [|discriminate].
  split; [reflexivity|]. split; [|exact H3].
  rewrite H2. unfold records. now rewrite filter_app, fmap_app.
Qed.

Lemma records_one (words : list string) :
  records [words]
  = if (0 <? length words)%nat then [parsePacket words] else [].
Proof. destruct words; reflexivity. Qed.

Lemma processPacket_unknown_first tag params packet :
  head packet <> Some "!re" -> head packet <> Some "!done" ->
  head packet <> Some "!trap" ->
  processPacket packet (write params false true (new tag)).1
  = (set_data (records [tail packet])
       (set_listeners
          [{| r_event := EData; r_once := false; r_listener := PushData |};
           {| r_event := EDone; r_once := true;
              r_listener := ResolveDone 0 |};
           {| r_event := ETrap; r_once := true;
              r_listener := RejectTrap 0 |}]
          (write params false true (new tag)).1),
     Throw "UNKNOWNREPLY").
Proof.
  intros H1 H2 H3. unfold processPacket. rewrite records_one.
  generalize (parsePacket (tail packet)). intros rec.
  destruct (0 <? length (tail packet))%nat; cbn;
    repeat (case_decide; try congruence; cbn); reflexivity.
Qed.

Lemma processPacket_unknown_second tag params d packet :
  head packet <> Some "!re" -> head packet <> Some "!done" ->
  head packet <> Some "!trap" ->
  processPacket packet
    (set_data d
       (set_listeners
          [{| r_event := EData; r_once := false; r_listener := PushData |};
           {| r_event := EDone; r_once := true;
              r_listener := ResolveDone 0 |};
           {| r_event := ETrap; r_once := true;
              r_listener := RejectTrap 0 |}]
          (write params false true (new tag)).1))
  = ({| id := tag; data := d ++ records [tail packet]; trapped := false;
        streaming := false; listeners := []; reading := false;
        written := [params ++ [".tag=" +:+ tag]]; promises := 1;
        calls := []; external_calls := [] |}, Normal).
Proof.
  intros H1 H2 H3. unfold processPacket. rewrite records_one.
  generalize (parsePacket (tail packet)). intros rec.
  destruct (0 <? length (tail packet))%nat; cbn;
    repeat (case_decide; try congruence; cbn); rewrite ?app_nil_r;
    reflexivity.
Qed.

(** X5.  A sentence whose reply word is none of [!re], [!done] and
    [!trap] makes [processPacket] throw UNKNOWNREPLY, before the channel
    is closed: the reader stays registered and the deferred result is not
    settled.  The listener that throws is registered once only, so a
    second such sentence throws nothing: it closes the channel, which
    removes the listeners that would settle the result. *)
Theorem unknown_reply_throws
    (tag : string) (params : list string) (packet packet' : list string) :
  head packet <> Some "!re" -> head packet <> Some "!done" ->
  head packet <> Some "!trap" ->
  head packet' <> Some "!re" -> head packet' <> Some "!done" ->
  head packet' <> Some "!trap" ->
  let ch := (write params false true (new tag)).1 in
  let r1 := processPacket packet ch in
  let r2 := processPacket packet' r1.1 in
  r1.2 = Throw "UNKNOWNREPLY"
  /\ reading r1.1 = true /\ calls r1.1 = []
  /\ data r1.1 = records [tail packet]
  /\ r2.2 = Normal
  /\ reading r2.1 = false /\ listeners r2.1 = [] /\ calls r2.1 = []
  /\ data r2.1 = records [tail packet; tail packet'].
Proof.
  intros H1 H2 H3 H1' H2' H3'. cbn zeta.
  rewrite (processPacket_unknown_first tag params packet H1 H2 H3).
  cbn [fst snd].
  rewrite (processPacket_unknown_second tag params _ packet' H1' H2' H3').
  cbn [fst snd]. repeat split; try reflexivity.
  unfold records. now rewrite <- fmap_app, <- filter_app.
Qed.

Lemma run_listener_passive r ev p ch :
  passive r ->
  let res := run_listener (r_listener r) ev p ch in
  data res.1 = data ch /\ calls res.1 = calls ch
  /\ promises res.1 = promises ch /\ streaming res.1 = streaming ch
  /\ listeners res.1 = listeners ch.
Proof.
  unfold passive. destruct (r_listener r); intros H; try contradiction;
    cbn; repeat split; reflexivity.
Qed.

Lemma call_listeners_passive snapshot p : forall ch,
  Forall passive snapshot -> Forall passive (listeners ch) ->
  let res := call_listeners snapshot p ch in
  data res.1 = data ch /\ calls res.1 = calls ch
  /\ promises res.1 = promises ch /\ streaming res.1 = streaming ch
  /\ Forall passive (listeners res.1).
Proof.
  induction snapshot as [|r rest IH]; intros ch Hs Hl; cbn zeta.
  - cbn. repeat split; auto.
  - inversion Hs as [|? ? Hr Hrest]; subst. cbn [call_listeners].
    set (ch1 := if r_once r then _ else ch).
    assert (Hch1 : data ch1 = data ch /\ calls ch1 = calls ch
                   /\ promises ch1 = promises ch
                   /\ streaming ch1 = streaming ch
                   /\ Forall passive (listeners ch1)).
    { unfold ch1. destruct (r_once r); cbn; repeat split; auto.
      now apply remove_first_Forall. }
    destruct Hch1 as (Ha & Hb & Hc & Hd & He).
    pose proof (run_listener_passive r (r_event r) p ch1 Hr) as Hrun.
    cbn zeta in Hrun.
    destruct (run_listener (r_listener r) (r_event r) p ch1) as [ch2 [|e]];
      cbn [fst snd] in *; destruct Hrun as (Ha' & Hb' & Hc' & Hd' & He').
    + specialize (IH ch2 Hrest). cbn zeta in IH.
      destruct IH as (I1 & I2 & I3 & I4 & I5); [now rewrite He'|].
      repeat split; congruence.
    + repeat split; congruence.
Qed.

Lemma emit_passive ev p ch :
  Forall passive (listeners ch) ->
  let res := emit ev p ch in
  data res.1 = data ch /\ calls res.1 = calls ch
  /\ promises res.1 = promises ch /\ streaming res.1 = streaming ch
  /\ Forall passive (listeners res.1).
Proof.
  intros H. apply call_listeners_passive; [|exact H].
  apply Forall_forall. intros r Hr. apply list_elem_of_filter in Hr as [_ Hr].
  rewrite Forall_forall in H. now apply H.
Qed.

Lemma close_passive force ch :
  Forall passive (listeners ch) ->
  let res := close force ch in
  data res.1 = data ch /\ calls res.1 = calls ch
  /\ promises res.1 = promises ch /\ streaming res.1 = streaming ch
  /\ Forall passive (listeners res.1).
Proof.
  intros H. cbn zeta. unfold close.
  pose proof (emit_passive EClose PNone ch H) as He. cbn zeta in He.
  destruct (emit EClose PNone ch) as [ch1 [|e]]; cbn [fst snd] in *;
    destruct He as (Ha & Hb & Hc & Hd & Hf); [|repeat split; assumption].
  destruct (negb (streaming ch1) || force); cbn; repeat split; auto.
Qed.

Lemma processPacket_passive packet ch :
  streaming ch = true -> Forall passive (listeners ch) ->
  let res := processPacket packet ch in
  data res.1 = data ch /\ calls res.1 = calls ch
  /\ promises res.1 = promises ch /\ streaming res.1 = true
  /\ Forall passive (listeners res.1).
Proof.
  intros Hs Hl. cbn zeta. unfold processPacket.
  case_decide.
  - match goal with |- context [emit ETrap ?p ?c] =>
      pose proof (emit_passive ETrap p c Hl) as He end.
    cbn zeta in He. destruct He as (Ha & Hb & Hc & Hd & Hf).
    cbn [data calls promises streaming listeners] in *.
    repeat split; congruence.
  - rewrite Hs, andb_false_r.
    case_decide.
    + rewrite Hs.
      match goal with |- context [emit EStream ?p ?c] =>
        pose proof (emit_passive EStream p c Hl) as He end.
      cbn zeta in He. destruct He as (Ha & Hb & Hc & Hd & Hf).
      cbn [data calls promises streaming listeners] in *.
      repeat split; congruence.
    + case_decide.
      * set (r := if negb (trapped ch) then _ else _).
        assert (Hr : data r.1 = data ch /\ calls r.1 = calls ch
                     /\ promises r.1 = promises ch
                     /\ streaming r.1 = streaming ch
                     /\ Forall passive (listeners r.1)).
        { unfold r. destruct (negb (trapped ch)).
          - apply (emit_passive EDone _ ch Hl).
          - cbn. repeat split; auto. }
        destruct r as [ch1 [|e]]; cbn [fst snd] in *;
          destruct Hr as (Ha & Hb & Hc & Hd & Hf).
        -- pose proof (close_passive false ch1 Hf) as Hc'. cbn zeta in Hc'.
           destruct Hc' as (Ha' & Hb' & Hc' & Hd' & Hf').
           repeat split; congruence.
        -- repeat split; congruence.
      * match goal with |- context [emit EUnknown ?p ?c] =>
          pose proof (emit_passive EUnknown p c Hl) as He end.
        cbn zeta in He.
        destruct (emit EUnknown _ ch) as [ch1 [|e]]; cbn [fst snd] in *;
          destruct He as (Ha & Hb & Hc & Hd & Hf).
        -- pose proof (close_passive false ch1 Hf) as Hc'. cbn zeta in Hc'.
           destruct Hc' as (Ha' & Hb' & Hc' & Hd' & Hf').
           repeat split; congruence.
        -- repeat split; congruence.
Qed.

(** X6.  A channel written for streaming, with any listeners of its
    owner, whatever sentences it is handed: it stores no record, creates
    no deferred result and settles none. *)
Theorem streaming_channel_settles_nothing
    (tag : string) (params : list string)
    (exts : list (event * bool * string)) (packets : list (list string)) :
  let ch := (write params true false (add_externals exts (new tag))).1 in
  let r := processPackets packets ch in
  data r.1 = [] /\ calls r.1 = [] /\ promises r.1 = 0%nat.
Proof.
  cbn zeta.
  set (ch := (write params true false (add_externals exts (new tag))).1).
  assert (Hinv : data ch = [] /\ calls ch = [] /\ promises ch = 0%nat
                 /\ streaming ch = true /\ Forall passive (listeners ch)).
  { assert (Hd : forall c, data (add_externals exts c) = data c).
    { unfold add_externals. clear ch.
      induction exts as [|e es IHe]; intros c; [reflexivity|].
      cbn [fold_left]. now rewrite IHe. }
    pose proof (add_externals_spec exts (new tag)) as H. cbn zeta in H.
    destruct H as (Hl & _ & Hc & Hp).
    unfold ch. cbn [write fst readAndWrite data calls promises streaming
                    listeners id].
    rewrite Hd, Hc, Hp, Hl. cbn [new data calls promises listeners app].
    repeat split; try reflexivity.
    constructor; [exact I|].
    apply Forall_forall. intros r Hr. apply list_elem_of_fmap in Hr
      as (e & -> & _). exact I. }
  clearbody ch. revert ch Hinv.
  induction packets as [|packet rest IH]; intros ch (Ha & Hb & Hc & Hd & Hf).
  - cbn. auto.
  - cbn [processPackets].
    pose proof (processPacket_passive packet ch Hd Hf) as Hp.
    cbn zeta in Hp.
    destruct (processPacket packet ch) as [ch1 [|e]]; cbn [fst snd] in *;
      destruct Hp as (Ha' & Hb' & Hc' & Hd' & Hf').
    + apply IH. repeat split; congruence || assumption.
    + repeat split; congruence.
Qed.
End ReplyFacts.

Lemma unknown_reply_throws_witness :
  let ch := (Channel.write ["/ip/address/print"] false true
               (Channel.new "t")).1 in
  let r1 := Channel.processPacket ["!empty"] ch in
  let r2 := Channel.processPacket ["!empty"; "=x=y"] r1.1 in
  (head ["!empty"] <> Some "!re" /\ head ["!empty"] <> Some "!done"
   /\ head ["!empty"] <> Some "!trap"
   /\ head ["!empty"; "=x=y"] <> Some "!re"
   /\ head ["!empty"; "=x=y"] <> Some "!done"
   /\ head ["!empty"; "=x=y"] <> Some "!trap")
  /\ r1.2 = Channel.Throw "UNKNOWNREPLY"
  /\ Channel.reading r1.1 = true /\ Channel.calls r1.1 = []
  /\ Channel.data r1.1 = Channel.records [tail ["!empty"]]
  /\ r2.2 = Channel.Normal
  /\ Channel.reading r2.1 = false /\ Channel.listeners r2.1 = []
  /\ Channel.calls r2.1 = []
  /\ Channel.data r2.1
     = Channel.records [tail ["!empty"]; tail ["!empty"; "=x=y"]].
Proof.
  cbn zeta.
  assert (H1 : head ["!empty"] <> Some "!re") by discriminate.
  assert (H2 : head ["!empty"] <> Some "!done") by discriminate.
  assert (H3 : head ["!empty"] <> Some "!trap") by discriminate.
  assert (H4 : head ["!empty"; "=x=y"] <> Some "!re") by discriminate.
  assert (H5 : head ["!empty"; "=x=y"] <> Some "!done") by discriminate.
  assert (H6 : head ["!empty"; "=x=y"] <> Some "!trap") by discriminate.
  split; [auto 10|].
  exact (unknown_reply_throws "t" ["/ip/address/print"]
           ["!empty"] ["!empty"; "=x=y"] H1 H2 H3 H4 H5 H6).
Defined.

(** ** Channel: the fields of a record *)

Section RecordFacts.
Import Channel.

Lemma parseLine_obj_set obj line :
  parseLine obj line = obj_set (line_key line) (line_value line) obj.
Proof. reflexivity. Qed.

(** X7.  The record of a sentence, field by field: the value of a field
    is the value of the last word stored under that name, a name no word
    is stored under is not a field, and [__proto__] is never a field.
    (A word without [=] is stored under the name [undefined], with the
    empty value.) *)
Theorem parsePacket_lookup (packet : list string) (key : string) :
  parsePacket packet !! key
  = if decide (key = "__proto__") then None
    else line_value
         <$> last (filter (fun line => line_key line = key) packet).
Proof.
  unfold parsePacket.
  induction packet as [|line packet IH] using rev_ind.
  - cbn. rewrite lookup_empty. now case_decide.
  - rewrite fold_left_app. cbn [fold_left]. rewrite parseLine_obj_set.
    unfold obj_set. rewrite filter_app.
    destruct (decide (line_key line = "__proto__")) as [Hp|Hp].
    + rewrite IH. case_decide; [reflexivity|].
      rewrite filter_cons_False by congruence.
      now rewrite filter_nil, app_nil_r.
    + destruct (decide (line_key line = key)) as [Hk|Hk].
      * rewrite filter_cons_True by exact Hk. rewrite filter_nil, last_snoc.
        subst key. rewrite decide_False by exact Hp.
        now rewrite lookup_insert_eq.
      * rewrite lookup_insert_ne by exact Hk. rewrite IH.
        rewrite filter_cons_False by exact Hk.
        now rewrite filter_nil, app_nil_r.
Qed.
End RecordFacts.


Example parsePacket_edge_words :
  Channel.parsePacket ["=name=a"; "flag"; "=name=b"; "=disabled"]
  = {[ "name" := "b"; "undefined" := ""; "disabled" := "" ]}.
Proof. apply map_eq. intros k. vm_compute. reflexivity. Qed.

(** ** Session: the parameters of a command *)

Section ParamsFacts.
Import Params.

Lemma lookup_alloc (h : list (list string)) a r :
  (r < length h)%nat -> (alloc a h).2 !! r = h !! r.
Proof. intros Hr. cbn. now apply lookup_app_l. Qed.

(** The loop: the arrays of the caller stay as they are, and the result
    is a new array unless no parameter had a word. *)
Lemma concat_loop_spec parameters : forall (h0 h : list (list string)) first f,
  (length h0 <= length h)%nat ->
  (forall r, (r < length h0)%nat -> h !! r = h0 !! r) ->
  h !! first = Some f ->
  Forall (valid h0) parameters ->
  exists ref h',
    concat_loop first parameters h = Some (ref, h')
    /\ (length h0 <= length h')%nat
    /\ (forall r, (r < length h0)%nat -> h' !! r = h0 !! r)
    /\ h' !! ref = Some (f ++ concat (words h0 <$> parameters))
    /\ (if forallb (is_empty h0) parameters then ref = first
        else (length h0 <= ref)%nat).
Proof.
  induction parameters as [|p rest IH]; intros h0 h first f Hlen Hold Hf Hv.
  - exists first, h. cbn. rewrite app_nil_r. auto.
  - inversion Hv as [|? ? Hp Hrest]; subst.
    cbn [concat_loop forallb fmap list_fmap concat].
    destruct p as [s|r]; cbn [as_array alloc words is_empty andb].
    + assert (E1 : (h ++ [[s]]) !! length h = Some [s])
        by (rewrite lookup_app_r by lia; now rewrite Nat.sub_diag).
      assert (E2 : (h ++ [[s]]) !! first = Some f)
        by (rewrite lookup_app_l by (apply lookup_lt_Some in Hf; lia);
            exact Hf).
      destruct (IH h0 ((h ++ [[s]]) ++ [f ++ [s]]) (length (h ++ [[s]]))
                  (f ++ [s])) as (ref & h' & Hrun & Hl & Ho & Hr & Hk).
      * rewrite !length_app. cbn. lia.
      * intros r Hr. rewrite !lookup_app_l by (rewrite ?length_app; lia).
        now apply Hold.
      * rewrite lookup_app_r by lia. now rewrite Nat.sub_diag.
      * exact Hrest.
      * exists ref, h'.
        split; [rewrite E1; cbn [mbind option_bind length Nat.ltb Nat.leb];
                rewrite E2; exact Hrun|].
        split; [exact Hl|].
        split; [exact Ho|]. split; [now rewrite Hr, <- app_assoc|].
        destruct (forallb (is_empty h0) rest).
        -- subst ref. rewrite length_app. cbn. lia.
        -- exact Hk.
    + cbn in Hp.
      destruct (h0 !! r) as [a|] eqn:Ha;
        [|apply lookup_ge_None in Ha; lia].
      assert (E1 : h !! r = Some a) by (rewrite Hold by exact Hp; exact Ha).
      cbn [default from_option].
      destruct a as [|w a].
      * rewrite bool_decide_eq_true_2 by reflexivity.
        destruct (IH h0 h first f Hlen Hold Hf Hrest)
          as (ref & h' & Hrun & Hl & Ho & Hr & Hk).
        exists ref, h'. cbn [app andb].
        split; [rewrite E1; exact Hrun|]. auto.
      * rewrite bool_decide_eq_false_2 by discriminate.
        destruct (IH h0 (h ++ [f ++ w :: a]) (length h) (f ++ w :: a))
          as (ref & h' & Hrun & Hl & Ho & Hr & Hk).
        -- rewrite length_app. cbn. lia.
        -- intros r' Hr'. rewrite lookup_app_l by lia. now apply Hold.
        -- rewrite lookup_app_r by lia. now rewrite Nat.sub_diag.
        -- exact Hrest.
        -- exists ref, h'.
           split; [rewrite E1; cbn [mbind option_bind length Nat.ltb Nat.leb];
                   rewrite Hf; exact Hrun|].
           split; [exact Hl|].
           split; [exact Ho|]. split; [now rewrite Hr, <- app_assoc|].
           cbn [andb].
           destruct (forallb (is_empty h0) rest); [subst ref|]; lia.
Qed.

(** X8.  [RouterOSAPI.write] on arrays that exist: the sentence handed
    to the connector is the words of the first parameter, the words of
    the further parameters in order, and the tag word.  An array of the
    caller is changed in one case only: when it is the first parameter
    and no further parameter has a word, the tag word is appended to it,
    since [concatParams] then returns the array itself and
    [Channel.write] pushes onto it.  Otherwise all arrays of the caller
    are left as they were. *)
Theorem write_shares_the_array
    (h : list (list string)) (params : param) (moreParams : list param) (tag : string) :
  valid h params -> Forall (valid h) moreParams ->
  exists sentence h',
    write params moreParams tag h = Some (sentence, h')
    /\ sentence
       = words h params ++ concat (words h <$> moreParams)
         ++ [".tag=" +:+ tag]
    /\ forall r a, h !! r = Some a ->
         h' !! r
         = if bool_decide (params = Arr r) && forallb (is_empty h) moreParams
           then Some (a ++ [".tag=" +:+ tag]) else Some a.
Proof.
  intros Hv Hm. unfold write, concatParams.
  destruct params as [s|r0]; cbn [as_array alloc words].
  - destruct (concat_loop_spec moreParams h (h ++ [[s]]) (length h) [s])
      as (ref & h' & Hrun & Hl & Ho & Hr & Hk).
    + rewrite length_app. lia.
    + intros r Hr. now apply lookup_app_l.
    + rewrite lookup_app_r by lia. now rewrite Nat.sub_diag.
    + exact Hm.
    + rewrite Hrun. cbn [mbind option_bind]. unfold push_tag. rewrite Hr.
      cbn [mbind option_bind]. eexists _, _. split; [reflexivity|].
      split; [now rewrite <- app_assoc|].
      intros r a Ha. rewrite bool_decide_eq_false_2 by discriminate.
      cbn [andb]. pose proof (lookup_lt_Some _ _ _ Ha) as Hlt.
      assert (ref <> r).
      { destruct (forallb (is_empty h) moreParams); lia. }
      rewrite list_lookup_insert_ne by assumption.
      rewrite Ho by exact Hlt. exact Ha.
  - cbn in Hv. destruct (h !! r0) as [f|] eqn:Hf;
      [|apply lookup_ge_None in Hf; lia].
    destruct (concat_loop_spec moreParams h h r0 f)
      as (ref & h' & Hrun & Hl & Ho & Hr & Hk); auto.
    rewrite Hrun. cbn [mbind option_bind default from_option].
    unfold push_tag. rewrite Hr.
    cbn [mbind option_bind]. eexists _, _. split; [reflexivity|].
    split; [now rewrite <- app_assoc|].
    intros r a Ha. pose proof (lookup_lt_Some _ _ _ Ha) as Hlt.
    destruct (forallb (is_empty h) moreParams) eqn:He.
    + subst ref. rewrite andb_true_r. case_bool_decide as Hd.
      * injection Hd as <-. rewrite list_lookup_insert_eq by lia.
        rewrite Ho in Hr by exact Hlt. rewrite Ha in Hr.
        injection Hr as <-. reflexivity.
      * rewrite list_lookup_insert_ne by congruence.
        rewrite Ho by exact Hlt. exact Ha.
    + rewrite andb_false_r.
      rewrite list_lookup_insert_ne by lia.
      rewrite Ho by exact Hlt. exact Ha.
Qed.
End ParamsFacts.

Lemma write_shares_the_array_witness :
  let h := [["/ip/address/print"]] in
  (Params.valid h (Params.Arr 0) /\ Forall (Params.valid h) [])
  /\ exists sentence h',
      Params.write (Params.Arr 0) [] "a1" h = Some (sentence, h')
      /\ sentence
         = Params.words h (Params.Arr 0)
           ++ concat (Params.words h <$> []) ++ [".tag=" +:+ "a1"]
      /\ forall r a, h !! r = Some a ->
           h' !! r
           = if bool_decide (Params.Arr 0 = Params.Arr r)
                && forallb (Params.is_empty h) []
             then Some (a ++ [".tag=" +:+ "a1"]) else Some a.
Proof.
  cbn zeta.
  assert (H1 : Params.valid [["/ip/address/print"]] (Params.Arr 0))
    by (cbn; lia).
  assert (H2 : Forall (Params.valid [["/ip/address/print"]]) [])
    by constructor.
  split; [auto|].
  exact (write_shares_the_array [["/ip/address/print"]] (Params.Arr 0) []
           "a1" H1 H2).
Defined.

(** The same array written twice is sent with both tag words the second
    time. *)
Example write_same_array_twice :
  (Params.write (Params.Arr 0) [] "a1" [["/ip/address/print"]]
   ≫= fun r => Params.write (Params.Arr 0) [] "a2" r.2)
  = Some (["/ip/address/print"; ".tag=a1"; ".tag=a2"],
          [["/ip/address/print"; ".tag=a1"; ".tag=a2"]]).
Proof. reflexivity. Qed.

(** ** Stream: the flags in every state *)

Section ControlFacts.
Import RStream.

Ltac split_ifs :=
  repeat first
    [ reflexivity
    | match goal with
      | |- context [if ?b then _ else _] => destruct b eqn:?
      | |- context [match ?x with _ => _ end] => destruct x eqn:?
      end ].

Lemma control_iter (f : rstream -> rstream) n s :
  (forall s, control (f s) = control s) ->
  control (Nat.iter n f s) = control s.
Proof.
  intros Hf. induction n as [|n IH]; [reflexivity|].
  rewrite Nat.iter_succ. now rewrite Hf.
Qed.

Lemma control_onStream p s : control (onStream p s) = control s.
Proof. unfold onStream, sendData, act. split_ifs. Qed.

Lemma control_on_channel_stream p s :
  control (on_channel_stream p s) = control s.
Proof. unfold on_channel_stream. now rewrite control_onStream. Qed.

Lemma control_onTrap d s : control (onTrap d s).1 = control s.
Proof. unfold onTrap, act. split_ifs. Qed.

Lemma control_on_channel_trap n d s :
  control (on_channel_trap n d s) = control s.
Proof.
  revert s. induction n as [|n IH]; intros s; [reflexivity|].
  cbn [on_channel_trap].
  pose proof (control_onTrap d
                (set_trap_listeners (Nat.pred (trap_listeners s)) s)) as H.
  destruct (onTrap d (set_trap_listeners (Nat.pred (trap_listeners s)) s))
    as [s' [|?]]; cbn [fst] in H; [rewrite IH|]; exact H.
Qed.

Lemma control_on_channel_close s : control (on_channel_close s) = control s.
Proof. unfold on_channel_close, act. split_ifs. Qed.

Lemma control_channel_close_forced s :
  control (channel_close_forced s) = control s.
Proof.
  unfold channel_close_forced.
  change (control (Nat.iter (close_listeners (act (ChannelClose true) s))
                     on_channel_close (act (ChannelClose true) s))
          = control s).
  now rewrite control_iter by apply control_on_channel_close.
Qed.

Lemma control_onDone s : control (onDone s) = control s.
Proof.
  unfold onDone. destruct (stopped s); [apply control_channel_close_forced|].
  reflexivity.
Qed.

Lemma control_start s : control (start s) = control s.
Proof. unfold start, prepareDebounceEmptyData, act. split_ifs. Qed.

Lemma control_sendData s : control (sendData s) = control s.
Proof. reflexivity. Qed.

Lemma control_debounce_callback s :
  control (debounce_callback s) = control s.
Proof.
  unfold debounce_callback, debounce_run.
  destruct (_ || _); [|reflexivity].
  change (control (onStream (PArray []) s) = control s).
  apply control_onStream.
Qed.

(** What [stop] does to the control flags. *)
Lemma control_stop pausing_arg s :
  control (stop pausing_arg s).1
  = if stopped s || stopping s then control s
    else if paused s then (callback s, pausing s, true, false)
    else (callback s, pausing s, false, negb (pausing s) || stopping s).
Proof.
  unfold stop. destruct (stopped s || stopping s) eqn:E; [reflexivity|].
  apply orb_false_elim in E as [_ E2].
  destruct pausing_arg; cbn [negb]; cbv zeta.
  - destruct (paused s) eqn:Ep.
    + cbn [fst]. rewrite control_channel_close_forced.
      unfold control. cbn. now rewrite Ep.
    + destruct (pausing s) eqn:E3; unfold control; cbn;
        rewrite ?Ep, ?E3, ?E2; reflexivity.
  - change (paused (set_forcelyStop true s)) with (paused s).
    change (pausing (set_forcelyStop true s)) with (pausing s).
    destruct (paused s) eqn:Ep.
    + cbn [fst]. rewrite control_channel_close_forced.
      unfold control. cbn. now rewrite Ep.
    + destruct (pausing s) eqn:E3; unfold control; cbn;
        rewrite ?Ep, ?E3, ?E2; reflexivity.
Qed.

Lemma exclusive_control s s' :
  control s' = control s -> exclusive s -> exclusive s'.
Proof. unfold exclusive, control. intros [= _ -> _ ->]. auto. Qed.

Lemma step_exclusive e s :
  exclusive s -> exclusive (step e s) /\ callback (step e s) = callback s.
Proof.
  intros H.
  assert (Hn : forall s', control s' = control s ->
                          exclusive s' /\ callback s' = callback s).
  { intros s' Hc. split; [now apply (exclusive_control s)|].
    unfold control in Hc. congruence. }
  destruct e; cbn [step].
  - (* resume *)
    unfold resume. destruct (stopped s || stopping s) eqn:E; [now apply Hn|].
    apply orb_false_elim in E as [_ E].
    destruct (negb (streaming s)); [|now apply Hn].
    cbn [fst]. unfold exclusive.
    change (stopping (set_streaming true (start (set_pausing false s))))
      with (stopping (start (set_pausing false s))).
    change (pausing (set_streaming true (start (set_pausing false s))))
      with (pausing (start (set_pausing false s))).
    change (callback (set_streaming true (start (set_pausing false s))))
      with (callback (start (set_pausing false s))).
    pose proof (control_start (set_pausing false s)) as Hc.
    unfold control in Hc. injection Hc as Hc1 Hc2 Hc3 Hc4.
    rewrite Hc1, Hc2, Hc4. cbn. rewrite E. auto.
  - (* pause *)
    unfold pause. destruct (stopped s || stopping s) eqn:E; [now apply Hn|].
    destruct (pausing s || paused s) eqn:E2; [now apply Hn|].
    destruct (streaming s); [|now apply Hn].
    pose proof (control_stop true (set_pausing true s)) as Hc.
    change (stopped (set_pausing true s)) with (stopped s) in Hc.
    change (stopping (set_pausing true s)) with (stopping s) in Hc.
    change (paused (set_pausing true s)) with (paused s) in Hc.
    rewrite E in Hc. apply orb_false_elim in E2 as [_ E2].
    rewrite E2 in Hc.
    apply orb_false_elim in E as [_ E]. cbn in Hc.
    unfold control in Hc. injection Hc as Hc1 Hc2 Hc3 Hc4.
    unfold exclusive. rewrite Hc1, Hc2. rewrite Hc4, E. auto.
  - (* stop *)
    pose proof (control_stop false s) as Hc.
    unfold control in Hc. unfold exclusive in *.
    destruct (stopped s || stopping s); [injection Hc as -> -> _ ->; auto|].
    destruct (paused s); injection Hc as -> -> _ ->; auto.
    destruct (pausing s), (stopping s); auto; discriminate.
  - (* close *)
    unfold close.
    pose proof (control_stop false s) as Hc.
    unfold control in Hc. unfold exclusive in *.
    destruct (stopped s || stopping s); [injection Hc as -> -> _ ->; auto|].
    destruct (paused s); injection Hc as -> -> _ ->; auto.
    destruct (pausing s), (stopping s); auto; discriminate.
  - now apply Hn.
  - apply Hn. apply control_iter. apply control_on_channel_stream.
  - apply Hn. apply control_on_channel_trap.
  - apply Hn.
    rewrite control_iter by apply control_onDone. reflexivity.
  - apply Hn. apply control_iter. apply control_on_channel_close.
  - (* the cancel command is answered *)
    destruct (cancels s) as [|then_pause rest]; [now apply Hn|].
    destruct ok; [|now apply Hn].
    unfold exclusive in *. unfold stop_then, pause_then, act.
    destruct then_pause, (pausing s) eqn:Ep; cbn; rewrite ?Ep; cbn;
      rewrite ?andb_false_r; auto.
  - destruct (debounces s !! i) as [d|]; [|now apply Hn].
    destruct (pending d); [|now apply Hn].
    apply Hn. now rewrite control_debounce_callback.
  - destruct (sectionPacketSendingTimeout s); now apply Hn.
Qed.

Lemma control_eq s s' :
  control s' = control s ->
  callback s' = callback s /\ pausing s' = pausing s
  /\ paused s' = paused s /\ stopping s' = stopping s.
Proof. unfold control. intros [= -> -> -> ->]. auto. Qed.

Lemma control_prepare s :
  control (prepareDebounceEmptyData s) = control s.
Proof. reflexivity. Qed.

Lemma control_streamed params cb :
  callback (streamed params cb) = cb
  /\ pausing (streamed params cb) = false
  /\ paused (streamed params cb) = false
  /\ stopping (streamed params cb) = false.
Proof.
  unfold streamed.
  destruct (control_eq _ _ (control_prepare (start (new params cb))))
    as (-> & -> & -> & ->).
  destruct (control_eq _ _ (control_start (new params cb)))
    as (-> & -> & -> & ->).
  auto.
Qed.

Lemma run_exclusive es : forall s,
  exclusive s ->
  exclusive (run es s) /\ callback (run es s) = callback s.
Proof.
  induction es as [|e es IH]; intros s H; [auto|].
  change (run (e :: es) s) with (run es (step e s)).
  destruct (step_exclusive e s H) as [H1 H2].
  destruct (IH _ H1) as [H3 H4]. split; [exact H3|]. now rewrite H4, H2.
Qed.

Lemma set_last_pending_last b ds d :
  last ds = Some d ->
  last (set_last_pending b ds) = Some {| timeout := timeout d; pending := b |}.
Proof.
  intros Hl. unfold set_last_pending.
  destruct ds as [|x ds] using rev_ind; [discriminate|].
  rewrite last_snoc in Hl. injection Hl as ->.
  rewrite reverse_snoc. now rewrite last_snoc.
Qed.

(** X9.  In every state a stream of [RouterOSAPI.stream] reaches, by
    any sequence of calls, channel events, answers to cancel commands
    and timers, a pending debounce timer that fires emits the synthetic
    empty data, hands it to the callback if one is set, and leaves the
    current timer pending: the test of the four flags never holds it
    back, since no stream is stopping and pausing at once. *)
Theorem synthetic_data_in_every_state
    (params : list string) (cb : bool) (es : list event) (i : nat)
    (d : debounce) :
  let s := run es (streamed params cb) in
  debounces s !! i = Some d -> pending d = true ->
  actions (step (DebounceFires i) s)
  = actions s ++ Emit "data" (Some (PArray []))
      :: (if cb then [Callback None (Some (PArray []))] else [])
  /\ pending <$> last (debounces (step (DebounceFires i) s)) = Some true.
Proof.
  cbn zeta. intros Hd Hp.
  destruct (control_streamed params cb) as (Hc1 & Hc2 & _ & Hc4).
  destruct (run_exclusive es (streamed params cb)) as [Hx Hcb].
  { unfold exclusive. now rewrite Hc2, Hc4. }
  rewrite Hc1 in Hcb. clear Hc1 Hc2 Hc4.
  set (s := run es (streamed params cb)) in *.
  rename Hcb into Hcb'. clearbody s. cbn [step]. rewrite Hd, Hp.
  set (ds := <[i := _]> (debounces s)).
  unfold debounce_callback.
  change (stopped (set_debounces ds s)) with (stopped s).
  change (stopping (set_debounces ds s)) with (stopping s).
  change (paused (set_debounces ds s)) with (paused s).
  change (pausing (set_debounces ds s)) with (pausing s).
  assert (Hg : negb (stopped s) || negb (stopping s) || negb (paused s)
               || negb (pausing s) = true).
  { unfold exclusive in Hx.
    destruct (stopping s), (pausing s); try discriminate;
      rewrite ?orb_true_r; reflexivity. }
  rewrite Hg. unfold debounce_run, onStream, act.
  cbn [section_of callback set_actions set_debounces actions debounces].
  rewrite Hcb'.
  assert (Hlast : exists d', last ds = Some d').
  { destruct (last ds) eqn:E; [eauto|].
    apply last_None in E. apply (f_equal (@length debounce)) in E.
    unfold ds in E. rewrite length_insert in E.
    apply lookup_lt_Some in Hd. cbn in E. lia. }
  destruct Hlast as [d' Hlast].
  destruct cb; cbn [set_actions set_debounces actions debounces];
    rewrite (set_last_pending_last true ds d' Hlast);
    rewrite <- ?app_assoc; split; reflexivity.
Qed.

Lemma step_paused e s : paused s = true -> paused (step e s) = true.
Proof.
  intros H.
  assert (Hn : forall s', control s' = control s -> paused s' = true).
  { intros s' Hc. unfold control in Hc. congruence. }
  destruct e; cbn [step].
  - unfold resume. destruct (stopped s || stopping s); [exact H|].
    destruct (negb (streaming s)); [|exact H]. cbn [fst].
    change (paused (start (set_pausing false s)) = true).
    pose proof (control_start (set_pausing false s)) as Hc.
    unfold control in Hc. injection Hc as _ _ -> _. exact H.
  - unfold pause. destruct (stopped s || stopping s); [exact H|].
    rewrite H, orb_true_r. exact H.
  - pose proof (control_stop false s) as Hc. rewrite H in Hc.
    unfold control in Hc.
    destruct (stopped s || stopping s); injection Hc as _ _ -> _; auto.
  - unfold close. pose proof (control_stop false s) as Hc. rewrite H in Hc.
    unfold control in Hc.
    destruct (stopped s || stopping s); injection Hc as _ _ -> _; auto.
  - exact H.
  - apply Hn. apply control_iter. apply control_on_channel_stream.
  - apply Hn. apply control_on_channel_trap.
  - apply Hn. rewrite control_iter by apply control_onDone. reflexivity.
  - apply Hn. apply control_iter. apply control_on_channel_close.
  - destruct (cancels s) as [|then_pause rest]; [exact H|].
    destruct ok; [|exact H].
    unfold stop_then, pause_then, act. cbn.
    destruct then_pause, (pausing s); cbn; auto.
  - destruct (debounces s !! i) as [d|]; [|exact H].
    destruct (pending d); [|exact H].
    apply Hn. now rewrite control_debounce_callback.
  - destruct (sectionPacketSendingTimeout s); now apply Hn.
Qed.

(** X10.  The paused flag is never cleared: once a stream is paused it
    stays marked so whatever happens, [resume] included.  So every later
    [pause] returns at once, resolved, or rejected when the stream is
    stopped or stopping; it changes nothing and sends no cancel command:
    a stream that was resumed cannot be paused again. *)
Theorem paused_stream_stays_paused (s : rstream) (es : list event) :
  paused s = true ->
  let s' := run es s in
  paused s' = true
  /\ (pause s' = (s', Resolved) \/ pause s' = (s', Rejected "STREAMCLOSD")).
Proof.
  intros H. cbn zeta.
  assert (Hp : paused (run es s) = true).
  { revert s H. induction es as [|e es IH]; intros s H; [exact H|].
    change (run (e :: es) s) with (run es (step e s)).
    apply IH. now apply step_paused. }
  split; [exact Hp|]. unfold pause.
  destruct (stopped (run es s) || stopping (run es s)); [now right|].
  rewrite Hp, orb_true_r. now left.
Qed.
End ControlFacts.

Lemma synthetic_data_in_every_state_witness :
  let params := ["/interface/monitor-traffic"; "=interface=ether1"] in
  let packet : gmap string string := {[ "rx-bits-per-second" := "0" ]} in
  let es := [RStream.ChannelStream packet; RStream.CallStop] in
  let late := [RStream.ChannelStream packet] in
  let s := RStream.run (es ++ late) (RStream.streamed params true) in
  let d := {| RStream.timeout := Some 2300; RStream.pending := true |} in
  (RStream.debounces s !! 0%nat = Some d /\ RStream.pending d = true
   /\ RStream.stopping s = true)
  /\ RStream.actions (RStream.step (RStream.DebounceFires 0) s)
     = RStream.actions s
       ++ [RStream.Emit "data" (Some (RStream.PArray []));
           RStream.Callback None (Some (RStream.PArray []))]
  /\ RStream.pending
     <$> last (RStream.debounces (RStream.step (RStream.DebounceFires 0) s))
     = Some true.
Proof.
  cbn zeta.
  assert (H1 : RStream.debounces
                 (RStream.run
                    ([RStream.ChannelStream {[ "rx-bits-per-second" := "0" ]};
                      RStream.CallStop]
                     ++ [RStream.ChannelStream
                           {[ "rx-bits-per-second" := "0" ]}])
                    (RStream.streamed
                       ["/interface/monitor-traffic"; "=interface=ether1"]
                       true)) !! 0%nat
               = Some {| RStream.timeout := Some 2300;
                         RStream.pending := true |})
    by (vm_compute; reflexivity).
  split; [split; [exact H1|split; vm_compute; reflexivity]|].
  exact (synthetic_data_in_every_state
           ["/interface/monitor-traffic"; "=interface=ether1"] true
           _ 0%nat _ H1 eq_refl).
Defined.

Lemma paused_stream_stays_paused_witness :
  let interrupted : gmap string string := {[ "message" := "interrupted" ]} in
  let s := RStream.run [RStream.CallPause; RStream.ChannelTrap interrupted;
                        RStream.CancelSettled true]
             (RStream.streamed ["/ip/address/listen"] true) in
  let s' := RStream.run [RStream.CallResume] s in
  RStream.paused s = true
  /\ RStream.streaming s' = true
  /\ RStream.paused s' = true
  /\ (RStream.pause s' = (s', RStream.Resolved)
      \/ RStream.pause s' = (s', RStream.Rejected "STREAMCLOSD")).
Proof.
  cbn zeta.
  assert (H : RStream.paused
                (RStream.run
                   [RStream.CallPause;
                    RStream.ChannelTrap {[ "message" := "interrupted" ]};
                    RStream.CancelSettled true]
                   (RStream.streamed ["/ip/address/listen"] true)) = true)
    by (vm_compute; reflexivity).
  split; [exact H|]. split; [vm_compute; reflexivity|].
  exact (paused_stream_stays_paused _ [RStream.CallResume] H).
Defined.

(** ** Stream: replies in sections *)

Section SectionFacts.
Import RStream.

Lemma section_of_record r sec :
  section_of (PRecord r) = Some sec -> in_section sec r /\ sec <> "".
Proof.
  unfold section_of, in_section.
  destruct (r !! ".section") as [x|]; [|discriminate].
  case_decide; [discriminate|]. intros [= ->]. auto.
Qed.

Lemma delivered_sendData s :
  delivered (sendData s) = delivered s ++ [currentSectionPacket s].
Proof.
  unfold sendData, delivered, act.
  cbn [actions set_actions set_currentSectionPacket].
  now rewrite omap_app.
Qed.

Lemma grouping_fragment seen r sec s :
  section_of (PRecord r) = Some sec ->
  grouping seen s -> grouping (seen ++ [r]) (on_channel_stream r s).
Proof.
  intros Hsec (Hcb & Hl & Hseen & Hgroups & Hcur & Htimer).
  destruct (section_of_record r sec Hsec) as [Hin Hne].
  unfold on_channel_stream, onStream, debounce_run, act.
  cbn [callback set_actions set_debounces]. rewrite Hcb, Hsec.
  cbn [currentSectionPacket currentSection set_sectionPacketSendingTimeout
       set_actions set_debounces].
  destruct ((0 <? length (currentSectionPacket s))%nat
            && negb (bool_decide (Some sec = currentSection s))) eqn:E.
  - apply andb_true_iff in E as [E1 E2].
    assert (Hne' : currentSectionPacket s <> []).
    { destruct (currentSectionPacket s); [discriminate|discriminate]. }
    destruct (Hcur Hne') as (sec' & Hs' & Hne'' & Hall).
    unfold grouping, delivered, sendData, act. cbn.
    rewrite !omap_app. cbn. rewrite app_nil_r.
    fold (delivered s).
    split; [exact Hcb|]. split; [exact Hl|].
    split; [rewrite concat_app; cbn; rewrite app_nil_r; now rewrite Hseen|].
    split.
    { apply Forall_app. split; [exact Hgroups|].
      constructor; [|constructor]. split; [exact Hne'|]. eauto. }
    split; [|discriminate].
    intros _. exists sec. split; [reflexivity|]. split; [exact Hne|].
    constructor; [exact Hin|constructor].
  - unfold grouping, delivered. cbn.
    rewrite !omap_app. cbn. rewrite app_nil_r. fold (delivered s).
    split; [exact Hcb|]. split; [exact Hl|].
    split; [now rewrite app_assoc, Hseen|].
    split; [exact Hgroups|].
    split; [|intros _; now destruct (currentSectionPacket s)].
    intros _. exists sec. split; [reflexivity|]. split; [exact Hne|].
    apply Forall_app. split; [|constructor; [exact Hin|constructor]].
    destruct (currentSectionPacket s) as [|x l] eqn:Ec; [constructor|].
    destruct Hcur as (sec' & Hs' & _ & Hall); [discriminate|].
    cbn in E. rewrite Hs' in E.
    apply negb_false_iff, bool_decide_eq_true in E. now injection E as ->.
Qed.

Lemma grouping_timer seen s :
  grouping seen s -> grouping seen (step SectionTimerFires s).
Proof.
  intros (Hcb & Hl & Hseen & Hgroups & Hcur & Htimer). cbn [step].
  destruct (sectionPacketSendingTimeout s) eqn:E;
    [|repeat split; auto; congruence].
  specialize (Htimer eq_refl). destruct (Hcur Htimer) as (sec & _ & Hne & Hall).
  unfold grouping. rewrite delivered_sendData.
  unfold sendData, act. cbn.
  split; [exact Hcb|]. split; [exact Hl|].
  split; [rewrite concat_app; cbn; now rewrite !app_nil_r|].
  split.
  { apply Forall_app. split; [exact Hgroups|].
    constructor; [|constructor]. split; [exact Htimer|eauto]. }
  split; [congruence|discriminate].
Qed.

Lemma grouping_run es : forall seen s,
  Forall sectioned es -> grouping seen s ->
  grouping (seen ++ fragments es) (run es s).
Proof.
  induction es as [|e es IH]; intros seen s Hes Hg.
  - cbn. now rewrite app_nil_r.
  - inversion Hes as [|? ? He Hrest]; subst.
    change (run (e :: es) s) with (run es (step e s)).
    destruct e; try contradiction.
    + change (fragments (ChannelStream packet :: es))
        with (packet :: fragments es).
      cbn [sectioned] in He. destruct He as [sec Hsec].
      replace (seen ++ packet :: fragments es)
        with ((seen ++ [packet]) ++ fragments es)
        by now rewrite <- app_assoc.
      apply IH; [exact Hrest|]. cbn [step].
      pose proof Hg as (_ & Hl & _). rewrite Hl. cbn [Nat.iter].
      now apply (grouping_fragment _ _ sec).
    + change (fragments (SectionTimerFires :: es)) with (fragments es).
      apply IH; [exact Hrest|]. now apply grouping_timer.
Qed.

(** X11.  A stream of [RouterOSAPI.stream] with a callback that
    receives the fragments of a reply in sections, with the timer of the
    section firing at any points in between: the arrays handed to the
    callback, one after the other, followed by the fragments still held
    back, are exactly the fragments received, in order: none is lost,
    repeated or moved.  Every array handed over is not empty and holds
    fragments of one section only, and the timer is pending only while
    fragments are held back. *)
Theorem sections_are_handed_over_whole
    (params : list string) (es : list event) :
  Forall sectioned es ->
  let s := run es (streamed params true) in
  concat (delivered s) ++ currentSectionPacket s = fragments es
  /\ Forall (fun l => l <> []
                      /\ exists sec, sec <> "" /\ Forall (in_section sec) l)
       (delivered s)
  /\ (sectionPacketSendingTimeout s = false
      \/ currentSectionPacket s <> []).
Proof.
  intros Hes. cbn zeta.
  assert (Hg : grouping [] (streamed params true)).
  { unfold grouping, streamed, prepareDebounceEmptyData, start, new, act.
    cbn. generalize (debounce_timeout params). intros t.
    repeat split; auto; try discriminate. congruence. }
  pose proof (grouping_run es [] _ Hes Hg) as (_ & _ & H1 & H2 & _ & H3).
  split; [exact H1|]. split; [exact H2|].
  destruct (sectionPacketSendingTimeout _); auto.
Qed.
End SectionFacts.

Lemma sections_are_handed_over_whole_witness :
  let a1 : gmap string string := {[ ".section" := "0"; "tx" := "1" ]} in
  let a2 : gmap string string := {[ ".section" := "0"; "tx" := "2" ]} in
  let b1 : gmap string string := {[ ".section" := "1"; "tx" := "3" ]} in
  let es := [RStream.ChannelStream a1; RStream.ChannelStream a2;
             RStream.ChannelStream b1] in
  let s := RStream.run es (RStream.streamed ["/tool/torch"] true) in
  Forall RStream.sectioned es
  /\ RStream.delivered s = [[a1; a2]]
  /\ RStream.currentSectionPacket s = [b1]
  /\ concat (RStream.delivered s) ++ RStream.currentSectionPacket s
     = RStream.fragments es.
Proof.
  cbn zeta.
  assert (H : Forall RStream.sectioned
                [RStream.ChannelStream {[ ".section" := "0"; "tx" := "1" ]};
                 RStream.ChannelStream {[ ".section" := "0"; "tx" := "2" ]};
                 RStream.ChannelStream {[ ".section" := "1"; "tx" := "3" ]}]).
  { repeat constructor; eexists; vm_compute; reflexivity. }
  split; [exact H|].
  split; [vm_compute; reflexivity|]. split; [vm_compute; reflexivity|].
  exact (proj1 (sections_are_handed_over_whole ["/tool/torch"] _ H)).
Defined.

(** ** Stream: after a resume *)

Section ResumeFacts.
Import RStream.

Lemma on_channel_stream_plain packet s :
  section_of (PRecord packet) = None ->
  actions (on_channel_stream packet s)
  = actions s ++ handed_over packet (callback s)
  /\ callback (on_channel_stream packet s) = callback s.
Proof.
  intros Hsec. split; [|pose proof (control_on_channel_stream packet s) as H;
                         now apply control_eq in H].
  unfold on_channel_stream, onStream, debounce_run, act, handed_over.
  cbn [callback set_actions set_debounces actions]. rewrite Hsec.
  destruct (callback s); cbn [set_actions actions];
    rewrite <- ?app_assoc; reflexivity.
Qed.

Lemma iter_on_channel_stream packet n : forall s,
  section_of (PRecord packet) = None ->
  actions (Nat.iter n (on_channel_stream packet) s)
  = actions s ++ mjoin (replicate n (handed_over packet (callback s)))
  /\ callback (Nat.iter n (on_channel_stream packet) s) = callback s.
Proof.
  induction n as [|n IH]; intros s Hsec.
  - cbn. now rewrite app_nil_r.
  - rewrite Nat.iter_succ_r.
    destruct (on_channel_stream_plain packet s Hsec) as [Ha Hc].
    destruct (IH (on_channel_stream packet s) Hsec) as [-> ->].
    rewrite Ha, Hc. split; [|reflexivity].
    cbn [replicate mjoin list_join]. now rewrite <- app_assoc.
Qed.

(** X12.  [resume] registers the listeners of the stream on its channel
    again, and the ones registered before are still there.  So while a
    stream that was just started hands a sentence over once, a stream
    that was paused and resumed hands every sentence over twice: two
    data events, and two calls of the callback if one is set.  (The
    pause is answered by the trap of the interrupted command, and then
    by the end of the cancel command and the close of the channel, in
    either order.) *)
Theorem resumed_stream_hands_over_twice
    (params : list string) (cb early : bool)
    (packet : gmap string string) :
  section_of (PRecord packet) = None ->
  let interrupted : gmap string string := {[ "message" := "interrupted" ]} in
  let s0 := streamed params cb in
  let s := run ([CallPause; ChannelTrap interrupted]
                ++ (if early then [ChannelClosed; CancelSettled true]
                    else [CancelSettled true; ChannelClosed])
                ++ [CallResume]) s0 in
  actions (step (ChannelStream packet) s0)
  = actions s0 ++ handed_over packet cb
  /\ streaming s = true /\ stopped s = false
  /\ actions (step (ChannelStream packet) s)
     = actions s ++ handed_over packet cb ++ handed_over packet cb.
Proof.
  intros Hsec. cbn zeta.
  assert (H0 : stream_listeners (streamed params cb) = 1%nat
               /\ callback (streamed params cb) = cb).
  { split; [|exact (proj1 (control_streamed params cb))].
    vm_compute. reflexivity. }
  destruct H0 as [Hl0 Hc0].
  split.
  { cbn [step]. rewrite Hl0.
    destruct (iter_on_channel_stream packet 1 (streamed params cb) Hsec)
      as [-> _]. rewrite Hc0. cbn [replicate mjoin list_join].
    now rewrite app_nil_r. }
  set (s := run _ _).
  assert (Hs : streaming s = true /\ stopped s = false
               /\ stream_listeners s = 2%nat /\ callback s = cb).
  { unfold s. rewrite streamed_eq.
    generalize (debounce_timeout params). intros t.
    destruct cb, early; vm_compute; auto. }
  destruct Hs as (H1 & H2 & H3 & H4). clearbody s.
  split; [exact H1|]. split; [exact H2|].
  cbn [step]. rewrite H3.
  destruct (iter_on_channel_stream packet 2 s Hsec) as [-> _].
  rewrite H4. cbn [replicate mjoin list_join]. now rewrite app_nil_r.
Qed.
End ResumeFacts.

Lemma resumed_stream_hands_over_twice_witness :
  let packet : gmap string string := {[ "address" := "10.0.0.1/24" ]} in
  let interrupted : gmap string string := {[ "message" := "interrupted" ]} in
  let s0 := RStream.streamed ["/ip/address/listen"] true in
  let s := RStream.run [RStream.CallPause; RStream.ChannelTrap interrupted;
                        RStream.CancelSettled true; RStream.ChannelClosed;
                        RStream.CallResume] s0 in
  RStream.section_of (RStream.PRecord packet) = None
  /\ RStream.actions (RStream.step (RStream.ChannelStream packet) s0)
     = RStream.actions s0 ++ RStream.handed_over packet true
  /\ RStream.streaming s = true /\ RStream.stopped s = false
  /\ RStream.actions (RStream.step (RStream.ChannelStream packet) s)
     = RStream.actions s ++ RStream.handed_over packet true
       ++ RStream.handed_over packet true.
Proof.
  cbn zeta.
  assert (H : RStream.section_of
                (RStream.PRecord {[ "address" := "10.0.0.1/24" ]}) = None)
    by (vm_compute; reflexivity).
  split; [exact H|].
  exact (resumed_stream_hands_over_twice ["/ip/address/listen"] true false
           _ H).
Defined.

(** ** Stream: the delay of the synthetic empty data *)

Section IntervalFacts.
Import JSString JSNumber RStream.

Lemma digits_string_of_uint d : forall a,
  0 <= a ->
  digits 10 (NilEmpty.string_of_uint d) (Some a)
  = Some (Z.of_nat (Nat.of_uint_acc d (Z.to_nat a))).
Proof.
  induction d; intros a Ha; cbn [NilEmpty.string_of_uint Nat.of_uint_acc];
    rewrite ?Nat.tail_mul_spec;
    try (cbn [digits]; vm_compute (digit_value _);
         cbn [Z.ltb Z.compare Pos.compare Pos.compare_cont default
              from_option]; unfold id;
         rewrite IHd by lia; do 3 f_equal; lia).
  cbn [digits]. f_equal. lia.
Qed.

Lemma contains_string_of_uint d :
  contains "=" (NilEmpty.string_of_uint d) = false.
Proof. induction d; cbn; auto. Qed.

Lemma to_uint_not_nil n : Nat.to_uint n <> Decimal.Nil.
Proof.
  intros H. pose proof (Unsigned.of_to n) as E. rewrite H in E.
  cbn in E. subst n. discriminate.
Qed.

Lemma decimal_string n :
  decimal n = NilEmpty.string_of_uint (Nat.to_uint n).
Proof.
  unfold decimal, NilZero.string_of_uint.
  pose proof (to_uint_not_nil n). destruct (Nat.to_uint n); congruence.
Qed.

Lemma parseInt_string_of_uint d :
  d <> Decimal.Nil ->
  parseInt (NilEmpty.string_of_uint d) = Some (Z.of_nat (Nat.of_uint d)).
Proof.
  intros Hd. unfold parseInt, Nat.of_uint.
  destruct d as [|d|d|d|d|d|d|d|d|d|d]; [congruence|..];
    cbn [NilEmpty.string_of_uint skip_spaces]; vm_compute (is_space _);
    cbv iota;
    try (cbn [digits]; vm_compute (digit_value _);
         cbn [Z.ltb Z.compare Pos.compare Pos.compare_cont default
              from_option];
         rewrite digits_string_of_uint by lia;
         cbn [fmap option_fmap option_map]; rewrite Z.mul_1_l;
         reflexivity).
  destruct d as [|d|d|d|d|d|d|d|d|d|d];
    cbn [NilEmpty.string_of_uint]; cbv iota;
    cbn [digits]; vm_compute (digit_value _);
    cbn [Z.ltb Z.compare Pos.compare Pos.compare_cont default from_option];
    unfold id; try reflexivity;
    rewrite digits_string_of_uint by lia;
    cbn [fmap option_fmap option_map]; rewrite Z.mul_1_l; reflexivity.
Qed.

Lemma parseInt_decimal n : parseInt (decimal n) = Some (Z.of_nat n).
Proof.
  rewrite decimal_string, parseInt_string_of_uint by apply to_uint_not_nil.
  now rewrite Unsigned.of_to.
Qed.

Lemma contains_decimal n : contains "=" (decimal n) = false.
Proof. rewrite decimal_string. apply contains_string_of_uint. Qed.

Lemma find_first {A} (P : A -> bool) pre x post :
  Forall (fun y => P y = false) pre -> P x = true ->
  List.find P (pre ++ x :: post) = Some x.
Proof.
  intros Hpre Hx. induction Hpre as [|y pre Hy _ IH]; cbn.
  - now rewrite Hx.
  - now rewrite Hy.
Qed.

Lemma find_none {A} (P : A -> bool) l :
  Forall (fun y => P y = false) l -> List.find P l = None.
Proof. intros H. induction H as [|y l Hy _ IH]; cbn; [|rewrite Hy]; auto. Qed.

Lemma prefix_append s x : String.prefix s (s +:+ x) = true.
Proof.
  induction s as [|c s IH]; [now destruct x|].
  change (String.prefix (String c s) (String c s +:+ x))
    with (if ascii_dec c c then String.prefix s (s +:+ x) else false).
  destruct (ascii_dec c c); [exact IH|congruence].
Qed.

Lemma includes_append s x : includes s (s +:+ x) = true.
Proof.
  pose proof (prefix_append s x) as H.
  destruct (s +:+ x); cbn [includes]; now rewrite H.
Qed.

(** X13.  The delay of the synthetic empty data, from the parameters of
    the stream: when the first parameter that holds [=interval=] is
    [=interval=n] for a number of seconds [n] written in decimal, the
    delay is [n * 1000 + 300] ms, whatever parameters stand before and
    after it; with no such parameter it is 2300 ms.  ([n] is taken small
    enough for the delay to be an exact JavaScript number.) *)
Theorem debounce_timeout_of_interval
    (pre post : list string) (n : nat) :
  Forall (fun param => includes "=interval=" param = false) pre ->
  Z.of_nat n * 1000 + 300 < 2 ^ 53 ->
  debounce_timeout (pre ++ ("=interval=" +:+ decimal n) :: post)
  = Some (Z.of_nat n * 1000 + 300)
  /\ debounce_timeout pre = Some 2300.
Proof.
  intros Hpre _. unfold debounce_timeout.
  rewrite (find_none (fun param => includes "=interval=" param) pre Hpre).
  rewrite (find_first (fun param => includes "=interval=" param)
             pre _ post Hpre) by apply includes_append.
  split; [|reflexivity].
  change ("=interval=" +:+ decimal n)
    with ("" +:+ String "=" ("interval" +:+ String "=" (decimal n))).
  rewrite (split_at_first "=" "") by reflexivity.
  rewrite (split_at_first "=" "interval") by reflexivity.
  rewrite split_no_sep by apply contains_decimal.
  cbn [lookup list_lookup default from_option]. unfold id.
  rewrite parseInt_decimal. reflexivity.
Qed.
End IntervalFacts.

Lemma debounce_timeout_of_interval_witness :
  let pre := ["/interface/monitor-traffic"; "=interface=ether1"] in
  let post := ["=.proplist=rx-bits-per-second"] in
  (Forall (fun param => JSString.includes "=interval=" param = false) pre
   /\ Z.of_nat 5 * 1000 + 300 < 2 ^ 53)
  /\ RStream.debounce_timeout (pre ++ "=interval=5" :: post) = Some 5300
  /\ RStream.debounce_timeout pre = Some 2300.
Proof.
  cbn zeta.
  assert (H1 : Forall
                 (fun param => JSString.includes "=interval=" param = false)
                 ["/interface/monitor-traffic"; "=interface=ether1"])
    by (repeat constructor).
  assert (H2 : Z.of_nat 5 * 1000 + 300 < 2 ^ 53) by (vm_compute; reflexivity).
  split; [split; assumption|].
  exact (debounce_timeout_of_interval _ ["=.proplist=rx-bits-per-second"]
           5%nat H1 H2).
Defined.

(** ** Login: passwords of ASCII characters *)

Section LoginResponseFacts.
Import RouterOSAPI.

(** X14.  The response [login] sends to a challenge of the router, for a
    password of ASCII characters and a challenge of 32 hexadecimal
    digits, upper or lower case: the text [00] followed by the
    hexadecimal digest of one zero byte, the characters of the password,
    and the 16 bytes the challenge denotes, whatever the hash function
    is. *)
Theorem login_response_of_ascii_password
    (md5 : list Z -> list Z) (password ret : string) :
  is_ascii password = true -> is_hex32 ret = true ->
  login_response md5 password ret
  = Some ("00" +:+ JSString.hex_string
                     (md5 (0 :: code_units password
                           ++ JSString.hex_decode ret)))
  /\ length (JSString.hex_decode ret) = 16%nat.
Proof.
  intros Hascii Hhex. split.
  - rewrite (login_response_ascii md5 password ret Hascii Hhex).
    reflexivity.
  - unfold is_hex32 in Hhex. apply andb_true_iff in Hhex as [Hlen Hall].
    apply Nat.eqb_eq in Hlen. exact (hex_decode_length 16 ret Hlen Hall).
Qed.

End LoginResponseFacts.

Lemma login_response_of_ascii_password_witness :
  (RouterOSAPI.is_ascii "admin" = true
   /\ RouterOSAPI.is_hex32 "0123456789abcdefABCDEF0123456789" = true)
  /\ RouterOSAPI.login_response MD5.digest "admin"
       "0123456789abcdefABCDEF0123456789"
     = Some ("00" +:+ JSString.hex_string
                        (MD5.digest
                           (0 :: code_units "admin"
                            ++ JSString.hex_decode
                                 "0123456789abcdefABCDEF0123456789")))
  /\ length (JSString.hex_decode "0123456789abcdefABCDEF0123456789")
     = 16%nat.
Proof.
  split; [split; reflexivity|].
  exact (login_response_of_ascii_password MD5.digest "admin"
           "0123456789abcdefABCDEF0123456789" eq_refl eq_refl).
Defined.

(** ** The HTTP handlers *)

Section ControllerFacts.
Import Controllers JSNumber.

Lemma find_first_split {A} (P : A -> bool) l x :
  List.find P l = Some x ->
  exists l1 l2, l = l1 ++ x :: l2 /\ P x = true
                /\ Forall (fun y => P y = false) l1.
Proof.
  induction l as [|y l IH]; [discriminate|]. cbn.
  destruct (P y) eqn:E.
  - intros [= ->]. exists [], l. auto.
  - intros H. destruct (IH H) as (l1 & l2 & -> & Hx & Hl1).
    exists (y :: l1), l2. auto.
Qed.

Lemma find_none_Forall {A} (P : A -> bool) l :
  List.find P l = None -> Forall (fun y => P y = false) l.
Proof.
  induction l as [|y l IH]; [constructor|]. cbn.
  destruct (P y) eqn:E; [discriminate|]. auto.
Qed.

Lemma used_spec users queues ip :
  Some ip ∉ Part005.usedIPs users queues
  <-> Forall (fun u : gmap string string => u !! "remote-address" <> Some ip)
        users
      /\ Forall (fun q => Part005.target_address q <> Some ip) queues.
Proof.
  unfold Part005.usedIPs. rewrite not_elem_of_app. rewrite !Forall_forall.
  split.
  - intros [Hu Hq]. split; intros x Hx E; [apply Hu | apply Hq];
      rewrite <- E; apply list_elem_of_fmap; eauto.
  - intros [Hu Hq]. split; intros H; apply list_elem_of_fmap in H
      as (x & E & Hx); [apply (Hu x Hx) | apply (Hq x Hx)]; congruence.
Qed.

(** X16.  The address [addUser] of unnamed/part_005 picks for a new
    user, from the users and queues of the router: it is 192.168.56.i
    for the least i from 10 to 254 such that no user has it as remote
    address and no queue as the address of its target; every address
    before it is used.  No address is picked only when all 245 are
    used. *)
Theorem availableIP_is_first_free
    (existingUsers existingQueues : list (gmap string string)) :
  let used := Part005.usedIPs existingUsers existingQueues in
  match Part005.availableIP used with
  | Some ip =>
      exists i, (10 <= i <= 254)%nat /\ ip = "192.168.56." +:+ decimal i
        /\ Forall (fun u : gmap string string =>
                     u !! "remote-address" <> Some ip) existingUsers
        /\ Forall (fun q => Part005.target_address q <> Some ip) existingQueues
        /\ forall j, (10 <= j < i)%nat ->
             Some ("192.168.56." +:+ decimal j) ∈ used
  | None =>
      forall i, (10 <= i <= 254)%nat ->
        Some ("192.168.56." +:+ decimal i) ∈ used
  end.
Proof.
  cbn zeta. unfold Part005.availableIP.
  set (used := Part005.usedIPs existingUsers existingQueues).
  set (P := fun i => negb (bool_decide (Some (Part005.candidate i) ∈ used))).
  change (Part005.ipEnd + 1 - Part005.ipStart)%nat with 245%nat. change Part005.ipStart with 10%nat.
  assert (Hc : forall i, Part005.candidate i = "192.168.56." +:+ decimal i)
    by reflexivity.
  destruct (List.find P (seq 10 245)) as [i|] eqn:E; cbn [fmap option_fmap option_map].
  - destruct (find_first_split P _ _ E) as (l1 & l2 & Hseq & Hi & Hl1).
    assert (Hlen : (length l1 < 245)%nat).
    { apply (f_equal (@length nat)) in Hseq.
      rewrite length_seq, length_app in Hseq. cbn in Hseq. lia. }
    assert (Hi' : i = (10 + length l1)%nat).
    { apply (f_equal (fun l => l !! length l1)) in Hseq.
      rewrite lookup_seq_lt in Hseq by exact Hlen.
      rewrite list_lookup_middle in Hseq by reflexivity. congruence. }
    exists i. split; [lia|]. split; [apply Hc|].
    unfold P in Hi. apply negb_true_iff, bool_decide_eq_false in Hi.
    apply used_spec in Hi as [Hu Hq]. rewrite Hc in Hu, Hq.
    split; [exact Hu|]. split; [exact Hq|].
    intros j Hj. rewrite <- Hc.
    assert (Hj' : l1 !! (j - 10)%nat = Some j).
    { apply (f_equal (fun l => l !! (j - 10)%nat)) in Hseq.
      rewrite lookup_seq_lt in Hseq by lia.
      rewrite lookup_app_l in Hseq by lia.
      rewrite <- Hseq. f_equal. lia. }
    rewrite Forall_forall in Hl1.
    specialize (Hl1 j (list_elem_of_lookup_2 _ _ _ Hj')).
    unfold P in Hl1. apply negb_false_iff, bool_decide_eq_true in Hl1.
    exact Hl1.
  - intros i Hi. rewrite <- Hc.
    pose proof (find_none_Forall P _ E) as Hall.
    rewrite Forall_forall in Hall.
    assert (Hin : i ∈ seq 10 245) by (apply elem_of_seq; lia).
    specialize (Hall i Hin). unfold P in Hall.
    now apply negb_false_iff, bool_decide_eq_true in Hall.
Qed.

(** X17.  [pollLogs], when its three calls resolve, connects, prints the
    log, closes, and answers with status 200 and the last 20 records of
    the log (all of them if there are fewer), newest first: record [i]
    of the answer is record [i] from the end of the log. *)
Theorem pollLogs_newest_first
    (logs c1 c3 : list (gmap string string)) (rest : list answer) :
  exists recent,
    run pollLogs (Resolves c1 :: Resolves logs :: Resolves c3 :: rest)
    = ([Connect; Write "/log/print" []; Close],
       Some {| status := 200; body := Records recent |})
    /\ length recent = Nat.min 20 (length logs)
    /\ forall i, (i < length recent)%nat ->
         recent !! i = logs !! (length logs - 1 - i)%nat.
Proof.
  exists (reverse (slice_last 20 logs)). split; [reflexivity|].
  unfold slice_last. rewrite length_reverse, length_drop.
  split; [lia|]. intros i Hi.
  rewrite reverse_lookup by (rewrite length_drop; lia).
  rewrite length_drop, lookup_drop. f_equal. lia.
Qed.

Ltac not_in_log H :=
  repeat (apply elem_of_cons in H as [H|H]; [discriminate|]);
  apply elem_of_nil in H; contradiction.

Lemma find_throwing_none test l :
  find_throwing test l = Some None ->
  Forall (fun x => test x = Some false) l.
Proof.
  induction l as [|x l IH]; [constructor|]. cbn.
  destruct (test x) as [[|]|] eqn:E; try discriminate. auto.
Qed.

Lemma find_throwing_throws test l :
  find_throwing test l = None -> exists x, x ∈ l /\ test x = None.
Proof.
  induction l as [|x l IH]; [discriminate|]. cbn.
  destruct (test x) as [[|]|] eqn:E; try discriminate.
  - intros H. destruct (IH H) as (y & Hy & Ey).
    exists y. split; [now apply list_elem_of_further|exact Ey].
  - intros _. exists x. split; [apply list_elem_of_here|exact E].
Qed.

Lemma duplicate_queue_test_throws name remoteAddress q :
  duplicate_queue_test name remoteAddress q = None ->
  to_string remoteAddress = None.
Proof.
  unfold duplicate_queue_test.
  destruct (strict_eq _ _); [discriminate|].
  destruct (q !! "target"); [|discriminate].
  now destruct (to_string remoteAddress).
Qed.

Lemma to_string_or_default d v :
  to_string (or_default d v) = None -> to_string v = None.
Proof. destruct v; cbn; congruence. Qed.

Lemma strict_eq_string field s :
  strict_eq field (JString s) = false -> field <> Some s.
Proof.
  destruct field as [s'|]; cbn; [|discriminate].
  intros H%bool_decide_eq_false. congruence.
Qed.

Lemma expired_comment_eq expiredAt st :
  expired_comment expiredAt st
  = or_type_error
      (if truthy expiredAt
       then (fun s => "expired:" +:+ s) <$> to_string expiredAt
       else Some "") st.
Proof.
  unfold expired_comment, template, or_type_error, mbind, mret, M_bind,
    M_ret.
  destruct (truthy expiredAt); [|reflexivity].
  now destruct (to_string expiredAt).
Qed.

(** X15.  [addUser] of pppoeController.js sends [/ppp/secret/add] only
    for a body with a truthy remote address, after the connection and
    both prints resolved, when the fields it writes can be converted to
    text, and only if no user of the router has a name or a remote
    address strictly equal to that of the body, and no queue has such a
    name, or a target that holds the text of the address.  It sends it
    as the fourth call, with parameters made of the texts of the fields
    of the body, and the call after it, if any, adds the queue of the
    same name and address.  Strict equality holds between strings only:
    for a name and an address that are strings, no user has that name
    or that address. *)
Theorem addUser_adds_no_duplicate
    (b : new_user) (answers : list answer) (params : list string) :
  Write "/ppp/secret/add" params ∈ (run (addUser b) answers).1 ->
  exists w_name w_password w_profile w_address w_comment
         c users queues rest post,
    truthy (u_remote_address b) = true
    /\ (to_string (u_name b) = Some w_name
        /\ to_string (u_password b) = Some w_password
        /\ to_string (or_default "default" (u_profile b)) = Some w_profile
        /\ to_string (u_remote_address b) = Some w_address
        /\ (if truthy (u_expiredAt b)
            then (fun s => "expired:" +:+ s) <$> to_string (u_expiredAt b)
            else Some "") = Some w_comment)
    /\ answers = Resolves c :: Resolves users :: Resolves queues :: rest
    /\ Forall (fun u : gmap string string =>
                 strict_eq (u !! "name") (u_name b) = false
                 /\ strict_eq (u !! "remote-address") (u_remote_address b)
                    = false) users
    /\ Forall (fun q : gmap string string =>
                 strict_eq (q !! "name") (u_name b) = false
                 /\ forall target, q !! "target" = Some target ->
                      JSString.includes w_address target = false) queues
    /\ ((forall s, u_name b = JString s ->
           Forall (fun u : gmap string string => u !! "name" <> Some s)
             users)
        /\ (forall s, u_remote_address b = JString s ->
              Forall (fun u : gmap string string =>
                        u !! "remote-address" <> Some s) users))
    /\ params = ["=name=" +:+ w_name;
                 "=password=" +:+ w_password;
                 "=profile=" +:+ w_profile;
                 "=remote-address=" +:+ w_address;
                 "=comment=" +:+ w_comment;
                 "=service=pppoe"]
    /\ (run (addUser b) answers).1
       = [Connect; Write "/ppp/secret/print" [];
          Write "/queue/simple/print" []; Write "/ppp/secret/add" params]
         ++ post
    /\ (post = []
        \/ exists w_limit,
             to_string (or_default "1M/1M" (u_maxLimit b)) = Some w_limit
             /\ head post
                = Some (Write "/queue/simple/add"
                          ["=name=" +:+ w_name; "=target=" +:+ w_address;
                           "=max-limit=" +:+ w_limit])).
Proof.
  unfold run, addUser.
  destruct (truthy (u_remote_address b)) eqn:Ea; cbn [negb];
    [|intros H; not_in_log H].
  unfold try_catch, await, respond, template,
    mbind, mret, M_bind, M_ret.
  cbn [or_type_error fst snd app].
  destruct answers as [|[c|m] answers]; cbn [or_type_error fst snd app];
    [intros H; not_in_log H| |intros H; not_in_log H].
  destruct answers as [|[users|m] answers]; cbn [or_type_error fst snd app];
    [intros H; not_in_log H| |intros H; not_in_log H].
  unfold find_record.
  match goal with
  | |- context [bool_decide (is_Some (List.find ?f users))] =>
      destruct (List.find f users) as [u|] eqn:Eu1
  end.
  { rewrite bool_decide_eq_true_2 by eauto.
    destruct answers as [|[?|m] answers]; cbn [or_type_error fst snd app];
      intros H; not_in_log H. }
  rewrite bool_decide_eq_false_2 by (intros [? ?]; discriminate).
  match goal with
  | |- context [bool_decide (is_Some (List.find ?f users))] =>
      destruct (List.find f users) as [u|] eqn:Eu2
  end.
  { rewrite bool_decide_eq_true_2 by eauto.
    destruct answers as [|[?|m] answers]; cbn [or_type_error fst snd app];
      intros H; not_in_log H. }
  rewrite bool_decide_eq_false_2 by (intros [? ?]; discriminate).
  destruct answers as [|[queues|m] answers]; cbn [or_type_error fst snd app];
    [intros H; not_in_log H| |intros H; not_in_log H].
  destruct (find_throwing
              (duplicate_queue_test (u_name b) (u_remote_address b)) queues)
    as [[q|]|] eqn:Eq; cbn [or_type_error fst snd app].
  { rewrite bool_decide_eq_true_2 by eauto.
    destruct answers as [|[?|m] answers]; cbn [or_type_error fst snd app];
      intros H; not_in_log H. }
  2:{ intros H; not_in_log H. }
  rewrite bool_decide_eq_false_2 by (intros [? ?]; discriminate).
  rewrite expired_comment_eq.
  destruct (if truthy (u_expiredAt b)
            then (fun s => "expired:" +:+ s) <$> to_string (u_expiredAt b)
            else Some "") as [w_comment|] eqn:Ec;
    cbn [or_type_error fst snd app]; [|intros H; not_in_log H].
  destruct (to_string (u_name b)) as [w_name|] eqn:En;
    cbn [or_type_error fst snd app]; [|intros H; not_in_log H].
  destruct (to_string (u_password b)) as [w_password|] eqn:Ep;
    cbn [or_type_error fst snd app]; [|intros H; not_in_log H].
  destruct (to_string (or_default "default" (u_profile b)))
    as [w_profile|] eqn:Epr;
    cbn [or_type_error fst snd app]; [|intros H; not_in_log H].
  destruct (to_string (u_remote_address b)) as [w_address|] eqn:Ead;
    cbn [or_type_error fst snd app]; [|intros H; not_in_log H].
  intros Hin.
  assert (Husers : Forall (fun u : gmap string string =>
                     strict_eq (u !! "name") (u_name b) = false
                     /\ strict_eq (u !! "remote-address")
                          (u_remote_address b) = false) users).
  { apply find_none_Forall in Eu1, Eu2. rewrite Forall_forall in *.
    intros u Hu. specialize (Eu1 u Hu). specialize (Eu2 u Hu). auto. }
  assert (Hqueues : Forall (fun q : gmap string string =>
                      strict_eq (q !! "name") (u_name b) = false
                      /\ forall target, q !! "target" = Some target ->
                           JSString.includes w_address target = false)
                      queues).
  { apply find_throwing_none in Eq. rewrite Forall_forall in *.
    intros q Hq. specialize (Eq q Hq). unfold duplicate_queue_test in Eq.
    rewrite Ead in Eq.
    destruct (strict_eq (q !! "name") (u_name b)); [discriminate|].
    split; [reflexivity|]. intros target Ht. rewrite Ht in Eq.
    cbn in Eq. congruence. }
  assert (Hstrings :
            (forall s, u_name b = JString s ->
               Forall (fun u : gmap string string => u !! "name" <> Some s)
                 users)
            /\ (forall s, u_remote_address b = JString s ->
                  Forall (fun u : gmap string string =>
                            u !! "remote-address" <> Some s) users)).
  { split; intros s Hs; rewrite Hs in Husers;
      (eapply Forall_impl; [exact Husers|]); cbn;
      intros u [H1 H2]; now apply strict_eq_string. }
  destruct Hstrings as [Hs1 Hs2].
  assert (Hparams : forall p post,
            Write "/ppp/secret/add" params
            ∈ [Connect; Write "/ppp/secret/print" [];
               Write "/queue/simple/print" []; Write "/ppp/secret/add" p]
              ++ post ->
            (forall q, Write "/ppp/secret/add" q ∉ post) -> params = p).
  { intros p post H Hpost.
    repeat (apply elem_of_cons in H as [H|H]; [discriminate|]).
    apply elem_of_cons in H as [H|H]; [now injection H|].
    now apply Hpost in H. }
  destruct answers as [|[c4|m] answers]; cbn [or_type_error fst snd app] in *.
  - exists w_name, w_password, w_profile, w_address, w_comment,
      c, users, queues, [], [].
    rewrite (Hparams _ [] Hin)
      by (intros q H; apply elem_of_nil in H; contradiction).
    repeat split; auto.
  - destruct (to_string (or_default "1M/1M" (u_maxLimit b)))
      as [w_limit|] eqn:El; cbn [or_type_error fst snd app] in *.
    + destruct answers as [|[?|m'] answers]; cbn [or_type_error fst snd app] in *;
        [| destruct answers as [|[?|m''] answers];
           cbn [or_type_error fst snd app] in * |];
        eexists w_name, w_password, w_profile, w_address, w_comment,
          c, users, queues, _, _;
        (erewrite (Hparams _ _ Hin);
         [ repeat split; auto; right; exists w_limit; split; reflexivity
         | intros q H; not_in_log H ]).
    + eexists w_name, w_password, w_profile, w_address, w_comment,
        c, users, queues, _, [].
      rewrite (Hparams _ [] Hin)
        by (intros q H; apply elem_of_nil in H; contradiction).
      repeat split; auto.
  - eexists w_name, w_password, w_profile, w_address, w_comment,
      c, users, queues, _, [].
    rewrite (Hparams _ [] Hin)
      by (intros q H; apply elem_of_nil in H; contradiction).
    repeat split; auto.
Qed.

Ltac handler_step :=
  match goal with
  | |- context [bool_decide (status ?r = 500)] =>
      cbn [status];
      first [ rewrite (bool_decide_eq_true_2 (500 = 500)) by reflexivity
            | rewrite bool_decide_eq_false_2 by discriminate ]
  | |- context [match ?l with [] => _ | _ :: _ => _ end] =>
      is_var l; destruct l as [|[?|?] ?]
  | |- context [List.find ?f ?l] => destruct (List.find f l) eqn:?
  | |- context [find_throwing ?f ?l] =>
      destruct (find_throwing f l) as [[?|]|] eqn:?
  | |- context [bool_decide ?P] => destruct (bool_decide P) eqn:?
  | |- context [truthy ?v] => destruct (truthy v) eqn:?
  | |- context [to_string ?v] => destruct (to_string v) eqn:?
  end; cbn [or_type_error fst snd app negb].

Ltac unconvertible :=
  try match goal with
      | H : find_throwing _ _ = None |- _ =>
          apply find_throwing_throws in H as (? & _ & H);
          apply duplicate_queue_test_throws in H
      end;
  repeat match goal with
         | H : to_string (or_default _ _) = None |- _ =>
             apply to_string_or_default in H
         end;
  match goal with
  | H : to_string ?v = None |- _ =>
      exists v; split; [|exact H];
      repeat first [apply list_elem_of_here | apply list_elem_of_further]
  end.

Ltac rejected_call log :=
  exists (pred (length log)); eexists; cbn;
  split; [reflexivity|]; split; [reflexivity|];
  split; [reflexivity|];
  let H := fresh in intros H; not_in_log H.

Ltac thrown_conversion :=
  split; [reflexivity|]; split; [unconvertible|];
  split; [cbn; lia|]; split; [cbn; repeat constructor; eauto|];
  let H := fresh in cbn; intros H; not_in_log H.

Ltac handler_done :=
  match goal with
  | |- (exists k m, _ /\ _ /\ length ?log = S k /\ _) \/ _ =>
      first [ left; rejected_call log | right; thrown_conversion ]
  | |- ?log = [] \/ _ =>
      first
        [ left; reflexivity
        | right; exists (removelast log); cbn; split; [reflexivity|];
          let H := fresh in intros H; not_in_log H ]
  | |- _ => cbn; lia
  end.

(** X18.  How the handlers of pppoeController.js ([getAllUsers],
    [getUserByName], [addUser], [deleteUser], [getActiveUsers]), of
    logController.js ([pollLogs] and the five queue handlers) and of
    interfaceController.js end, whatever the client answers and whatever
    the body of the request holds.  A handler that answers with a status
    other than 500 has made no call, or has closed the connection as its
    last call and not before.  A handler answers with status 500 in two
    cases.  Its last call was rejected: the body is the message of the
    rejection, and it made no call afterwards, so unless the rejected
    call is [close] itself the connection was never closed.  Or a field
    of the body could not be converted to text: the body is the message
    of the TypeError, all the calls made were answered and resolved, and
    the connection was not closed.  A handler that does not answer is
    waiting for a call that never settles. *)
Theorem handlers_close_or_fail
    (name : string) (user : new_user) (queue : new_queue)
    (update : queue_update) (answers : list answer) (h : M response) :
  h ∈ handlers name user queue update ->
  let log := (run h answers).1 in
  match (run h answers).2 with
  | Some r =>
      if bool_decide (status r = 500) then
        (exists k m,
           answers !! k = Some (Rejects m) /\ body r = Error m
           /\ length log = S k /\ Close ∉ take k log)
        \/ (body r = Error (Some type_error)
            /\ (exists v,
                  v ∈ [u_name user; u_password user; u_profile user;
                       u_remote_address user; u_maxLimit user;
                       u_expiredAt user; q_name queue; q_target queue;
                       q_maxLimit queue; c_maxLimit update;
                       c_target update; c_interface update]
                  /\ to_string v = None)
            /\ (length log <= length answers)%nat
            /\ Forall (fun a => exists data, a = Resolves data)
                 (take (length log) answers)
            /\ Close ∉ log)
      else
        log = [] \/ exists log', log = log' ++ [Close] /\ Close ∉ log'
  | None => length log = S (length answers)
  end.
Proof.
  intros Hh. cbn zeta. unfold handlers in Hh.
  repeat (apply elem_of_cons in Hh as [->|Hh]);
    [..|apply elem_of_nil in Hh; contradiction];
    unfold run, getAllUsers, getUserByName, addUser, deleteUser,
      getActiveUsers, pollLogs, getAllQueues, getQueueByName, addQueue,
      updateQueueLimit, deleteQueue, getInterfaceTraffic,
      expired_comment, push_field, template,
      find_record, try_catch, await, respond,
      mbind, mret, M_bind, M_ret; cbn [or_type_error fst snd app];
    repeat handler_step; handler_done.
Qed.
End ControllerFacts.

Lemma addUser_adds_no_duplicate_witness :
  let b := {| Controllers.u_name := Controllers.JString "budi";
              Controllers.u_password := Controllers.JString "secret";
              Controllers.u_profile := Controllers.JUndefined;
              Controllers.u_remote_address :=
                Controllers.JString "192.168.56.20";
              Controllers.u_maxLimit := Controllers.JUndefined;
              Controllers.u_expiredAt := Controllers.JString "2025-12-31" |} in
  let users : list (gmap string string) :=
    [ {[ "name" := "ani"; "remote-address" := "192.168.56.10" ]} ] in
  let queues : list (gmap string string) :=
    [ {[ "name" := "ani"; "target" := "192.168.56.10/32" ]} ] in
  let answers := [Controllers.Resolves []; Controllers.Resolves users;
                  Controllers.Resolves queues; Controllers.Resolves [];
                  Controllers.Resolves []; Controllers.Resolves []] in
  let params := ["=name=budi"; "=password=secret"; "=profile=default";
                 "=remote-address=192.168.56.20";
                 "=comment=expired:2025-12-31"; "=service=pppoe"] in
  Controllers.Write "/ppp/secret/add" params
    ∈ (Controllers.run (Controllers.addUser b) answers).1
  /\ Controllers.run (Controllers.addUser b) answers
     = ([Controllers.Connect; Controllers.Write "/ppp/secret/print" [];
         Controllers.Write "/queue/simple/print" [];
         Controllers.Write "/ppp/secret/add" params;
         Controllers.Write "/queue/simple/add"
           ["=name=budi"; "=target=192.168.56.20"; "=max-limit=1M/1M"];
         Controllers.Close],
        Some {| Controllers.status := 201;
                Controllers.body :=
                  Controllers.Message
                    "User dan Queue berhasil ditambahkan" |})
  /\ exists c users' queues' rest post,
      answers
      = Controllers.Resolves c :: Controllers.Resolves users'
        :: Controllers.Resolves queues' :: rest
      /\ Forall (fun u : gmap string string => u !! "name" <> Some "budi")
           users'
      /\ (Controllers.run (Controllers.addUser b) answers).1
         = [Controllers.Connect; Controllers.Write "/ppp/secret/print" [];
            Controllers.Write "/queue/simple/print" [];
            Controllers.Write "/ppp/secret/add" params] ++ post.
Proof.
  cbn zeta.
  set (b := {| Controllers.u_name := Controllers.JString "budi" |}).
  set (answers := [Controllers.Resolves []; _; _; _; _; _]).
  set (params := ["=name=budi"; _; _; _; _; _]).
  assert (Hrun : Controllers.run (Controllers.addUser b) answers
                 = ([Controllers.Connect;
                     Controllers.Write "/ppp/secret/print" [];
                     Controllers.Write "/queue/simple/print" [];
                     Controllers.Write "/ppp/secret/add" params;
                     Controllers.Write "/queue/simple/add"
                       ["=name=budi"; "=target=192.168.56.20";
                        "=max-limit=1M/1M"];
                     Controllers.Close],
                    Some {| Controllers.status := 201;
                            Controllers.body :=
                              Controllers.Message
                                "User dan Queue berhasil ditambahkan" |}))
    by (vm_compute; reflexivity).
  assert (Hin : Controllers.Write "/ppp/secret/add" params
                ∈ (Controllers.run (Controllers.addUser b) answers).1).
  { rewrite Hrun. cbn [fst]. do 3 apply list_elem_of_further.
    apply list_elem_of_here. }
  split; [exact Hin|]. split; [exact Hrun|].
  destruct (addUser_adds_no_duplicate b answers params Hin)
    as (w_name & w_password & w_profile & w_address & w_comment
        & c & users' & queues' & rest & post
        & _ & _ & H3 & _ & _ & (H6 & _) & _ & H8 & _).
  exists c, users', queues', rest, post.
  split; [exact H3|]. split; [exact (H6 "budi" eq_refl)|exact H8].
Defined.

(** A name that is a number is equal to the name of no user, and is
    written as its text: the user 7 is added beside a user of that
    name. *)
Example addUser_number_as_name :
  let b := {| Controllers.u_name := Controllers.JNumber "7";
              Controllers.u_password := Controllers.JString "secret";
              Controllers.u_profile := Controllers.JUndefined;
              Controllers.u_remote_address := Controllers.JString "192.168.56.20";
              Controllers.u_maxLimit := Controllers.JUndefined;
              Controllers.u_expiredAt := Controllers.JUndefined |} in
  let users : list (gmap string string) :=
    [ {[ "name" := "7"; "remote-address" := "192.168.56.10" ]} ] in
  Controllers.run (Controllers.addUser b)
    [Controllers.Resolves []; Controllers.Resolves users;
     Controllers.Resolves []; Controllers.Resolves [];
     Controllers.Resolves []; Controllers.Resolves []]
  = ([Controllers.Connect; Controllers.Write "/ppp/secret/print" [];
      Controllers.Write "/queue/simple/print" [];
      Controllers.Write "/ppp/secret/add"
        ["=name=7"; "=password=secret"; "=profile=default";
         "=remote-address=192.168.56.20"; "=comment="; "=service=pppoe"];
      Controllers.Write "/queue/simple/add"
        ["=name=7"; "=target=192.168.56.20"; "=max-limit=1M/1M"];
      Controllers.Close],
     Some {| Controllers.status := 201;
             Controllers.body :=
               Controllers.Message "User dan Queue berhasil ditambahkan" |}).
Proof. vm_compute. reflexivity. Qed.

(** A limit that is an object with a field [toString] cannot be
    converted: the secret is added, the queue is not, and the handler
    answers with status 500 and leaves the connection open, although
    every call resolved. *)
Example addUser_limit_not_convertible :
  let b := {| Controllers.u_name := Controllers.JString "budi";
              Controllers.u_password := Controllers.JString "secret";
              Controllers.u_profile := Controllers.JUndefined;
              Controllers.u_remote_address := Controllers.JString "192.168.56.20";
              Controllers.u_maxLimit :=
                Controllers.JObject [("toString", Controllers.JNull)];
              Controllers.u_expiredAt := Controllers.JUndefined |} in
  Controllers.run (Controllers.addUser b)
    [Controllers.Resolves []; Controllers.Resolves [];
     Controllers.Resolves []; Controllers.Resolves [];
     Controllers.Resolves []; Controllers.Resolves []]
  = ([Controllers.Connect; Controllers.Write "/ppp/secret/print" [];
      Controllers.Write "/queue/simple/print" [];
      Controllers.Write "/ppp/secret/add"
        ["=name=budi"; "=password=secret"; "=profile=default";
         "=remote-address=192.168.56.20"; "=comment="; "=service=pppoe"]],
     Some {| Controllers.status := 500;
             Controllers.body :=
               Controllers.Error
                 (Some "Cannot convert object to primitive value") |}).
Proof. vm_compute. reflexivity. Qed.

Lemma handlers_close_or_fail_witness :
  let b := {| Controllers.u_name := Controllers.JString "budi";
              Controllers.u_password := Controllers.JString "secret";
              Controllers.u_profile := Controllers.JUndefined;
              Controllers.u_remote_address :=
                Controllers.JString "192.168.56.20";
              Controllers.u_maxLimit := Controllers.JUndefined;
              Controllers.u_expiredAt := Controllers.JUndefined |} in
  let h := Controllers.deleteUser "budi" in
  let target : gmap string string := {[ ".id" := "*7"; "name" := "budi" ]} in
  let answers := [Controllers.Resolves [];
                  Controllers.Resolves [target];
                  Controllers.Rejects (Some "no such item")] in
  let queue := {| Controllers.q_name := Controllers.JUndefined;
                  Controllers.q_target := Controllers.JUndefined;
                  Controllers.q_maxLimit := Controllers.JUndefined |} in
  let update := {| Controllers.c_maxLimit := Controllers.JUndefined;
                   Controllers.c_target := Controllers.JUndefined;
                   Controllers.c_interface := Controllers.JUndefined |} in
  h ∈ Controllers.handlers "budi" b queue update
  /\ Controllers.run h answers
     = ([Controllers.Connect; Controllers.Write "/ppp/secret/print" [];
         Controllers.Write "/ppp/secret/remove" ["=.id=*7"]],
        Some {| Controllers.status := 500;
                Controllers.body :=
                  Controllers.Error (Some "no such item") |})
  /\ match (Controllers.run h answers).2 with
     | Some r =>
         if bool_decide (Controllers.status r = 500) then
           (exists k m,
              answers !! k = Some (Controllers.Rejects m)
              /\ Controllers.body r = Controllers.Error m
              /\ length (Controllers.run h answers).1 = S k
              /\ Controllers.Close ∉ take k (Controllers.run h answers).1)
           \/ (Controllers.body r
               = Controllers.Error (Some Controllers.type_error)
               /\ (exists v,
                     v ∈ [Controllers.u_name b; Controllers.u_password b;
                          Controllers.u_profile b;
                          Controllers.u_remote_address b;
                          Controllers.u_maxLimit b;
                          Controllers.u_expiredAt b;
                          Controllers.q_name queue;
                          Controllers.q_target queue;
                          Controllers.q_maxLimit queue;
                          Controllers.c_maxLimit update;
                          Controllers.c_target update;
                          Controllers.c_interface update]
                     /\ Controllers.to_string v = None)
               /\ (length (Controllers.run h answers).1
                   <= length answers)%nat
               /\ Forall (fun a => exists data,
                                     a = Controllers.Resolves data)
                    (take (length (Controllers.run h answers).1) answers)
               /\ Controllers.Close ∉ (Controllers.run h answers).1)
         else
           (Controllers.run h answers).1 = []
           \/ exists log',
               (Controllers.run h answers).1 = log' ++ [Controllers.Close]
               /\ Controllers.Close ∉ log'
     | None =>
         length (Controllers.run h answers).1 = S (length answers)
     end.
Proof.
  cbn zeta.
  set (b := {| Controllers.u_name := Controllers.JString "budi" |}).
  set (queue := {| Controllers.q_name := Controllers.JUndefined |}).
  set (update := {| Controllers.c_maxLimit := Controllers.JUndefined |}).
  assert (Hh : Controllers.deleteUser "budi"
               ∈ Controllers.handlers "budi" b queue update).
  { unfold Controllers.handlers. do 3 apply list_elem_of_further.
    apply list_elem_of_here. }
  set (answers := [Controllers.Resolves []; _; _]).
  split; [exact Hh|]. split; [vm_compute; reflexivity|].
  exact (handlers_close_or_fail "budi" b queue update answers _ Hh).
Defined.

(** ** The HTTP handlers: the address picked for a new user *)

Section PickedAddressFacts.
Import Controllers JSNumber.

Ltac not_in_log H :=
  repeat (apply elem_of_cons in H as [H|H]; [discriminate|]);
  apply elem_of_nil in H; contradiction.

Ltac answer_step :=
  match goal with
  | |- context [match ?l with [] => _ | _ :: _ => _ end] =>
      is_var l; destruct l as [|[?|?] ?]
  end; cbn [fst snd app].

Ltac no_created :=
  cbn -[Part005.availableIP];
  let H := fresh in
  intros H; first [discriminate H | injection H as <-; discriminate].

Ltac more_answers :=
  try match goal with
      | a : list answer |- _ =>
          destruct a as [|[?|?] ?]; cbn -[Part005.availableIP]
      end.

Ltac leaf :=
  cbn -[Part005.availableIP]; more_answers; more_answers; no_created.

Ltac unconvertible :=
  repeat match goal with
         | H : to_string (or_default _ _) = None |- _ =>
             apply to_string_or_default in H
         end;
  match goal with
  | H : to_string ?v = None |- _ =>
      exists v; split; [|exact H];
      repeat first [apply list_elem_of_here | apply list_elem_of_further]
  end.

Lemma expired_comment_none expiredAt :
  (if truthy expiredAt
   then (fun s => "expired:" +:+ s) <$> to_string expiredAt
   else Some "") = None ->
  to_string expiredAt = None.
Proof.
  destruct (truthy expiredAt); [|discriminate].
  now destruct (to_string expiredAt).
Qed.

(** X20.  [addUser] of unnamed/part_005 answers with status 201 only
    when all six calls resolved, the fields it writes can be converted
    to text, no user of the router has a name strictly equal to that of
    the body (so, for a name that is a string, no user has that name),
    and an address is free.  The address in the answer is then the one
    [availableIP] picked from the users and queues the router listed,
    and the one the handler wrote: as the remote address of the secret
    it added, with the local address 192.168.56.1, and as the target of
    the queue it added; the last call closes the connection. *)
Theorem part005_addUser_reports_the_address
    (b : new_user) (answers : list answer) (r : response) :
  (run (Part005.addUser b) answers).2 = Some r -> status r = 201 ->
  exists ip w_name w_password w_profile w_comment w_limit
         c users queues c4 c5 c6 rest,
    answers = Resolves c :: Resolves users :: Resolves queues
              :: Resolves c4 :: Resolves c5 :: Resolves c6 :: rest
    /\ Part005.availableIP (Part005.usedIPs users queues) = Some ip
    /\ Forall (fun u : gmap string string =>
                 strict_eq (u !! "name") (u_name b) = false) users
    /\ (forall s, u_name b = JString s ->
          Forall (fun u : gmap string string => u !! "name" <> Some s)
            users)
    /\ (to_string (u_name b) = Some w_name
        /\ to_string (u_password b) = Some w_password
        /\ to_string (or_default "default" (u_profile b)) = Some w_profile
        /\ (if truthy (u_expiredAt b)
            then (fun s => "expired:" +:+ s) <$> to_string (u_expiredAt b)
            else Some "") = Some w_comment
        /\ to_string (or_default "2M/2M" (u_maxLimit b)) = Some w_limit)
    /\ body r = MessageIp "User dan Queue berhasil ditambahkan" ip
    /\ (run (Part005.addUser b) answers).1
       = [Connect; Write "/ppp/secret/print" [];
          Write "/queue/simple/print" [];
          Write "/ppp/secret/add"
            ["=name=" +:+ w_name;
             "=password=" +:+ w_password;
             "=profile=" +:+ w_profile;
             "=remote-address=" +:+ ip;
             "=local-address=192.168.56.1";
             "=comment=" +:+ w_comment;
             "=service=pppoe"];
          Write "/queue/simple/add"
            ["=name=" +:+ w_name; "=target=" +:+ ip;
             "=max-limit=" +:+ w_limit];
          Close].
Proof.
  unfold run, Part005.addUser, find_record, try_catch, await, respond,
    template, mbind, mret, M_bind, M_ret. cbn [fst snd app].
  destruct answers as [|[c|m] answers]; cbn [fst snd app].
  1,3: leaf.
  destruct answers as [|[users|m] answers]; cbn [fst snd app].
  1,3: leaf.
  destruct answers as [|[queues|m] answers]; cbn [fst snd app].
  1,3: leaf.
  match goal with
  | |- context [bool_decide (is_Some (List.find ?f users))] =>
      destruct (List.find f users) as [u|] eqn:Eu
  end.
  { rewrite bool_decide_eq_true_2 by eauto.
    leaf. }
  rewrite bool_decide_eq_false_2 by (intros [? ?]; discriminate).
  destruct (Part005.availableIP (Part005.usedIPs users queues)) as [ip|] eqn:Eip.
  2:{ leaf. }
  rewrite expired_comment_eq.
  destruct (if truthy (u_expiredAt b)
            then (fun s => "expired:" +:+ s) <$> to_string (u_expiredAt b)
            else Some "") as [w_comment|] eqn:Ec;
    cbn [or_type_error fst snd app].
  2:{ leaf. }
  destruct (to_string (u_name b)) as [w_name|] eqn:En;
    cbn [or_type_error fst snd app].
  2:{ leaf. }
  destruct (to_string (u_password b)) as [w_password|] eqn:Ep;
    cbn [or_type_error fst snd app].
  2:{ leaf. }
  destruct (to_string (or_default "default" (u_profile b)))
    as [w_profile|] eqn:Epr; cbn [or_type_error fst snd app].
  2:{ leaf. }
  destruct answers as [|[c4|m] answers]; cbn [fst snd app].
  1,3: leaf.
  destruct (to_string (or_default "2M/2M" (u_maxLimit b)))
    as [w_limit|] eqn:El; cbn [or_type_error fst snd app].
  2:{ leaf. }
  destruct answers as [|[c5|m] answers]; cbn [fst snd app].
  1,3: leaf.
  destruct answers as [|[c6|m] answers]; cbn [fst snd app].
  1,3: leaf.
  cbn -[Part005.availableIP]. intros [= <-] _.
  exists ip, w_name, w_password, w_profile, w_comment, w_limit,
    c, users, queues, c4, c5, c6, answers.
  assert (Husers : Forall (fun u : gmap string string =>
                     strict_eq (u !! "name") (u_name b) = false) users).
  { apply find_none_Forall in Eu. exact Eu. }
  split; [reflexivity|]. split; [exact Eip|]. split; [exact Husers|].
  split.
  { intros s Hs. rewrite Hs in Husers.
    eapply Forall_impl; [exact Husers|]. cbn.
    intros u Hu. now apply strict_eq_string. }
  split; [auto|]. split; reflexivity.
Qed.

Ltac status_500 :=
  cbn [status];
  first [ rewrite (bool_decide_eq_true_2 (500 = 500)) by reflexivity
        | rewrite bool_decide_eq_false_2 by discriminate ].

Ltac try_k k :=
  exists k; do 2 eexists; cbn; repeat split; reflexivity.

Ltac pick_k :=
  first [ try_k 0%nat | try_k 1%nat | try_k 2%nat | try_k 3%nat
        | try_k 4%nat | try_k 5%nat | try_k 6%nat ].

Ltac closed_once log :=
  exists (removelast log); cbn; split; [reflexivity|];
  let H := fresh in intros H; not_in_log H.

Ltac thrown_then_closed :=
  split; [unconvertible|]; split; [reflexivity|];
  split; [cbn; lia|]; split; [cbn; repeat constructor; eauto|];
  match goal with
  | |- exists log', ?log = _ /\ _ => closed_once log
  end.

Ltac try_rejected k :=
  exists k; eexists; cbn; split; [reflexivity|]; split; [reflexivity|];
  solve [repeat constructor; eauto].

Ltac thrown_close_rejected :=
  split; [unconvertible|];
  first [ try_rejected 0%nat | try_rejected 1%nat | try_rejected 2%nat
        | try_rejected 3%nat | try_rejected 4%nat | try_rejected 5%nat
        | try_rejected 6%nat ].

Ltac close_done :=
  cbn -[Part005.availableIP]; try status_500;
  match goal with
  | |- _ /\ ((exists k m data, _) \/ _) =>
      split; [reflexivity|];
      first [ left; pick_k | right; thrown_then_closed ]
  | |- _ /\ (exists log', ?log = _ /\ _) =>
      split; [reflexivity|]; closed_once log
  | |- _ \/ _ \/ _ =>
      first [ left; reflexivity | right; left; pick_k
            | right; right; thrown_close_rejected ]
  end.

Ltac close_leaf :=
  cbn -[Part005.availableIP]; more_answers; more_answers; close_done.

(** X21.  [addUser] of unnamed/part_005 closes the connection in its
    [catch] as well.  So whenever it answers, its last call is [close].
    It answers with status 500 in two cases.  A call was rejected and
    the [close] that followed resolved: the body is the message of the
    rejected call.  Or a field of the body could not be converted to
    text: every call made resolved, the [close] of the [catch] being the
    last and only one, and the body is the message of the TypeError.
    With another status it has closed once only.  When it does not
    answer, it is waiting for a call that never settles, or the [close]
    of the [catch], after a rejected call or after a failed conversion,
    was rejected too: that exception leaves the handler. *)
Theorem part005_addUser_closes (b : new_user) (answers : list answer) :
  let log := (run (Part005.addUser b) answers).1 in
  let unconvertible :=
    exists v,
      v ∈ [u_name b; u_password b; u_profile b; u_maxLimit b; u_expiredAt b]
      /\ to_string v = None in
  match (run (Part005.addUser b) answers).2 with
  | Some r =>
      last log = Some Close
      /\ (if bool_decide (status r = 500) then
            (exists k m data,
               answers !! k = Some (Rejects m)
               /\ answers !! S k = Some (Resolves data)
               /\ body r = Error m
               /\ length log = S (S k))
            \/ (unconvertible
                /\ body r = Error (Some type_error)
                /\ (length log <= length answers)%nat
                /\ Forall (fun a => exists data, a = Resolves data)
                     (take (length log) answers)
                /\ exists log', log = log' ++ [Close] /\ Close ∉ log')
          else exists log', log = log' ++ [Close] /\ Close ∉ log')
  | None =>
      length log = S (length answers)
      \/ (exists k m m',
            answers !! k = Some (Rejects m)
            /\ answers !! S k = Some (Rejects m')
            /\ length log = S (S k))
      \/ (unconvertible
          /\ exists k m,
               answers !! k = Some (Rejects m)
               /\ length log = S k
               /\ Forall (fun a => exists data, a = Resolves data)
                    (take k answers))
  end.
Proof.
  cbn zeta.
  unfold run, Part005.addUser, find_record, try_catch, await, respond,
    template, mbind, mret, M_bind, M_ret. cbn [fst snd app].
  destruct answers as [|[c|m] answers]; cbn [fst snd app].
  1,3: close_leaf.
  destruct answers as [|[users|m] answers]; cbn [fst snd app].
  1,3: close_leaf.
  destruct answers as [|[queues|m] answers]; cbn [fst snd app].
  1,3: close_leaf.
  match goal with
  | |- context [bool_decide (is_Some (List.find ?f users))] =>
      destruct (List.find f users) as [u|] eqn:Eu
  end.
  { rewrite bool_decide_eq_true_2 by eauto. close_leaf. }
  rewrite bool_decide_eq_false_2 by (intros [? ?]; discriminate).
  destruct (Part005.availableIP (Part005.usedIPs users queues))
    as [ip|] eqn:Eip.
  2:{ close_leaf. }
  rewrite expired_comment_eq.
  destruct (if truthy (u_expiredAt b)
            then (fun s => "expired:" +:+ s) <$> to_string (u_expiredAt b)
            else Some "") as [w_comment|] eqn:Ec;
    cbn [or_type_error fst snd app].
  2:{ apply expired_comment_none in Ec. close_leaf. }
  destruct (to_string (u_name b)) as [w_name|] eqn:En;
    cbn [or_type_error fst snd app].
  2:{ close_leaf. }
  destruct (to_string (u_password b)) as [w_password|] eqn:Ep;
    cbn [or_type_error fst snd app].
  2:{ close_leaf. }
  destruct (to_string (or_default "default" (u_profile b)))
    as [w_profile|] eqn:Epr; cbn [or_type_error fst snd app].
  2:{ close_leaf. }
  destruct answers as [|[c4|m] answers]; cbn [fst snd app].
  1,3: close_leaf.
  destruct (to_string (or_default "2M/2M" (u_maxLimit b)))
    as [w_limit|] eqn:El; cbn [or_type_error fst snd app].
  2:{ close_leaf. }
  destruct answers as [|[c5|m] answers]; cbn [fst snd app].
  1,3: close_leaf.
  close_leaf.
Qed.
End PickedAddressFacts.

Lemma part005_addUser_reports_the_address_witness :
  let b := {| Controllers.u_name := Controllers.JString "budi";
              Controllers.u_password := Controllers.JString "secret";
              Controllers.u_profile := Controllers.JUndefined;
              Controllers.u_remote_address := Controllers.JUndefined;
              Controllers.u_maxLimit := Controllers.JUndefined;
              Controllers.u_expiredAt := Controllers.JUndefined |} in
  let users : list (gmap string string) :=
    [ {[ "name" := "ani"; "remote-address" := "192.168.56.10" ]} ] in
  let queues : list (gmap string string) :=
    [ {[ "name" := "tamu"; "target" := "192.168.56.11/32" ]} ] in
  let answers := [Controllers.Resolves []; Controllers.Resolves users;
                  Controllers.Resolves queues; Controllers.Resolves [];
                  Controllers.Resolves []; Controllers.Resolves []] in
  let r := {| Controllers.status := 201;
              Controllers.body :=
                Controllers.MessageIp "User dan Queue berhasil ditambahkan"
                  "192.168.56.12" |} in
  ((Controllers.run (Controllers.Part005.addUser b) answers).2 = Some r
   /\ Controllers.status r = 201)
  /\ exists ip c users' queues' c4 c5 c6 rest,
      answers
      = Controllers.Resolves c :: Controllers.Resolves users'
        :: Controllers.Resolves queues' :: Controllers.Resolves c4
        :: Controllers.Resolves c5 :: Controllers.Resolves c6 :: rest
      /\ Controllers.Part005.availableIP
           (Controllers.Part005.usedIPs users' queues') = Some ip
      /\ Forall (fun u : gmap string string => u !! "name" <> Some "budi")
           users'
      /\ Controllers.body r
         = Controllers.MessageIp "User dan Queue berhasil ditambahkan" ip.
Proof.
  cbn zeta.
  set (b := {| Controllers.u_name := Controllers.JString "budi" |}).
  set (answers := [Controllers.Resolves []; _; _; _; _; _]).
  set (r := {| Controllers.status := 201 |}).
  assert (H1 : (Controllers.run (Controllers.Part005.addUser b) answers).2
               = Some r) by (vm_compute; reflexivity).
  assert (H2 : Controllers.status r = 201) by reflexivity.
  split; [split; assumption|].
  destruct (part005_addUser_reports_the_address b answers r H1 H2)
    as (ip & w_name & w_password & w_profile & w_comment & w_limit
        & c & users' & queues' & c4 & c5 & c6 & rest
        & K1 & K2 & _ & K3 & _ & K4 & _).
  exists ip, c, users', queues', c4, c5, c6, rest.
  split; [exact K1|]. split; [exact K2|].
  split; [exact (K3 "budi" eq_refl)|exact K4].
Defined.

(** The same handler with a password that cannot be converted to text:
    no call is rejected, nothing is added, and the handler closes the
    connection and answers with status 500. *)
Example part005_addUser_password_not_convertible :
  let b := {| Controllers.u_name := Controllers.JString "budi";
              Controllers.u_password :=
                Controllers.JObject [("toString", Controllers.JNull)];
              Controllers.u_profile := Controllers.JUndefined;
              Controllers.u_remote_address := Controllers.JUndefined;
              Controllers.u_maxLimit := Controllers.JUndefined;
              Controllers.u_expiredAt := Controllers.JUndefined |} in
  Controllers.run (Controllers.Part005.addUser b)
    [Controllers.Resolves []; Controllers.Resolves [];
     Controllers.Resolves []; Controllers.Resolves []]
  = ([Controllers.Connect; Controllers.Write "/ppp/secret/print" [];
      Controllers.Write "/queue/simple/print" []; Controllers.Close],
     Some {| Controllers.status := 500;
             Controllers.body :=
               Controllers.Error
                 (Some "Cannot convert object to primitive value") |}).
Proof. vm_compute. reflexivity. Qed.

(** ** Session: one request after the other *)

Section ReuseFacts.
Import RouterOSAPI.

Ltac flat :=
  cbv beta iota delta
    [host user password port timeout tls keepalive connected connecting
     closing channelsOpen connector heap logins listeners emitted crashed
     set_flags set_heap set_connector set_logins set_channelsOpen
     set_listeners set_emitted].

Lemma alter_end {A} (f : A -> A) (l : list A) (x : A) :
  alter f (length l) (l ++ [x]) = l ++ [f x].
Proof.
  replace (length l) with (length l + 0)%nat by lia.
  now rewrite alter_app_r.
Qed.

Lemma lookup_end {A} (l : list A) (x : A) :
  (l ++ [x]) !! length l = Some x.
Proof. now apply list_lookup_middle. Qed.

Lemma call_listeners_cons i r rest s :
  crashed s = false ->
  call_listeners i (r :: rest) s
  = call_listeners i rest
      (run_listener r.2
         (on_connector i
            (fun c => Connector.set_listeners
                        (Connector.remove_first r (Connector.listeners c)) c)
            s)).
Proof. intros H. cbn [call_listeners]. now rewrite H. Qed.

Lemma run_app es1 es2 s : run (es1 ++ es2) s = run es2 (run es1 s).
Proof. apply fold_left_app. Qed.

Lemma run_writes n : forall s,
  crashed s = false ->
  run (replicate n CallWrite) s
  = set_channelsOpen (channelsOpen s + Z.of_nat n) s.
Proof.
  induction n as [|n IH]; intros s Hs.
  - destruct s; unfold set_channelsOpen; cbn. f_equal. lia.
  - change (run (replicate (S n) CallWrite) s)
      with (run (replicate n CallWrite) (step CallWrite s)).
    unfold step. rewrite Hs. unfold write. rewrite IH by (now destruct s).
    destruct s; unfold set_channelsOpen; cbn. f_equal. lia.
Qed.

(** A session that is neither connected nor connecting, asked to
    connect: when the socket connects and the login succeeds it is
    connected, on a new connector at the end of the heap. *)
Lemma connect_idle (s : session) :
  connected s = false -> connecting s = false -> crashed s = false ->
  logins s = 0%nat ->
  exists c,
    (Connector.listeners c
     = [(Connector.EvClose, CloseListener);
        (Connector.EvError, ConnectedErrorListener);
        (Connector.EvTimeout, ConnectedErrorListener)]
     /\ Connector.transmitter c <> None
     /\ Connector.destroyed c = false
     /\ Connector.closing c = false)
    /\ run [CallConnect; SockConnect (length (heap s)); LoginSettled true] s
       = {| host := host s; user := user s; password := password s;
            port := port s; timeout := timeout s; tls := tls s;
            keepalive := keepalive s; connected := true;
            connecting := false; closing := closing s;
            channelsOpen := channelsOpen s + 1;
            connector := Some (length (heap s)); heap := heap s ++ [c];
            logins := 0; listeners := listeners s;
            emitted := emitted s; crashed := false |}.
Proof.
  destruct s as [h u p po t tl k cd cg cl co cn hp lg el em cr].
  cbn. intros -> -> -> ->.
  unfold run. cbn [fold_left heap].
  unfold step at 3. cbn [crashed]. unfold connect. flat.
  set (c1 := Connector.connect _).
  assert (Hc1 : Connector.listeners c1
                = [(Connector.EvError, EndListener);
                   (Connector.EvTimeout, EndListener);
                   (Connector.EvClose, CloseListener);
                   (Connector.EvConnected, LoginOnConnected)]
                /\ Connector.transmitter c1 <> None
                /\ Connector.destroyed c1 = false
                /\ Connector.closing c1 = false)
    by (split; [|split; [|split]]; [reflexivity|discriminate|reflexivity..]).
  clearbody c1. destruct Hc1 as (Hl1 & Hn1 & Ht1 & Hcl1).
  unfold step at 2. flat.
  unfold on_connector at 1. flat. rewrite alter_end.
  unfold connector_emit, connector_listeners. flat.
  rewrite lookup_end. cbn [Connector.onConnect Connector.listeners].
  rewrite Hl1.
  rewrite !filter_cons_False by (cbn; discriminate).
  rewrite filter_cons_True by reflexivity. rewrite filter_nil.
  rewrite call_listeners_cons by reflexivity. cbn [call_listeners].
  unfold on_connector at 1. flat. rewrite alter_end.
  cbn [run_listener snd]. unfold login. flat.
  set (c2 := Connector.set_listeners _ _).
  assert (Hc2 : Connector.listeners c2
                = [(Connector.EvError, EndListener);
                   (Connector.EvTimeout, EndListener);
                   (Connector.EvClose, CloseListener)]
                /\ Connector.transmitter c2 <> None
                /\ Connector.destroyed c2 = false
                /\ Connector.closing c2 = false).
  { unfold c2. split; [|split; [|split; [|exact Hcl1]]].
    - cbn [Connector.set_listeners Connector.onConnect Connector.listeners].
      rewrite Hl1. vm_compute. reflexivity.
    - cbn. destruct (Connector.transmitter c1); [discriminate|congruence].
    - unfold Connector.destroyed in *. cbn.
      destruct (Connector.transmitter c1) as [tr|]; [|reflexivity]. cbn.
      destruct (runPool_loop_sent (Transmitter.pool tr)
                  (Transmitter.socket tr))
        as (_ & _ & ->).
      exact Ht1. }
  clearbody c2. clear c1 Hl1 Hn1 Ht1 Hcl1.
  destruct Hc2 as (Hl2 & Hn2 & Ht2 & Hcl2).
  unfold step. flat. unfold login_settled. flat.
  unfold on_connector at 1. flat. rewrite alter_end.
  eexists. split; [|reflexivity].
  split; [|split; [exact Hn2|split; [exact Ht2|exact Hcl2]]].
  unfold Connector.once, Connector.removeListener.
  cbn [Connector.listeners Connector.set_listeners]. rewrite Hl2.
  vm_compute. reflexivity.
Qed.

(** A connected session that is not closing, asked to close: when the
    socket ends, the close event is emitted, the connector is out of
    use, and the session is neither connected nor connecting. *)
Lemma close_connected (s : session) (c : Connector.connector listener)
    (hp : list (Connector.connector listener)) :
  connected s = true -> closing s = false -> crashed s = false ->
  listeners s = [] ->
  heap s = hp ++ [c] -> connector s = Some (length hp) ->
  Connector.listeners c
  = [(Connector.EvClose, CloseListener);
     (Connector.EvError, ConnectedErrorListener);
     (Connector.EvTimeout, ConnectedErrorListener)] ->
  Connector.transmitter c <> None -> Connector.closing c = false ->
  exists c',
    retired c'
    /\ run [CallClose; SockEnd (length hp)] s
       = {| host := host s; user := user s; password := password s;
            port := port s; timeout := timeout s; tls := tls s;
            keepalive := keepalive s; connected := false;
            connecting := false; closing := false;
            channelsOpen := channelsOpen s;
            connector := None; heap := hp ++ [c'];
            logins := logins s; listeners := [];
            emitted := emitted s ++ ["close"]; crashed := false |}.
Proof.
  destruct s as [h u p po t tl k cd cg cl co cn hp' lg el em cr].
  cbn. intros -> -> -> -> -> -> Hl3 Ht3 Hcl3.
  unfold run. cbn [fold_left].
  unfold step at 2. flat. unfold close. flat. cbn [negb].
  unfold on_connector at 1. flat. rewrite alter_end.
  cbn [Connector.once Connector.set_listeners Connector.closing].
  rewrite Hcl3.
  set (c4 := Connector.close _).
  assert (Hc4 : Connector.listeners c4
                = [(Connector.EvClose, CloseListener);
                   (Connector.EvError, ConnectedErrorListener);
                   (Connector.EvTimeout, ConnectedErrorListener);
                   (Connector.EvClose, CloseDestroy)]
                /\ Connector.transmitter c4 <> None).
  { unfold c4. split; [|exact Ht3].
    cbn [Connector.close Connector.once Connector.listeners
         Connector.set_listeners]. rewrite Hl3. reflexivity. }
  clearbody c4. clear c Hl3 Ht3 Hcl3. destruct Hc4 as (Hl4 & Ht4).
  unfold step. flat. unfold connector_emit, connector_listeners. flat.
  rewrite lookup_end, Hl4.
  rewrite filter_cons_True by reflexivity.
  rewrite !filter_cons_False by (cbn; discriminate).
  rewrite filter_cons_True by reflexivity. rewrite filter_nil.
  rewrite call_listeners_cons by reflexivity.
  unfold on_connector at 1. flat. rewrite alter_end.
  cbn [run_listener snd]. unfold endListener, emit. flat.
  rewrite filter_nil, decide_False by discriminate. flat.
  rewrite call_listeners_cons by reflexivity.
  unfold on_connector at 1. flat. rewrite alter_end.
  cbn [run_listener snd]. unfold destroy_current, on_connector. flat.
  rewrite alter_end. cbn [call_listeners].
  unfold finish_destroy, on_connector. flat. rewrite alter_end.
  eexists. split; [|reflexivity].
  unfold retired, Connector.destroyed. cbn.
  destruct (Connector.transmitter c4); [now split|congruence].
Qed.

(** What holds of a session between two requests. *)
Lemma request_idle (w : nat) (s : session) :
  connected s = false -> connecting s = false -> closing s = false ->
  crashed s = false -> logins s = 0%nat -> listeners s = [] ->
  let s' := run ([CallConnect; SockConnect (length (heap s));
                  LoginSettled true]
                 ++ replicate w CallWrite
                 ++ [CallClose; SockEnd (length (heap s))]) s in
  (connected s' = false /\ connecting s' = false /\ closing s' = false
   /\ crashed s' = false /\ logins s' = 0%nat /\ listeners s' = [])
  /\ connector s' = None
  /\ emitted s' = emitted s ++ ["close"]
  /\ exists c, retired c /\ heap s' = heap s ++ [c].
Proof.
  intros Hcd Hcg Hcl Hcr Hlg Hls. cbn zeta. rewrite !run_app.
  destruct (connect_idle s Hcd Hcg Hcr Hlg)
    as (c & (Hl & Hn & _ & Hc) & ->).
  rewrite run_writes by reflexivity.
  match goal with
  | |- context [run [CallClose; _] ?s1] =>
      destruct (close_connected s1 c (heap s)) as (c' & Hret & ->);
        [reflexivity|exact Hcl|reflexivity|exact Hls|reflexivity..
        |exact Hl|exact Hn|exact Hc|]
  end.
  cbn. repeat split. eauto.
Qed.

(** X19.  A session serves one request after the other, as the handlers
    use their client: connect, the socket connects, the login succeeds,
    any number of commands, close, the socket ends.  After any number of
    such requests the session is neither connected, connecting nor
    closing, it has no connector, it emitted one close event a request,
    and every connector it made is destroyed and has no listener left.
    A further connect then succeeds, on a new connector, the only one
    whose socket is not destroyed. *)
Theorem session_serves_every_request (options : options) (ws : list nat) :
  let request := fun (s : session) (w : nat) =>
    run ([CallConnect; SockConnect (length (heap s)); LoginSettled true]
         ++ replicate w CallWrite
         ++ [CallClose; SockEnd (length (heap s))]) s in
  let s := fold_left request ws (new options) in
  let n := length ws in
  (connected s, connecting s, closing s, crashed s)
  = (false, false, false, false)
  /\ connector s = None
  /\ emitted s = replicate n "close"
  /\ Connector.destroyed <$> heap s = replicate n true
  /\ Forall (fun c => Connector.listeners c = []) (heap s)
  /\ let s' := run [CallConnect; SockConnect n; LoginSettled true] s in
     (connected s', connecting s', closing s', crashed s')
     = (true, false, false, false)
     /\ connector s' = Some n
     /\ Connector.destroyed <$> heap s' = replicate n true ++ [false].
Proof.
  cbn zeta.
  set (request := fun (s : session) (w : nat) => run _ s).
  assert (Hinv : forall ws s,
            (connected s = false /\ connecting s = false
             /\ closing s = false /\ crashed s = false
             /\ logins s = 0%nat /\ listeners s = []) ->
            connector s = None -> Forall retired (heap s) ->
            let s' := fold_left request ws s in
            (connected s' = false /\ connecting s' = false
             /\ closing s' = false /\ crashed s' = false
             /\ logins s' = 0%nat /\ listeners s' = [])
            /\ connector s' = None
            /\ Forall retired (heap s')
            /\ length (heap s') = (length (heap s) + length ws)%nat
            /\ emitted s' = emitted s ++ replicate (length ws) "close").
  { clear ws. induction ws as [|w ws IH]; intros s Hs Hcn Hret.
    - cbn. rewrite Nat.add_0_r, app_nil_r. auto.
    - cbn [fold_left length].
      destruct Hs as (H1 & H2 & H3 & H4 & H5 & H6).
      destruct (request_idle w s H1 H2 H3 H4 H5 H6)
        as (Hs' & Hcn' & Hem & c & Hc & Hheap).
      fold (request s w) in Hs', Hcn', Hem, Hheap.
      specialize (IH (request s w) Hs' Hcn').
      rewrite Hheap, Hem in IH. rewrite length_app in IH. cbn [length] in IH.
      destruct IH as (K1 & K2 & K3 & K4 & K5).
      { apply Forall_app. split; [exact Hret|]. now constructor. }
      split; [exact K1|]. split; [exact K2|]. split; [exact K3|].
      split; [lia|]. rewrite K5, <- app_assoc. reflexivity. }
  destruct (Hinv ws (new options)) as (H1 & H2 & H3 & H4 & H5);
    [repeat split|reflexivity|constructor|].
  set (s := fold_left request ws (new options)) in *. clearbody s.
  clear Hinv request. cbn in H4, H5.
  destruct H1 as (Hcd & Hcg & Hcl & Hcr & Hlg & _).
  assert (Hd : Connector.destroyed <$> heap s = replicate (length ws) true).
  { rewrite <- H4. clear H4. induction H3 as [|c l [Hc _] _ IH]; [reflexivity|].
    cbn. now rewrite Hc, IH. }
  split; [now rewrite Hcd, Hcg, Hcl, Hcr|]. split; [exact H2|].
  split; [exact H5|]. split; [exact Hd|].
  split; [eapply Forall_impl; [exact H3|]; now intros c [_ Hc]|].
  rewrite <- H4.
  destruct (connect_idle s Hcd Hcg Hcr Hlg) as (c & (_ & _ & Hc & _) & ->).
  cbn. rewrite Hcl. split; [reflexivity|]. split; [reflexivity|].
  rewrite fmap_app, Hd, H4. cbn. now rewrite Hc.
Qed.
End ReuseFacts.

